(** * 4D Helper: the server scanner and the scan cache

    A shallow embedding of [src/utils/serverScanner.ts] and of the scan
    cache of [src/utils/serverManager.ts], with the properties of the
    subnet arithmetic, the discovery packet, the reply handler, the two
    subnet scans and the cache staleness test.  The rest of
    [serverManager.ts] (the saved servers, the link files, the names of
    servers), [src/utils/launcher.ts] and [src/utils/projectFinder.ts]
    follow, with their properties after those of the scanner.

    JavaScript numbers are modelled by [Z]: every number the scanner
    handles is an octet, a port, a count or a millisecond timestamp.  A
    computation that would leave the integers (a [NaN], an [undefined]
    used in arithmetic, a string [Number] does not read as a decimal
    integer) is outside this fragment, and the model answers [None]
    there.

    The scanner is embedded twice.  [ServerScanner] is the scanner on
    the inputs its types announce: ports the sockets accept, delays
    that are not negative, replies whose port is an integer.  [Runtime]
    is the scanner as Node runs it: the sockets check their arguments
    and throw, which rejects the scan, and the port of a reply is
    whatever [JSON.parse] found.  The properties of the scans that
    depend on either are stated on [Runtime], at the end. *)

From Stdlib Require Import ZArith Lia Ascii String.
From Stdlib Require Import Numbers.DecimalString Numbers.DecimalZ.
From stdpp Require Import base option list sorting strings gmap.

Local Open Scope string_scope.
Local Open Scope list_scope.
Local Open Scope Z_scope.

(** ** JavaScript primitives used by the scanner *)

Module JS.

(** [s.split(".")]: the pieces between the dots; a string without a dot
    is its own single piece. *)
Fixpoint split_dot (s : string) : list string :=
  match s with
  | EmptyString => [EmptyString]
  | String c rest =>
      if Ascii.eqb c "." then EmptyString :: split_dot rest
      else match split_dot rest with
           | piece :: pieces => String c piece :: pieces
           | [] => [String c EmptyString]
           end
  end.

(** [parts.join(".")] on an array of strings. *)
Fixpoint join_dot (parts : list string) : string :=
  match parts with
  | [] => EmptyString
  | [p] => p
  | p :: rest => p +:+ "." +:+ join_dot rest
  end.

Definition digit_of (c : ascii) : option Z :=
  let n := Z.of_N (N_of_ascii c) in
  if (48 <=? n) && (n <=? 57) then Some (n - 48) else None.

Fixpoint digits_value (acc : Z) (s : string) : option Z :=
  match s with
  | EmptyString => Some acc
  | String c rest =>
      match digit_of c with
      | Some d => digits_value (10 * acc + d) rest
      | None => None
      end
  end.

Definition MAX_SAFE_INTEGER : Z := 2 ^ 53 - 1.

(** [Number(s)] on the strings it reads as an exact decimal integer: the
    empty string (which is 0), and an optional minus sign before a
    non-empty run of digits, up to [MAX_SAFE_INTEGER] in magnitude.
    [None] everywhere else. *)
Definition Number (s : string) : option Z :=
  let safe (z : Z) :=
    if Z.abs z <=? MAX_SAFE_INTEGER then Some z else None in
  match s with
  | EmptyString => Some 0
  | String c rest =>
      if Ascii.eqb c "-" then
        match rest with
        | EmptyString => None
        | _ => match digits_value 0 rest with
               | Some z => safe (- z)
               | None => None
               end
        end
      else match digits_value 0 s with
           | Some z => safe z
           | None => None
           end
  end.

(** [String(n)] for an integer [n], as template literals and [join]
    print it (in plain decimal, which JavaScript uses below 10^21). *)
Definition toString (n : Z) : string :=
  NilZero.string_of_int (Z.to_int n).

(** Printing of an array element that may be missing. *)
Definition show (v : option Z) : string :=
  match v with
  | Some n => toString n
  | None => "undefined"
  end.

(** [ToInt32], the conversion the bitwise operators apply first. *)
Definition toInt32 (n : Z) : Z := (n + 2 ^ 31) mod 2 ^ 32 - 2 ^ 31.

(** [a & b] and [a | b]; a missing right operand ([undefined]) converts
    to 0. *)
Definition bitand (a : Z) (b : option Z) : Z :=
  Z.land (toInt32 a) (toInt32 (default 0 b)).

Definition bitor (a : Z) (b : option Z) : Z :=
  Z.lor (toInt32 a) (toInt32 (default 0 b)).

(** [parts[i] += k]: in range it updates the element; out of range it
    would store [NaN], which leaves the fragment. *)
Definition add_at (i : nat) (k : Z) (parts : list Z) : option (list Z) :=
  match parts !! i with
  | Some _ => Some (alter (fun v => v + k) i parts)
  | None => None
  end.

(** [arr.slice(start, end)] with its treatment of negative and
    overshooting indices. *)
Definition slice {A} (l : list A) (start stop : Z) : list A :=
  let len := Z.of_nat (length l) in
  let clamp (k : Z) := if k <? 0 then Z.max (len + k) 0 else Z.min k len in
  let from := clamp start in
  let to := clamp stop in
  take (Z.to_nat (to - from)) (drop (Z.to_nat from) l).

(** [arr.sort((a, b) => a - b)]: the stable ascending numeric sort. *)
Definition sort (l : list Z) : list Z := merge_sort Z.le l.

Fixpoint indexOf_from (c : ascii) (s : string) (i : Z) : Z :=
  match s with
  | EmptyString => -1
  | String a rest => if Ascii.eqb a c then i else indexOf_from c rest (i + 1)
  end.

(** [s.indexOf(c)] for a one-character [c]; -1 when absent. *)
Definition indexOf (s : string) (c : ascii) : Z := indexOf_from c s 0.

Fixpoint lastIndexOf_from (c : ascii) (s : string) (i last : Z) : Z :=
  match s with
  | EmptyString => last
  | String a rest =>
      lastIndexOf_from c rest (i + 1) (if Ascii.eqb a c then i else last)
  end.

(** [s.lastIndexOf(c)] for a one-character [c]; -1 when absent. *)
Definition lastIndexOf (s : string) (c : ascii) : Z :=
  lastIndexOf_from c s 0 (-1).

(** [s.substring(start, end)]: both indices are clamped to the string
    and swapped when they come in the wrong order. *)
Definition substring (s : string) (start stop : Z) : string :=
  let len := Z.of_nat (String.length s) in
  let clamp (k : Z) := Z.min (Z.max k 0) len in
  let a := clamp start in
  let b := clamp stop in
  let from := Z.min a b in
  let to := Z.max a b in
  String.substring (Z.to_nat from) (Z.to_nat (to - from)) s.

(** What evaluating an expression may do: yield a value or throw. *)
Inductive completion (A : Type) : Type :=
  | Normal (a : A)
  | Throw (message : string).
Arguments Normal {A} a.
Arguments Throw {A} message.

(** A [Map] with string keys, in insertion order: [set] on a key that is
    present replaces its value where it stands. *)
Definition Map_has {V} (key : string) (m : list (string * V)) : bool :=
  bool_decide (key ∈ m.*1).

Fixpoint Map_set {V} (key : string) (v : V) (m : list (string * V))
  : list (string * V) :=
  match m with
  | [] => [(key, v)]
  | (k, x) :: m' =>
      if decide (k = key) then (key, v) :: m' else (k, x) :: Map_set key v m'
  end.

Definition Map_values {V} (m : list (string * V)) : list V := m.*2.

(** A Node [Buffer]: a fixed-length array of bytes. *)
Abbreviation Buffer := (list Byte.byte).

Definition Buffer_alloc (size : nat) (fill : Byte.byte) : Buffer :=
  replicate size fill.

Fixpoint write_at (bytes : list Byte.byte) (offset : nat) (buf : Buffer) : Buffer :=
  match bytes with
  | [] => buf
  | b :: bytes' => write_at bytes' (S offset) (<[offset:=b]> buf)
  end.

(** [buf.write(str, offset, "utf8")] for an offset inside the buffer:
    the bytes of [str] are copied from [offset] on and what does not fit
    is dropped.  (Node raises a [RangeError] for an offset beyond the
    buffer; the scanner writes at 32 and 64 into 96 bytes.) *)
Definition Buffer_write (buf : Buffer) (str : string) (offset : nat) : Buffer :=
  write_at (list_byte_of_string str) offset buf.

End JS.

(** ** serverScanner.ts *)

(** The scanner on the inputs its types announce.  A socket is asked
    for its fate whatever the port and the delay: that the sockets of
    Node refuse some of them, and what follows from it, is modelled in
    [Runtime].  A reply is a [Server4DDiscoveryInfo] whose port is an
    integer: what the scan does with another reply is modelled there
    as well. *)

Module ServerScanner.
Import JS.

Record ServerScanResult := {
  host : string;
  port : Z;
  isOpen : bool;
  responseTime : option Z
}.

(** The reply of a 4D Server to the discovery datagram. *)
Record Server4DDiscoveryInfo := {
  info_host : string;
  info_service : string;
  info_database : string;
  info_port : Z
}.

(** [Server4DScanResult extends ServerScanResult]. *)
Record Server4DScanResult := {
  base : ServerScanResult;
  discoveryInfo : option Server4DDiscoveryInfo;
  relatedPorts : option (list Z)
}.

Record SubnetInfo := {
  localIp : string;
  netmask : string;
  networkAddress : string;
  broadcastAddress : string;
  firstHost : string;
  lastHost : string;
  totalHosts : Z
}.

(** An entry of [os.networkInterfaces()]. *)
Record NetworkInterfaceInfo := {
  address : string;
  if_netmask : string;
  family : string;
  internal : bool
}.

(** How a TCP connection attempt ends. *)
Inductive tcp_event :=
  | Connected (elapsed : Z)
  | TcpTimeout
  | TcpError.

(** The first thing that happens to the discovery socket: a datagram
    arrives ([msgStr] is its payload read as UTF-8 text,
    [msg.toString("utf8")]), the timer fires, the socket reports an
    error, or the send fails. *)
Inductive socket_event :=
  | Message (msgStr : string)
  | TimerFired
  | SocketError
  | SendError.

(** The world outside the scanner.  A socket's fate is a function of the
    call that opened it: the sockets are numbered in the order in which
    [checkPort] (resp. [discover4DServer]) is called, and the remaining
    arguments are the ones of the call.  [arrival_order b] lists, for the
    batch number [b] of a discovery scan, the tasks of that batch in the
    order in which their pending network events complete. *)
Record Platform := {
  JSON_parse : string -> completion (option Server4DDiscoveryInfo);
  networkInterfaces : list (string * option (list NetworkInterfaceInfo));
  tcp_socket : nat -> string -> Z -> Z -> tcp_event;
  udp_socket : nat -> Buffer -> string -> Z -> Z -> socket_event;
  arrival_order : nat -> list nat
}.

(** What a scan did and how it ended. *)
Record Run (R : Type) := {
  outcome : completion (list R);
  udp_calls : list (string * Z);
  tcp_calls : list (string * Z);
  reports : list (Z * Z * list R)
}.
Arguments outcome {R} _.
Arguments udp_calls {R} _.
Arguments tcp_calls {R} _.
Arguments reports {R} _.

Definition checkPort (env : Platform) (n : nat)
    (host : string) (port : Z) (timeout : Z) : ServerScanResult :=
  match tcp_socket env n host port timeout with
  | Connected responseTime =>
      {| host := host; port := port; isOpen := true;
         responseTime := Some responseTime |}
  | TcpTimeout =>
      {| host := host; port := port; isOpen := false; responseTime := None |}
  | TcpError =>
      {| host := host; port := port; isOpen := false; responseTime := None |}
  end.

(** [Promise.all] over [checkPort] calls made one after the other, the
    first of them being call number [n]. *)
Definition checkPorts (env : Platform) (n : nat) (timeout : Z)
    (targets : list (string * Z)) : list ServerScanResult :=
  imap (fun k target => checkPort env (n + k) target.1 target.2 timeout) targets.

Definition open_only (results : list ServerScanResult) : list ServerScanResult :=
  filter (fun r => isOpen r = true) results.

Definition scanHostPorts (env : Platform) (n : nat)
    (host : string) (ports : list Z) (timeout : Z) : list ServerScanResult :=
  open_only (checkPorts env n timeout ((fun port => (host, port)) <$> ports)).

(** [s.split(".").map(Number)] *)
Definition parts_of (s : string) : option (list Z) :=
  mapM Number (split_dot s).

(** [parts.join(".")] on an array of numbers. *)
Definition print_parts (parts : list Z) : string :=
  join_dot (toString <$> parts).

Definition calculateSubnet (ip netmask : string) : option SubnetInfo :=
  ipParts ← parts_of ip;
  maskParts ← parts_of netmask;
  let networkParts :=
    imap (fun i part => bitand part (maskParts !! i)) ipParts in
  let networkAddress := print_parts networkParts in
  let invertedMask := (fun part => 255 - part) <$> maskParts in
  let broadcastParts :=
    imap (fun i part => bitor part (invertedMask !! i)) networkParts in
  let broadcastAddress := print_parts broadcastParts in
  firstHostParts ← add_at 3 1 networkParts;
  let firstHost := print_parts firstHostParts in
  lastHostParts ← add_at 3 (-1) broadcastParts;
  let lastHost := print_parts lastHostParts in
  let totalHosts :=
    foldl (fun acc val => acc * (val + 1)) 1 invertedMask - 2 in
  Some {| localIp := ip;
          netmask := netmask;
          networkAddress := networkAddress;
          broadcastAddress := broadcastAddress;
          firstHost := firstHost;
          lastHost := lastHost;
          totalHosts := totalHosts |}.

Definition usable (addr : NetworkInterfaceInfo) : bool :=
  String.eqb (family addr) "IPv4" && negb (internal addr).

(** The answer is [Some None] for JavaScript's [null], and [None] when
    the address or the netmask of the interface found is outside the
    fragment [calculateSubnet] is modelled on. *)
Fixpoint getLocalNetworkInfo_in
    (interfaces : list (string * option (list NetworkInterfaceInfo)))
  : option (option SubnetInfo) :=
  match interfaces with
  | [] => Some None
  | (name, None) :: rest => getLocalNetworkInfo_in rest
  | (name, Some addresses) :: rest =>
      match List.find usable addresses with
      | Some addr =>
          subnet ← calculateSubnet (address addr) (if_netmask addr);
          Some (Some subnet)
      | None => getLocalNetworkInfo_in rest
      end
  end.

Definition getLocalNetworkInfo (env : Platform) : option (option SubnetInfo) :=
  getLocalNetworkInfo_in (networkInterfaces env).

(** The template literal [`${p[0]}.${p[1]}.${p[2]}.${i}`]. *)
Definition ip_literal (p : list Z) (i : Z) : string :=
  show (p !! 0%nat) +:+ "." +:+ show (p !! 1%nat) +:+ "."
    +:+ show (p !! 2%nat) +:+ "." +:+ toString i.

(** [for (let i = lo; i <= hi; i++)]: the values [i] takes. *)
Definition for_range (lo hi : Z) : list Z := seqZ lo (hi - lo + 1).

Definition generateSubnetIPs (subnetInfo : SubnetInfo) : option (list string) :=
  startParts ← parts_of (firstHost subnetInfo);
  endParts ← parts_of (lastHost subnetInfo);
  if decide (startParts !! 0%nat = endParts !! 0%nat
             ∧ startParts !! 1%nat = endParts !! 1%nat
             ∧ startParts !! 2%nat = endParts !! 2%nat)
  then
    match startParts !! 3%nat, endParts !! 3%nat with
    | Some lo, Some hi => Some (ip_literal startParts <$> for_range lo hi)
    | _, _ => Some []
    end
  else
    localParts ← parts_of (localIp subnetInfo);
    Some (ip_literal localParts <$> for_range 1 254).

Definition no_network : string :=
  "Could not determine local network information".

(** [batch.flatMap(ip => ports.map(port => ...))]: the calls of a batch
    in the order they are made. *)
Definition targets_of (batch : list string) (ports : list Z)
  : list (string * Z) :=
  ip ← batch; (fun port => (ip, port)) <$> ports.

(** *** scanSubnet *)

Record TcpState := {
  calls : list (string * Z);
  progress : list (Z * Z * list ServerScanResult);
  allResults : list ServerScanResult
}.

(** One round of the batch loop: the probes of the batch are all made,
    all awaited, their open results appended, and then the progress
    callback, when there is one, is called with the accumulated array
    as it stands at that moment. *)
Definition scanSubnet_batch (env : Platform) (ports : list Z) (timeout : Z)
    (batchSize : Z) (onProgress : bool) (ips : list string)
    (i : Z) (st : TcpState) : TcpState :=
  let batch := slice ips i (i + batchSize) in
  let batchPromises := targets_of batch ports in
  let batchResults := checkPorts env (length (calls st)) timeout batchPromises in
  let openPorts := open_only batchResults in
  let allResults := allResults st ++ openPorts in
  {| calls := calls st ++ batchPromises;
     progress :=
       progress st ++
       (if onProgress
        then [(Z.min (i + batchSize) (Z.of_nat (length ips)),
               Z.of_nat (length ips), allResults)]
        else []);
     allResults := allResults |}.

(** [for (let i = 0; i < ips.length; i += batchSize)], run for at most
    [fuel] rounds; [None] when the rounds run out before the loop ends. *)
Fixpoint scanSubnet_loop (env : Platform) (ports : list Z) (timeout : Z)
    (batchSize : Z) (onProgress : bool) (ips : list string)
    (fuel : nat) (i : Z) (st : TcpState) : option TcpState :=
  if i <? Z.of_nat (length ips) then
    match fuel with
    | O => None
    | S fuel' =>
        scanSubnet_loop env ports timeout batchSize onProgress ips fuel'
          (i + batchSize)
          (scanSubnet_batch env ports timeout batchSize onProgress ips i st)
    end
  else Some st.

Definition scanSubnet (env : Platform) (ports : list Z) (timeout : Z)
    (batchSize : Z) (onProgress : bool) : option (Run ServerScanResult) :=
  subnetInfo ← getLocalNetworkInfo env;
  match subnetInfo with
  | None =>
      Some {| outcome := Throw no_network;
              udp_calls := []; tcp_calls := []; reports := [] |}
  | Some subnetInfo =>
      ips ← generateSubnetIPs subnetInfo;
      st ← scanSubnet_loop env ports timeout batchSize onProgress ips
             (length ips) 0
             {| calls := []; progress := []; allResults := [] |};
      Some {| outcome := Normal (allResults st);
              udp_calls := []; tcp_calls := calls st;
              reports := progress st |}
  end.

(** *** scanHosts *)

Definition scanHosts_step (env : Platform) (ports : list Z) (timeout : Z)
    (onProgress : bool) (hosts : list string)
    (st : TcpState) (i : nat) (host : string) : TcpState :=
  let results := scanHostPorts env (length (calls st)) host ports timeout in
  let allResults := allResults st ++ results in
  {| calls := calls st ++ ((fun port => (host, port)) <$> ports);
     progress :=
       progress st ++
       (if onProgress
        then [(Z.of_nat i + 1, Z.of_nat (length hosts), allResults)]
        else []);
     allResults := allResults |}.

Fixpoint scanHosts_loop (env : Platform) (ports : list Z) (timeout : Z)
    (onProgress : bool) (hosts : list string)
    (i : nat) (todo : list string) (st : TcpState) : TcpState :=
  match todo with
  | [] => st
  | host :: todo' =>
      scanHosts_loop env ports timeout onProgress hosts (S i) todo'
        (scanHosts_step env ports timeout onProgress hosts st i host)
  end.

Definition scanHosts (env : Platform) (hosts : list string) (ports : list Z)
    (timeout : Z) (onProgress : bool) : Run ServerScanResult :=
  let st := scanHosts_loop env ports timeout onProgress hosts 0 hosts
              {| calls := []; progress := []; allResults := [] |} in
  {| outcome := Normal (allResults st);
     udp_calls := []; tcp_calls := calls st; reports := progress st |}.

(** [getDefault4DPorts(startPort, endPort)] *)
Definition getDefault4DPorts (startPort endPort : Z) : list Z :=
  for_range startPort endPort.

(** *** The discovery datagram and its reply *)

Definition build4DDiscoveryPacket : Buffer :=
  let packet := Buffer_alloc 96 Byte.x00 in
  let packet := Buffer_write packet "4D Server V" 32 in
  let packet := Buffer_write packet "4DQuicNegociation" 64 in
  packet.

(** The body of the [try] block of the ["message"] handler, on the
    decoded text of the datagram. *)
Definition message_try (env : Platform) (msgStr : string)
  : completion (option Server4DDiscoveryInfo) :=
  let jsonStart := indexOf msgStr "{" in
  let jsonEnd := lastIndexOf msgStr "}" in
  if (jsonStart =? -1) || (jsonEnd =? -1) then Normal None
  else
    let jsonStr := substring msgStr jsonStart (jsonEnd + 1) in
    match JSON_parse env jsonStr with
    | Normal info => Normal info
    | Throw e => Throw e
    end.

(** The ["message"] handler: what the promise is resolved with, or the
    exception that escapes the handler. *)
Definition on_message (env : Platform) (msgStr : string)
  : completion (option Server4DDiscoveryInfo) :=
  match message_try env msgStr with
  | Normal info => Normal info
  | Throw _ => Normal None
  end.

(** The settlement of the promise [discover4DServer] returns, for the
    socket opened by call number [n]. *)
Definition discover4DServer_settle (env : Platform) (n : nat)
    (host : string) (port : Z) (timeout : Z)
  : completion (option Server4DDiscoveryInfo) :=
  let packet := build4DDiscoveryPacket in
  match udp_socket env n packet host port timeout with
  | Message msgStr => on_message env msgStr
  | TimerFired => Normal None
  | SocketError => Normal None
  | SendError => Normal None
  end.

(** The value the [then] callback of [discover4DServer] receives (no
    handler rejects the promise; [Runtime.discover4DServer] has the
    rejection by [socket.send]). *)
Definition discover4DServer (env : Platform) (n : nat)
    (host : string) (port : Z) (timeout : Z) : option Server4DDiscoveryInfo :=
  match discover4DServer_settle env n host port timeout with
  | Normal info => info
  | Throw _ => None
  end.

(** *** scanSubnetUDP *)

(** The key [`${ip}:${info.port}`] of the map of found servers. *)
Definition server_key (ip : string) (port : Z) : string :=
  ip +:+ ":" +:+ toString port.

(** The ports [info.port + offset], [offset] from -2 to 2, that pass
    the test [relatedPort > 0 && relatedPort <= 65535]. *)
Definition related_candidates (port : Z) : list Z :=
  filter (fun relatedPort => 0 < relatedPort ∧ relatedPort <= 65535)
         ((fun offset => port + offset) <$> for_range (-2) 2).

(** Where the callback attached to one discovery promise stands: the
    reply has not come yet; the callback is suspended at
    [await Promise.all(tcpChecks)]; the callback has returned. *)
Inductive phase :=
  | AwaitingReply
  | AwaitingTcp (info : Server4DDiscoveryInfo) (tcpResults : list ServerScanResult)
  | Settled.

Record task := {
  task_ip : string;
  task_port : Z;
  task_reply : option Server4DDiscoveryInfo;
  task_phase : phase
}.

Record UdpState := {
  foundServers : list (string * Server4DScanResult);
  completedChecks : Z;
  discoveries : list (string * Z);
  probes : list (string * Z);
  notified : list (Z * Z * list Server4DScanResult)
}.

Definition with_phase (t : task) (p : phase) : task :=
  {| task_ip := task_ip t; task_port := task_port t;
     task_reply := task_reply t; task_phase := p |}.

(** The callback from its start to its first suspension: it counts the
    check and, for a server whose key is not in the map, starts the TCP
    checks of the related ports. *)
Definition on_reply (env : Platform) (timeout : Z) (t : task) (st : UdpState)
  : task * UdpState :=
  let completedChecks := completedChecks st + 1 in
  match task_reply t with
  | Some info =>
      let key := server_key (task_ip t) (info_port info) in
      if Map_has key (foundServers st) then
        (with_phase t Settled,
         {| foundServers := foundServers st; completedChecks := completedChecks;
            discoveries := discoveries st; probes := probes st;
            notified := notified st |})
      else
        let tcpChecks :=
          (fun relatedPort => (task_ip t, relatedPort))
            <$> related_candidates (info_port info) in
        let tcpResults := checkPorts env (length (probes st)) timeout tcpChecks in
        (with_phase t (AwaitingTcp info tcpResults),
         {| foundServers := foundServers st; completedChecks := completedChecks;
            discoveries := discoveries st; probes := probes st ++ tcpChecks;
            notified := notified st |})
  | None =>
      (with_phase t Settled,
       {| foundServers := foundServers st; completedChecks := completedChecks;
          discoveries := discoveries st; probes := probes st;
          notified := notified st |})
  end.

(** The rest of the callback, once the TCP checks have all resolved. *)
Definition on_tcp_done (t : task) (info : Server4DDiscoveryInfo)
    (tcpResults : list ServerScanResult) (st : UdpState) : task * UdpState :=
  let key := server_key (task_ip t) (info_port info) in
  let relatedPorts := port <$> open_only tcpResults in
  let serverResult :=
    {| base := {| host := task_ip t; port := info_port info;
                  isOpen := true; responseTime := None |};
       discoveryInfo := Some info;
       relatedPorts := Some (sort relatedPorts) |} in
  (with_phase t Settled,
   {| foundServers := Map_set key serverResult (foundServers st);
      completedChecks := completedChecks st;
      discoveries := discoveries st; probes := probes st;
      notified := notified st |}).

(** The event a task waits for completes: its callback runs up to its
    next suspension.  A settled task waits for nothing. *)
Definition fires (env : Platform) (timeout : Z) (t : task) (st : UdpState)
  : task * UdpState :=
  match task_phase t with
  | AwaitingReply => on_reply env timeout t st
  | AwaitingTcp info tcpResults => on_tcp_done t info tcpResults st
  | Settled => (t, st)
  end.

(** The next event of the batch is the one of task number [k]. *)
Definition advance (env : Platform) (timeout : Z) (k : nat)
    (cfg : list task * UdpState) : list task * UdpState :=
  match cfg.1 !! k with
  | Some t =>
      let (t', st') := fires env timeout t cfg.2 in
      (<[k:=t']> cfg.1, st')
  | None => cfg
  end.

Definition run_events (env : Platform) (timeout : Z) (order : list nat)
    (cfg : list task * UdpState) : list task * UdpState :=
  foldl (fun cfg k => advance env timeout k cfg) cfg order.

(** The discovery calls of a batch, made one after the other; the first
    of them is call number [n]. *)
Definition start_tasks (env : Platform) (n : nat) (timeout : Z)
    (targets : list (string * Z)) : list task :=
  imap (fun k target =>
          {| task_ip := target.1; task_port := target.2;
             task_reply := discover4DServer env (n + k) target.1 target.2 timeout;
             task_phase := AwaitingReply |}) targets.

(** One round of the batch loop.  The events of the batch complete in
    the order [arrival_order env b]; the events still pending after it
    complete task by task, which brings every callback to its end, as
    [await Promise.all(batchPromises)] requires before going on. *)
Definition scanSubnetUDP_batch (env : Platform) (ports : list Z) (timeout : Z)
    (batchSize : Z) (onProgress : bool) (ips : list string)
    (b : nat) (ipIdx : Z) (st : UdpState) : UdpState :=
  let totalUDPChecks := Z.of_nat (length ips) * Z.of_nat (length ports) in
  let ipBatch := slice ips ipIdx (ipIdx + batchSize) in
  let targets := targets_of ipBatch ports in
  let tasks := start_tasks env (length (discoveries st)) timeout targets in
  let st :=
    {| foundServers := foundServers st; completedChecks := completedChecks st;
       discoveries := discoveries st ++ targets; probes := probes st;
       notified := notified st |} in
  let rest := seq 0 (length tasks) ++ seq 0 (length tasks) in
  let (_, st) := run_events env timeout (arrival_order env b ++ rest) (tasks, st) in
  {| foundServers := foundServers st; completedChecks := completedChecks st;
     discoveries := discoveries st; probes := probes st;
     notified :=
       notified st ++
       (if onProgress
        then [(Z.min (completedChecks st) totalUDPChecks, totalUDPChecks,
               Map_values (foundServers st))]
        else []) |}.

Fixpoint scanSubnetUDP_loop (env : Platform) (ports : list Z) (timeout : Z)
    (batchSize : Z) (onProgress : bool) (ips : list string)
    (fuel : nat) (b : nat) (ipIdx : Z) (st : UdpState) : option UdpState :=
  if ipIdx <? Z.of_nat (length ips) then
    match fuel with
    | O => None
    | S fuel' =>
        scanSubnetUDP_loop env ports timeout batchSize onProgress ips fuel'
          (S b) (ipIdx + batchSize)
          (scanSubnetUDP_batch env ports timeout batchSize onProgress ips
             b ipIdx st)
    end
  else Some st.

Definition scanSubnetUDP (env : Platform) (ports : list Z) (timeout : Z)
    (batchSize : Z) (onProgress : bool) : option (Run Server4DScanResult) :=
  subnetInfo ← getLocalNetworkInfo env;
  match subnetInfo with
  | None =>
      Some {| outcome := Throw no_network;
              udp_calls := []; tcp_calls := []; reports := [] |}
  | Some subnetInfo =>
      ips ← generateSubnetIPs subnetInfo;
      st ← scanSubnetUDP_loop env ports timeout batchSize onProgress ips
             (length ips) 0 0
             {| foundServers := []; completedChecks := 0; discoveries := [];
                probes := []; notified := [] |};
      Some {| outcome := Normal (Map_values (foundServers st));
              udp_calls := discoveries st; tcp_calls := probes st;
              reports := notified st |}
  end.

End ServerScanner.

(** ** serverManager.ts: the scan cache *)

Module ServerManager.
Import ServerScanner.

Record Server4DWithStatus := {
  name : string;
  host : string;
  port : Z;
  isOnline : bool;
  responseTime : option Z;
  detectedPorts : option (list Z);
  discoveryInfo : option Server4DDiscoveryInfo
}.

Record ScanCache := {
  servers : list Server4DWithStatus;
  timestamp : Z;
  portsByHost : gmap string (gset Z)
}.

(** The module variable [scanCache] is threaded through the functions
    that read or write it; [now] is the value of [Date.now()]. *)
Definition getScanCache (scanCache : option ScanCache) : option ScanCache :=
  scanCache.

Definition setScanCache (now : Z) (servers : list Server4DWithStatus)
    (portsByHost : gmap string (gset Z)) (scanCache : option ScanCache)
  : option ScanCache :=
  Some {| servers := servers; timestamp := now; portsByHost := portsByHost |}.

Definition clearScanCache (scanCache : option ScanCache) : option ScanCache :=
  None.

Definition isScanCacheStale (now : Z) (cacheTimeoutSeconds : Z)
    (scanCache : option ScanCache) : bool :=
  match scanCache with
  | None => true
  | Some cache =>
      let ageMs := now - timestamp cache in
      ageMs >? cacheTimeoutSeconds * 1000
  end.

Definition getScanCacheAge (now : Z) (scanCache : option ScanCache) : string :=
  match scanCache with
  | None => ""
  | Some cache =>
      let ageMs := now - timestamp cache in
      let ageSeconds := ageMs / 1000 in
      if ageSeconds <? 60 then JS.toString ageSeconds +:+ "s ago"
      else
        let ageMinutes := ageSeconds / 60 in
        JS.toString ageMinutes +:+ "m ago"
  end.

End ServerManager.

(** ** Platforms used to instantiate the theorems *)

Module Fixtures.
Import JS ServerScanner.

Definition reply_info : Server4DDiscoveryInfo :=
  {| info_host := "srv"; info_service := "4D Server V";
     info_database := "Invoices"; info_port := 19813 |}.

(** A machine without network on which nothing answers. *)
Definition offline : Platform :=
  {| JSON_parse := fun _ => Throw "SyntaxError";
     networkInterfaces :=
       [("lo0", Some [ {| address := "127.0.0.1"; if_netmask := "255.0.0.0";
                          family := "IPv4"; internal := true |} ])];
     tcp_socket := fun _ _ _ _ => TcpTimeout;
     udp_socket := fun _ _ _ _ _ => TimerFired;
     arrival_order := fun _ => [] |}.

(** The same platform with other interfaces. *)
Definition with_interfaces
    (interfaces : list (string * option (list NetworkInterfaceInfo)))
    (env : Platform) : Platform :=
  {| JSON_parse := JSON_parse env;
     networkInterfaces := interfaces;
     tcp_socket := tcp_socket env;
     udp_socket := udp_socket env;
     arrival_order := arrival_order env |}.

(** Every datagram sent is answered by the same text. *)
Definition answering (msgStr : string) : Platform :=
  {| JSON_parse := fun _ => Throw "SyntaxError";
     networkInterfaces := [];
     tcp_socket := fun _ _ _ _ => TcpTimeout;
     udp_socket := fun _ _ _ _ _ => Message msgStr;
     arrival_order := fun _ => [] |}.

Definition en0 (address netmask : string)
  : string * option (list NetworkInterfaceInfo) :=
  ("en0", Some [ {| address := address; if_netmask := netmask;
                    family := "IPv4"; internal := false |} ]).

(** A network of 25 hosts, 192.168.1.33 to 192.168.1.57, two of which
    accept TCP connections. *)
Definition lan25 : Platform :=
  {| JSON_parse := fun _ => Throw "SyntaxError";
     networkInterfaces := [en0 "192.168.1.50" "255.255.255.229"];
     tcp_socket := fun _ host _ _ =>
       if String.eqb host "192.168.1.40" || String.eqb host "192.168.1.57"
       then Connected 3 else TcpTimeout;
     udp_socket := fun _ _ _ _ _ => TimerFired;
     arrival_order := fun _ => [] |}.

Definition quoted (s : string) : string :=
  String "034" s +:+ String "034" "".

(** The JSON text of [reply_info]. *)
Definition reply_json : string :=
  "{" +:+ quoted "host" +:+ ":" +:+ quoted "srv" +:+ ","
  +:+ quoted "service" +:+ ":" +:+ quoted "4D Server V" +:+ ","
  +:+ quoted "database" +:+ ":" +:+ quoted "Invoices" +:+ ","
  +:+ quoted "port" +:+ ":19813}".

(** A network of 6 hosts, 192.168.1.49 to 192.168.1.54.  The host
    192.168.1.52 runs a 4D Server: it answers every discovery datagram,
    whatever the port, and accepts TCP connections on 19813 and 19814.
    In the first batch, events complete in the order [order]. *)
Definition lan6 (order : list nat) : Platform :=
  {| JSON_parse := fun s =>
       if String.eqb s reply_json then Normal (Some reply_info)
       else Throw "SyntaxError";
     networkInterfaces := [en0 "192.168.1.50" "255.255.255.248"];
     tcp_socket := fun _ host port _ =>
       if String.eqb host "192.168.1.52" && ((port =? 19813) || (port =? 19814))
       then Connected 2 else TcpTimeout;
     udp_socket := fun _ _ host _ _ =>
       if String.eqb host "192.168.1.52"
       then Message ("4D" +:+ reply_json +:+ "!") else TimerFired;
     arrival_order := fun b => match b with O => order | S _ => [] end |}.

End Fixtures.

(** ** Vocabulary of the statements *)

Module Vocabulary.
Import JS ServerScanner.

(** The open results of the TCP checks of all [ports] on all [hosts],
    the checks being made host by host from call number 0. *)
Definition results_of (env : Platform) (ports : list Z) (timeout : Z)
    (hosts : list string) : list ServerScanResult :=
  open_only (checkPorts env 0 timeout (targets_of hosts ports)).

(** The number of batches of size [batchSize] in [len] hosts. *)
Definition batch_count (len : nat) (batchSize : Z) : nat :=
  Z.to_nat ((Z.of_nat len + batchSize - 1) / batchSize).

(** A dotted quad. *)
Definition dotted (a b c d : Z) : string := print_parts [a; b; c; d].

Definition octet (n : Z) : Prop := 0 <= n <= 255.

(** The number of addresses of the subnet of a netmask. *)
Definition capacity (m0 m1 m2 m3 : Z) : Z :=
  (256 - m0) * (256 - m1) * (256 - m2) * (256 - m3).

Fixpoint has_dot (s : string) : bool :=
  match s with
  | EmptyString => false
  | String c rest => Ascii.eqb c "." || has_dot rest
  end.

(** [n] prints without a dot and reads back as itself. *)
Definition prints_well (n : Z) : bool :=
  negb (has_dot (toString n))
  && bool_decide (Number (toString n) = Some n).

(** On two octets [&] and [|] are [Z.land] and [Z.lor], and give
    octets. *)
Definition bitwise_well (a m : Z) : bool :=
  bool_decide (bitand a (Some m) = Z.land a m)
  && bool_decide (bitor a (Some m) = Z.lor a m)
  && bool_decide (0 <= Z.land a m <= 255)
  && bool_decide (0 <= Z.lor a m <= 255).

(** The related ports recorded for a server discovered on port [p]:
    in ascending order, within 2 of [p], and valid port numbers. *)
Definition related_ok (p : Z) (relatedPorts : list Z) : Prop :=
  StronglySorted Z.le relatedPorts
  ∧ Forall (fun q => p - 2 <= q <= p + 2 ∧ 1 <= q <= 65535) relatedPorts.

(** Some discovery call to [ip], on one of the [ports], was answered
    by [info]. *)
Definition replied (env : Platform) (ports : list Z) (timeout : Z)
    (ip : string) (info : Server4DDiscoveryInfo) : Prop :=
  ∃ n port, port ∈ ports ∧ discover4DServer env n ip port timeout = Some info.

(** An entry of the map of found servers is well formed. *)
Definition entry_ok (env : Platform) (ports : list Z) (timeout : Z)
    (entry : string * Server4DScanResult) : Prop :=
  ∃ info relatedPorts,
    entry.1 = server_key (host (base entry.2)) (port (base entry.2))
    ∧ isOpen (base entry.2) = true
    ∧ discoveryInfo entry.2 = Some info
    ∧ port (base entry.2) = info_port info
    ∧ ServerScanner.relatedPorts entry.2 = Some relatedPorts
    ∧ related_ok (info_port info) relatedPorts
    ∧ replied env ports timeout (host (base entry.2)) info.

(** The invariant of the discovery scan. *)
Definition udp_inv (env : Platform) (ports : list Z) (timeout : Z)
    (st : UdpState) : Prop :=
  NoDup (foundServers st).*1
  ∧ Forall (entry_ok env ports timeout) (foundServers st)
  ∧ Forall (fun probe => 1 <= probe.2 <= 65535) (probes st).

(** A task is consistent with the map [found]. *)
Definition task_ok (env : Platform) (ports : list Z) (timeout : Z)
    (found : list (string * Server4DScanResult)) (t : task) : Prop :=
  (∀ info, task_reply t = Some info →
           replied env ports timeout (task_ip t) info)
  ∧ match task_phase t with
    | AwaitingReply => True
    | AwaitingTcp info tcpResults =>
        task_reply t = Some info
        ∧ port <$> tcpResults = related_candidates (info_port info)
    | Settled =>
        ∀ info, task_reply t = Some info →
                Map_has (server_key (task_ip t) (info_port info)) found = true
    end.

(** The invariant of a batch in progress. *)
Definition cfg_inv (env : Platform) (ports : list Z) (timeout : Z)
    (cfg : list task * UdpState) : Prop :=
  udp_inv env ports timeout cfg.2
  ∧ Forall (task_ok env ports timeout (foundServers cfg.2)) cfg.1.

(** Every key of [found] is a key of [found']. *)
Definition keys_kept (found found' : list (string * Server4DScanResult))
  : Prop :=
  ∀ key, Map_has key found = true → Map_has key found' = true.

(** The number of events a task still waits for, at most. *)
Definition rank (t : task) : nat :=
  match task_phase t with
  | AwaitingReply => 2
  | AwaitingTcp _ _ => 1
  | Settled => 0
  end.

(** [t'] is a later stage of the task [t]. *)
Definition evolves (t t' : task) : Prop :=
  task_ip t' = task_ip t ∧ task_reply t' = task_reply t
  ∧ (rank t' <= rank t)%nat.

Fixpoint has_colon (s : string) : bool :=
  match s with
  | EmptyString => false
  | String c rest => Ascii.eqb c ":" || has_colon rest
  end.

End Vocabulary.

(** ** More JavaScript primitives: strings *)

Module JSText.

(** [s.startsWith(p)] and [s.endsWith(p)]. *)
Fixpoint startsWith (s p : string) {struct p} : bool :=
  match p, s with
  | EmptyString, _ => true
  | String a p', String b s' => Ascii.eqb a b && startsWith s' p'
  | String _ _, EmptyString => false
  end.

Definition endsWith (s p : string) : bool :=
  let n := String.length s in
  let k := String.length p in
  (k <=? n)%nat && String.eqb (String.substring (n - k) k s) p.

(** [s.replace(/\./g, "-")]. *)
Fixpoint replace_dots (s : string) : string :=
  match s with
  | EmptyString => EmptyString
  | String c rest =>
      String (if Ascii.eqb c "." then "-"%char else c) (replace_dots rest)
  end.

(** [parts.join(sep)] on an array of strings. *)
Fixpoint join (sep : string) (parts : list string) : string :=
  match parts with
  | [] => EmptyString
  | [p] => p
  | p :: rest => p +:+ sep +:+ join sep rest
  end.

(** A string between double quotes. *)
Definition in_quotes (s : string) : string :=
  String "034" s +:+ String "034" EmptyString.

(** The character class [\d]. *)
Definition is_digit (c : ascii) : bool :=
  let n := N_of_ascii c in ((48 <=? n) && (n <=? 57))%N.

(** [\d+] at the head of [s]: what follows the longest run of digits,
    which has to be non-empty. *)
Fixpoint skip_digits (s : string) : string :=
  match s with
  | EmptyString => EmptyString
  | String c rest => if is_digit c then skip_digits rest else s
  end.

Definition digits1 (s : string) : option string :=
  match s with
  | EmptyString => None
  | String c rest => if is_digit c then Some (skip_digits rest) else None
  end.

(** A literal character at the head of [s]. *)
Definition literal (c : ascii) (s : string) : option string :=
  match s with
  | EmptyString => None
  | String a rest => if Ascii.eqb a c then Some rest else None
  end.

(** [$]: the end of the string. *)
Definition at_end (s : string) : bool :=
  match s with
  | EmptyString => true
  | String _ _ => false
  end.

End JSText.

(** ** serverManager.ts: the saved servers *)

Module SavedServers.
Import JS.

Record Server4D := {
  name : string;
  host : string;
  port : Z
}.

Inductive ConfigurationTarget := Global | Workspace | WorkspaceFolder.

(** The settings of the editor are a state [Config]: [get] is
    [config.get("servers", [])] on a fresh [getConfiguration], and
    [update] is [config.update("servers", value, target)], which may
    reject. *)
Section Configuration.
Context {Config : Type}.
Variable get : Config → list Server4D.
Variable update :
  list Server4D → ConfigurationTarget → Config → completion Config.

Definition getSavedServers (config : Config) : list Server4D := get config.

Definition saveServers (servers : list Server4D)
    (target : ConfigurationTarget) (config : Config) : completion Config :=
  update servers target config.

(** [s.host === host && s.port === port]. *)
Definition same_server (host0 : string) (port0 : Z) (s : Server4D) : bool :=
  String.eqb (host s) host0 && (port s =? port0).

Definition addServer (server : Server4D) (target : ConfigurationTarget)
    (config : Config) : completion Config :=
  let servers := getSavedServers config in
  let exists_ := existsb (same_server (host server) (port server)) servers in
  if exists_ then
    Throw ("Server " +:+ host server +:+ ":" +:+ toString (port server)
           +:+ " already exists")
  else
    let servers := servers ++ [server] in
    saveServers servers target config.

Definition removeServer (host0 : string) (port0 : Z) (config : Config)
  : completion Config :=
  let servers := getSavedServers config in
  let filtered :=
    List.filter (fun s => negb (same_server host0 port0 s)) servers in
  if (length filtered =? length servers)%nat then
    Throw ("Server " +:+ host0 +:+ ":" +:+ toString port0 +:+ " not found")
  else saveServers filtered Global config.

End Configuration.

End SavedServers.

(** ** serverManager.ts: link files and server names *)

Module ServerLinks.
Import JS JSText ServerScanner SavedServers.

(** The file system and the clock, as the two functions see them.  The
    calls made for the file at position [i] of the cleanup loop carry
    that position, since the answers may change while the loop runs.
    Modification times are taken in whole milliseconds. *)
Record FileSystem := {
  tmpdir : string;
  path_join : string → string → string;
  writeFile : string → string → completion unit;
  readdir : string → completion (list string);
  stat_mtimeMs : nat → string → completion Z;
  Date_now : nat → Z
}.

(** What a call did: how it ended, the calls it made to [fs.writeFile]
    (path and content) and the paths it passed to [fs.unlink]. *)
Record LinkRun (A : Type) := {
  link_outcome : completion A;
  written : list (string * string);
  unlinked : list string
}.
Arguments link_outcome {A}.
Arguments written {A}.
Arguments unlinked {A}.

Definition linkFileName (server : Server4D) : string :=
  "4d-helper-" +:+ replace_dots (host server) +:+ "-"
  +:+ toString (port server) +:+ ".4dlink".

Definition link_xml (server : Server4D) : string :=
  "<?xml version=" +:+ in_quotes "1.0" +:+ " encoding=" +:+ in_quotes "UTF-8"
  +:+ "?>" +:+ String "010"
  ("<database_shortcut is_remote=" +:+ in_quotes "true"
   +:+ " server_database_name=" +:+ in_quotes "RemoteDatabase"
   +:+ " server_path="
   +:+ in_quotes (host server +:+ ":" +:+ toString (port server)) +:+ "/>").

Definition generate4DLink (fs : FileSystem) (server : Server4D)
  : LinkRun string :=
  let tempDir := tmpdir fs in
  let linkPath := path_join fs tempDir (linkFileName server) in
  let xml := link_xml server in
  {| link_outcome :=
       match writeFile fs linkPath xml with
       | Normal _ => Normal linkPath
       | Throw e => Throw e
       end;
     written := [(linkPath, xml)];
     unlinked := [] |}.

Definition isLinkFile (f : string) : bool :=
  startsWith f "4d-helper-" && endsWith f ".4dlink".

(** One turn of the loop of [cleanupOld4DLinks]: the paths it passes to
    [fs.unlink].  An error of [stat] is swallowed, and so is one of
    [unlink], whose outcome nothing reads. *)
Definition cleanup_file (fs : FileSystem) (i : nat) (file : string)
  : list string :=
  let filePath := path_join fs (tmpdir fs) file in
  match stat_mtimeMs fs i filePath with
  | Normal mtimeMs =>
      let ageMs := Date_now fs i - mtimeMs in
      if ageMs >? 60 * 60 * 1000 then [filePath] else []
  | Throw _ => []
  end.

Definition cleanupOld4DLinks (fs : FileSystem) : LinkRun unit :=
  let tempDir := tmpdir fs in
  match readdir fs tempDir with
  | Normal files =>
      let linkFiles := List.filter isLinkFile files in
      {| link_outcome := Normal tt;
         written := [];
         unlinked := mjoin (imap (cleanup_file fs) linkFiles) |}
  | Throw _ => {| link_outcome := Normal tt; written := []; unlinked := [] |}
  end.

(** [host.match(/^(\d+)\.(\d+)\.(\d+)\.(\d+)$/)], as a test: the four
    runs of digits and the dots between them are read from left to
    right; a run of digits stops at the first character that is not a
    digit, so no other way of matching exists. *)
Definition ipMatch (host0 : string) : bool :=
  let digits_dot (s : string) : option string :=
    rest ← digits1 s; literal "." rest in
  match
    rest ← digits_dot host0; rest ← digits_dot rest; rest ← digits_dot rest;
    digits1 rest
  with
  | Some rest => at_end rest
  | None => false
  end.

Definition generateServerName (host0 : string) (port0 : Z)
    (discoveryInfo : option Server4DDiscoveryInfo) : string :=
  match discoveryInfo with
  | Some info => info_database info +:+ " (" +:+ info_host info +:+ ")"
  | None =>
      if ipMatch host0 then
        "Server @ " +:+ host0 +:+ ":" +:+ toString port0
      else host0 +:+ ":" +:+ toString port0
  end.

End ServerLinks.

(** ** Vocabulary of the statements about serverManager.ts *)

Module ManagerVocabulary.
Import JS JSText SavedServers.

(** What identifies a saved server: its host and its port. *)
Definition endpoint (s : Server4D) : string * Z := (host s, port s).

(** Settings in which the list written last is the list read next. *)
Definition plain_get (config : list Server4D) : list Server4D := config.

Definition plain_update (servers : list Server4D)
    (target : ConfigurationTarget) (config : list Server4D)
  : completion (list Server4D) :=
  Normal servers.

Definition office : Server4D :=
  {| name := "Office"; host := "10.0.0.5"; port := 19813 |}.

Definition front_desk : Server4D :=
  {| name := "Front desk"; host := "10.0.0.5"; port := 19813 |}.

Definition lab : Server4D :=
  {| name := "Lab"; host := "10.0.0.6"; port := 19813 |}.

(** The characters of a dotted quad. *)
Fixpoint ip_chars (s : string) : bool :=
  match s with
  | EmptyString => true
  | String c rest => (is_digit c || Ascii.eqb c ".") && ip_chars rest
  end.

End ManagerVocabulary.

(** ** launcher.ts *)

Module Launcher.
Import JS JSText.

Inductive OpeningMode := interpreted | compiled.

Definition mode_text (mode : OpeningMode) : string :=
  match mode with
  | interpreted => "interpreted"
  | compiled => "compiled"
  end.

Record LaunchOptions := {
  openingMode : option OpeningMode;
  dataFile : option string;
  createData : option bool;
  dataless : option bool;
  headless : option bool;
  skipOnStartup : option bool;
  userParam : option string;
  startupMethod : option string
}.

(** What an [if] makes of an optional string (the empty string counts
    as absent), of an optional boolean and of an optional mode. *)
Definition given (s : option string) : bool :=
  match s with
  | Some (String _ _) => true
  | _ => false
  end.

Definition enabled (b : option bool) : bool := default false b.

Definition chosen (mode : option OpeningMode) : bool :=
  match mode with
  | Some _ => true
  | None => false
  end.

(** An optional string inside a template literal. *)
Definition template (s : option string) : string := default "undefined" s.

Definition hasCliOptions (options : LaunchOptions) : bool :=
  chosen (openingMode options)
  || given (dataFile options)
  || enabled (createData options)
  || enabled (dataless options)
  || enabled (headless options)
  || enabled (skipOnStartup options)
  || given (userParam options)
  || given (startupMethod options).

(** [if (cond) { args.push(arg); }]. *)
Definition push_if (cond : bool) (arg : string) (args : list string)
  : list string :=
  if cond then args ++ [arg] else args.

Definition buildCliArgsString (options : LaunchOptions) : string :=
  let args := [] in
  let args :=
    push_if (chosen (openingMode options))
      ("--opening-mode " +:+ template (mode_text <$> openingMode options))
      args in
  let args :=
    push_if (given (dataFile options))
      ("--data " +:+ in_quotes (template (dataFile options))) args in
  let args := push_if (enabled (createData options)) "--create-data" args in
  let args := push_if (enabled (dataless options)) "--dataless" args in
  let args := push_if (enabled (headless options)) "--headless" args in
  let args := push_if (enabled (skipOnStartup options)) "--skip-onstartup" args in
  let args :=
    push_if (given (userParam options))
      ("--user-param " +:+ in_quotes (template (userParam options))) args in
  let args :=
    push_if (given (startupMethod options))
      ("--startup-method " +:+ in_quotes (template (startupMethod options)))
      args in
  join " " args.

(** The machine: whether [fs.promises.access] resolves at the [n]-th
    call of [fileExists], the platform, and what [exec] reports for a
    command ([Some] of the message of its error, or [None]).  The lines
    written to the log are left out: nothing reads them back. *)
Record Machine := {
  access : nat → string → bool;
  process_platform : string;
  exec : string → option string
}.

(** How a launch ended and the commands it passed to [exec]. *)
Record Launch := {
  launch_outcome : completion unit;
  commands : list string
}.

Definition fileExists (machine : Machine) (n : nat) (filePath : string)
  : bool :=
  access machine n filePath.

Definition run_command (machine : Machine) (command : string) : Launch :=
  {| launch_outcome :=
       match exec machine command with
       | Some message => Throw ("Failed to launch 4D: " +:+ message)
       | None => Normal tt
       end;
     commands := [command] |}.

Definition openOnMac (machine : Machine) (appPath projectPath : string)
    (options : LaunchOptions) : Launch :=
  let command :=
    if hasCliOptions options then
      let cliArgs := buildCliArgsString options in
      "open -a " +:+ in_quotes appPath +:+ " --args --project "
      +:+ in_quotes projectPath +:+ " " +:+ cliArgs
    else "open -a " +:+ in_quotes appPath +:+ " " +:+ in_quotes projectPath in
  run_command machine command.

Definition openOnWindows (machine : Machine) (appPath projectPath : string)
    (options : LaunchOptions) : Launch :=
  let cliArgs := buildCliArgsString options in
  let command :=
    in_quotes appPath +:+ " --project " +:+ in_quotes projectPath +:+ " "
    +:+ cliArgs in
  run_command machine command.

Definition rejected (message : string) : Launch :=
  {| launch_outcome := Throw message; commands := [] |}.

Definition open4DProject (machine : Machine) (appPath projectPath : string)
    (options : LaunchOptions) : Launch :=
  let appExists := fileExists machine 0 appPath in
  if negb appExists then rejected ("4D application not found: " +:+ appPath)
  else
    let projectExists := fileExists machine 1 projectPath in
    if negb projectExists then
      rejected ("Project file not found: " +:+ projectPath)
    else if given (dataFile options)
            && negb (fileExists machine 2 (template (dataFile options)))
    then rejected ("Data file not found: " +:+ template (dataFile options))
    else
      let platform := process_platform machine in
      if String.eqb platform "darwin" then
        openOnMac machine appPath projectPath options
      else if String.eqb platform "win32" then
        openOnWindows machine appPath projectPath options
      else rejected ("Unsupported platform: " +:+ platform).

(** [summarizeLaunchOptions] of extension.ts. *)
Definition summarizeLaunchOptions (options : LaunchOptions) : string :=
  let parts := [] in
  let parts :=
    push_if (chosen (openingMode options))
      (template (mode_text <$> openingMode options)) parts in
  let parts := push_if (enabled (skipOnStartup options)) "skip startup" parts in
  let parts := push_if (enabled (headless options)) "headless" parts in
  let parts :=
    if enabled (dataless options) then parts ++ ["dataless"]
    else if enabled (createData options) then parts ++ ["new data"]
    else if given (dataFile options) then parts ++ ["custom data"]
    else parts in
  if (length parts =? 0)%nat then ""
  else " (" +:+ join ", " parts +:+ ")".

End Launcher.

(** ** projectFinder.ts *)

Module ProjectFinder.
Import JS JSText.

(** A directory entry as [readdir] with [withFileTypes] gives it,
    together with what reading it would give in turn when it is a
    directory ([None] when [readdir] fails on it).  An entry that is
    neither a file nor a directory (a symbolic link, a socket) is
    [Other]. *)
#[warnings="-register-all"]
Inductive Dirent :=
  | File (name : string)
  | Directory (name : string) (content : option (list Dirent))
  | Other (name : string).

Record FourDProjectFile := {
  path : string;
  name : string;
  parentFolder : string;
  relativePath : string
}.

(** An ASCII letter in lower case; [/i] makes no other character equal
    to a letter of the pattern. *)
Definition lower (c : ascii) : ascii :=
  let n := N_of_ascii c in
  if ((65 <=? n) && (n <=? 90))%N then ascii_of_N (n + 32) else c.

(** A literal of the pattern at the head of [s], letters compared
    without their case. *)
Fixpoint literal_i (pattern s : string) {struct pattern} : option string :=
  match pattern, s with
  | EmptyString, _ => Some s
  | String a pattern', String b s' =>
      if Ascii.eqb (lower a) (lower b) then literal_i pattern' s' else None
  | String _ _, EmptyString => None
  end.

(** [COMPONENTS_FOLDER_PATTERN.test(segment)] for the pattern
    [/^components([\._]src)?$/i]. *)
Definition COMPONENTS_FOLDER_PATTERN (segment : string) : bool :=
  match literal_i "components" segment with
  | None => false
  | Some rest =>
      at_end rest
      || match rest with
         | String c rest' =>
             (Ascii.eqb c "." || Ascii.eqb c "_")
             && match literal_i "src" rest' with
                | Some rest'' => at_end rest''
                | None => false
                end
         | EmptyString => false
         end
  end.

Definition isInsideComponentsFolder (pathSegments : list string) : bool :=
  existsb COMPONENTS_FOLDER_PATTERN pathSegments.

(** [s.replace(pattern, "")] for a string [pattern]: the first
    occurrence is removed. *)
Fixpoint remove_first (pattern s : string) : string :=
  if startsWith s pattern then
    String.substring (String.length pattern)
      (String.length s - String.length pattern) s
  else match s with
       | EmptyString => EmptyString
       | String c rest => String c (remove_first pattern rest)
       end.

(** The functions of [path] the finder calls. *)
Record Path := {
  path_join : string → string → string;
  path_relative : string → string → string;
  path_basename : string → string;
  path_dirname : string → string
}.

Section Finder.
Variable lib : Path.

Definition project_file (basePath currentPath entry_name : string)
  : FourDProjectFile :=
  let fullPath := path_join lib currentPath entry_name in
  let relativePath := path_relative lib basePath fullPath in
  {| path := fullPath;
     name := remove_first ".4DProject" entry_name;
     parentFolder := path_basename lib currentPath;
     relativePath := relativePath |}.

(** The first loop over the entries of a directory. *)
Definition collect_files (basePath currentPath : string)
    (results : list FourDProjectFile) (entries : list Dirent)
  : list FourDProjectFile :=
  foldl (fun results entry =>
           match entry with
           | File entry_name =>
               if endsWith entry_name ".4DProject" then
                 results ++ [project_file basePath currentPath entry_name]
               else results
           | _ => results
           end) results entries.

(** [current] is what lies at [currentPath]; the results are threaded
    through the calls as the array they are pushed to. *)
Fixpoint searchForAllProjectFiles (basePath currentPath : string)
    (currentDepth maxDepth : Z) (results : list FourDProjectFile)
    (pathSegments : list string) (current : Dirent) {struct current}
  : list FourDProjectFile :=
  if currentDepth >? maxDepth then results
  else if isInsideComponentsFolder pathSegments then results
  else
    match current with
    | Directory _ (Some entries) =>
        let results := collect_files basePath currentPath results entries in
        foldl (fun results entry =>
                 match entry with
                 | Directory entry_name _ =>
                     if negb (startsWith entry_name ".") then
                       searchForAllProjectFiles basePath
                         (path_join lib currentPath entry_name)
                         (currentDepth + 1) maxDepth results
                         (pathSegments ++ [entry_name]) entry
                     else results
                 | _ => results
                 end) results entries
    | _ => results
    end.

Definition findAll4DProjectFiles (workspacePath : string) (maxDepth : Z)
    (workspace : Dirent) : list FourDProjectFile :=
  let projects := [] in
  searchForAllProjectFiles workspacePath workspacePath 0 maxDepth projects []
    workspace.

(** What [find4DProjectFile] resolves to: [null], a path or the list of
    the candidates. *)
Inductive Found :=
  | NoProject
  | OneProject (project_path : string)
  | Candidates (projects : list FourDProjectFile).

Definition find4DProjectFile (workspacePath : string) (workspace : Dirent)
  : Found :=
  let allProjects := findAll4DProjectFiles workspacePath 5 workspace in
  match allProjects with
  | [] => NoProject
  | [project] => OneProject (path project)
  | _ =>
      let rootProject :=
        List.find (fun p =>
                     let relativeDir := path_dirname lib (relativePath p) in
                     String.eqb relativeDir "Project"
                     || String.eqb relativeDir ".") allProjects in
      match rootProject with
      | Some project => OneProject (path project)
      | None => Candidates allProjects
      end
  end.

End Finder.

End ProjectFinder.

(** ** Vocabulary of the statements about projectFinder.ts *)

Module FinderVocabulary.
Import JS JSText ProjectFinder.

(** [reaches root segments dir]: following the names [segments] down
    from the directory [root] leads to [dir]. *)
Inductive reaches : Dirent → list string → Dirent → Prop :=
  | reaches_here dir : reaches dir [] dir
  | reaches_below root_name entries sub content segments dir :
      Directory sub content ∈ entries →
      reaches (Directory sub content) segments dir →
      reaches (Directory root_name (Some entries)) (sub :: segments) dir.

Definition hidden (segment : string) : bool := startsWith segment ".".

(** The project file [entry_name] lies in a readable directory
    [segments] below [current], itself at depth [depth] and below the
    folders [above]: at most [maxDepth] deep, under no hidden folder
    and under no Components folder. *)
Definition found_from (maxDepth : Z) (current : Dirent) (depth : Z)
    (above segments : list string) (entry_name : string) : Prop :=
  ∃ dir_name entries,
    reaches current segments (Directory dir_name (Some entries))
    ∧ File entry_name ∈ entries
    ∧ endsWith entry_name ".4DProject" = true
    ∧ depth + Z.of_nat (length segments) <= maxDepth
    ∧ Forall (fun segment => hidden segment = false) segments
    ∧ Forall (fun segment => COMPONENTS_FOLDER_PATTERN segment = false)
        (above ++ segments).

(** A string in lower case. *)
Fixpoint lowercase (s : string) : string :=
  match s with
  | EmptyString => EmptyString
  | String c rest => String (lower c) (lowercase rest)
  end.

(** The test [find4DProjectFile] makes on a candidate. *)
Definition at_root (lib : Path) (p : FourDProjectFile) : bool :=
  let relativeDir := path_dirname lib (relativePath p) in
  String.eqb relativeDir "Project" || String.eqb relativeDir ".".

End FinderVocabulary.

(** ** Vocabulary of the further statements *)

Module MoreVocabulary.
Import JS ServerScanner Vocabulary.

(** The addresses of all the interfaces, in the order
    [getLocalNetworkInfo] visits them. *)
Definition all_addresses
    (interfaces : list (string * option (list NetworkInterfaceInfo)))
  : list NetworkInterfaceInfo :=
  entry ← interfaces; default [] entry.2.

(** On octets: masking with 255 changes nothing; the broadcast octet is
    the network octet plus the inverted mask; the network octet is at
    most the address octet and at most the mask octet; the address octet
    is at most the broadcast octet. *)
Definition octet_bits_well (a m : Z) : bool :=
  bool_decide (Z.land a 255 = a)
  && bool_decide (Z.lor (Z.land a m) (255 - m) = Z.land a m + (255 - m))
  && bool_decide (Z.land a m <= a)
  && bool_decide (Z.land a m <= m)
  && bool_decide (a <= Z.land a m + (255 - m)).

Fixpoint contains_char (c : ascii) (s : string) : bool :=
  match s with
  | EmptyString => false
  | String a rest => Ascii.eqb a c || contains_char c rest
  end.

End MoreVocabulary.

(** ** serverScanner.ts as it runs on Node *)

(** The scans once more, with two things [ServerScanner] leaves out.
    The sockets check their arguments: [socket.setTimeout] refuses a
    negative delay, [socket.connect] a port outside 0..65535 and
    [socket.send] a port outside 1..65535, each by throwing inside the
    executor of the promise, which rejects it.  And a reply is what
    [JSON.parse] returns, cast to [Server4DDiscoveryInfo] without a
    check: its [port] may be a string, and then [info.port + offset]
    concatenates.  The ports given to the scans are numbers, as before.

    Values other than integers and strings, and strings [ToNumber] is
    not modelled on, are outside the fragment: the scan answers [None]
    once it would compute with one. *)

Module Runtime.
Import JS JSText ServerScanner.

(** A value found where a port is expected. *)
Inductive JSValue :=
  | JNumber (n : Z)
  | JString (s : string)
  | JOther.

Record Server4DDiscoveryInfo := {
  info_host : string;
  info_service : string;
  info_database : string;
  info_port : JSValue
}.

Record ServerScanResult := {
  host : string;
  port : JSValue;
  isOpen : bool;
  responseTime : option Z
}.

Record Server4DScanResult := {
  base : ServerScanResult;
  discoveryInfo : option Server4DDiscoveryInfo;
  relatedPorts : option (list JSValue)
}.

(** The world outside the scanner, as in [ServerScanner.Platform]; a
    socket is asked for its fate only once its arguments are accepted,
    and [tcp_socket] is given the number the port reads as. *)
Record Platform := {
  JSON_parse : string -> completion (option Server4DDiscoveryInfo);
  networkInterfaces : list (string * option (list NetworkInterfaceInfo));
  tcp_socket : nat -> string -> Z -> Z -> tcp_event;
  udp_socket : nat -> Buffer -> string -> Z -> Z -> socket_event;
  arrival_order : nat -> list nat
}.

(** What a scan did and how it ended.  The calls are those the code of
    the scan makes, those of callbacks that run after the scan was
    rejected included. *)
Record Run (R : Type) := {
  outcome : completion (list R);
  udp_calls : list (string * Z);
  tcp_calls : list (string * JSValue);
  reports : list (Z * Z * list R)
}.
Arguments outcome {R} _.
Arguments udp_calls {R} _.
Arguments tcp_calls {R} _.
Arguments reports {R} _.

(** The errors of Node, named by their code. *)
Definition ERR_OUT_OF_RANGE : string := "ERR_OUT_OF_RANGE".
Definition ERR_SOCKET_BAD_PORT : string := "ERR_SOCKET_BAD_PORT".

(** *** Values in arithmetic and in text *)

Fixpoint dash_after_digits (s : string) : bool :=
  match s with
  | EmptyString => false
  | String c rest =>
      if is_digit c then dash_after_digits rest else Ascii.eqb c "-"
  end.

(** One or more digits and then a dash: no numeric literal starts so. *)
Definition digits_then_dash (s : string) : bool :=
  match s with
  | EmptyString => false
  | String c rest => is_digit c && dash_after_digits rest
  end.

(** [ToNumber]: [Some (Some n)] for an integer, [Some None] for [NaN]. *)
Definition to_number (v : JSValue) : option (option Z) :=
  match v with
  | JNumber n => Some (Some n)
  | JString s =>
      match Number s with
      | Some n => Some (Some n)
      | None => if digits_then_dash s then Some None else None
      end
  | JOther => None
  end.

(** A value inside a template literal. *)
Definition to_text (v : JSValue) : option string :=
  match v with
  | JNumber n => Some (toString n)
  | JString s => Some s
  | JOther => None
  end.

(** [v + offset] for a number [offset]: the sum when [v] is a number,
    the concatenation when it is a string. *)
Definition plus (v : JSValue) (offset : Z) : option JSValue :=
  match v with
  | JNumber n => Some (JNumber (n + offset))
  | JString s => Some (JString (s +:+ toString offset))
  | JOther => None
  end.

(** [relatedPort > 0 && relatedPort <= 65535] on what [relatedPort]
    converts to; every comparison with [NaN] is false. *)
Definition in_port_range (n : option Z) : bool :=
  match n with
  | Some z => (0 <? z) && (z <=? 65535)
  | None => false
  end.

(** *** checkPort *)

(** [socket.connect(port, host)]: the port it connects to, or the error
    it throws.  A string that reads as a negative number or as no
    number is taken for the path of a pipe, which is outside the
    fragment; the empty string reads as 0 and is refused as a port. *)
Definition connect_port (port : JSValue) : option (completion Z) :=
  match port with
  | JNumber p =>
      Some (if (0 <=? p) && (p <=? 65535) then Normal p
            else Throw ERR_SOCKET_BAD_PORT)
  | JString s =>
      match Number s with
      | Some p =>
          if p <? 0 then None
          else if String.eqb s "" || (65535 <? p)
               then Some (Throw ERR_SOCKET_BAD_PORT)
               else Some (Normal p)
      | None => None
      end
  | JOther => None
  end.

(** The settlement of the promise [checkPort] returns, for the socket
    opened by call number [n]: [socket.setTimeout(timeout)] throws for a
    negative delay, then the handlers are attached, then
    [socket.connect] checks the port. *)
Definition checkPort (env : Platform) (n : nat)
    (host : string) (port : JSValue) (timeout : Z)
  : option (completion ServerScanResult) :=
  if timeout <? 0 then Some (Throw ERR_OUT_OF_RANGE)
  else
    accepted ← connect_port port;
    Some match accepted with
         | Throw e => Throw e
         | Normal p =>
             Normal
               match tcp_socket env n host p timeout with
               | Connected responseTime =>
                   {| host := host; port := port; isOpen := true;
                      responseTime := Some responseTime |}
               | TcpTimeout =>
                   {| host := host; port := port; isOpen := false;
                      responseTime := None |}
               | TcpError =>
                   {| host := host; port := port; isOpen := false;
                      responseTime := None |}
               end
         end.

(** [Promise.all] over promises that are rejected, if at all, as soon
    as they are made: it rejects with the first rejection in the order
    of the array, and otherwise resolves with all the values. *)
Fixpoint Promise_all {A} (promises : list (completion A))
  : completion (list A) :=
  match promises with
  | [] => Normal []
  | Throw e :: _ => Throw e
  | Normal a :: rest =>
      match Promise_all rest with
      | Normal values => Normal (a :: values)
      | Throw e => Throw e
      end
  end.

(** [Promise.all] over [checkPort] calls made one after the other, the
    first of them being call number [n]. *)
Definition checkPorts (env : Platform) (n : nat) (timeout : Z)
    (targets : list (string * JSValue))
  : option (completion (list ServerScanResult)) :=
  promises ←
    mapM id (imap (fun k target =>
                     checkPort env (n + k) target.1 target.2 timeout) targets);
  Some (Promise_all promises).

Definition open_only (results : list ServerScanResult) : list ServerScanResult :=
  filter (fun r => isOpen r = true) results.

(** The calls [checkPort(host, port, timeout)] for the numbers [ports]. *)
Definition on_host (host : string) (ports : list Z)
  : list (string * JSValue) :=
  (fun port => (host, JNumber port)) <$> ports.

Definition scanHostPorts (env : Platform) (n : nat)
    (host : string) (ports : list Z) (timeout : Z)
  : option (completion (list ServerScanResult)) :=
  results ← checkPorts env n timeout (on_host host ports);
  Some match results with
       | Normal results => Normal (open_only results)
       | Throw e => Throw e
       end.

Definition getLocalNetworkInfo (env : Platform) : option (option SubnetInfo) :=
  getLocalNetworkInfo_in (networkInterfaces env).

(** [batch.flatMap(ip => ports.map(port => ...))]: the calls of a batch
    in the order they are made. *)
Definition probes_of (batch : list string) (ports : list Z)
  : list (string * JSValue) :=
  ip ← batch; on_host ip ports.

(** *** scanSubnet and scanHosts *)

(** [thrown] is the error the scan ended with, if it did. *)
Record TcpState := {
  calls : list (string * JSValue);
  progress : list (Z * Z * list ServerScanResult);
  allResults : list ServerScanResult;
  thrown : option string
}.

(** One round of the batch loop: the probes of the batch are all made;
    when [await Promise.all(batchPromises)] throws the scan ends there;
    otherwise the open results are appended and the progress callback,
    when there is one, is called. *)
Definition scanSubnet_batch (env : Platform) (ports : list Z) (timeout : Z)
    (batchSize : Z) (onProgress : bool) (ips : list string)
    (i : Z) (st : TcpState) : option TcpState :=
  let batch := slice ips i (i + batchSize) in
  let batchPromises := probes_of batch ports in
  settled ← checkPorts env (length (calls st)) timeout batchPromises;
  Some match settled with
       | Throw e =>
           {| calls := calls st ++ batchPromises;
              progress := progress st;
              allResults := allResults st;
              thrown := Some e |}
       | Normal batchResults =>
           let openPorts := open_only batchResults in
           let allResults := allResults st ++ openPorts in
           {| calls := calls st ++ batchPromises;
              progress :=
                progress st ++
                (if onProgress
                 then [(Z.min (i + batchSize) (Z.of_nat (length ips)),
                        Z.of_nat (length ips), allResults)]
                 else []);
              allResults := allResults;
              thrown := None |}
       end.

(** [for (let i = 0; i < ips.length; i += batchSize)], run for at most
    [fuel] rounds; [None] when the rounds run out before the loop ends. *)
Fixpoint scanSubnet_loop (env : Platform) (ports : list Z) (timeout : Z)
    (batchSize : Z) (onProgress : bool) (ips : list string)
    (fuel : nat) (i : Z) (st : TcpState) : option TcpState :=
  match thrown st with
  | Some _ => Some st
  | None =>
      if i <? Z.of_nat (length ips) then
        match fuel with
        | O => None
        | S fuel' =>
            st' ← scanSubnet_batch env ports timeout batchSize onProgress
                    ips i st;
            scanSubnet_loop env ports timeout batchSize onProgress ips fuel'
              (i + batchSize) st'
        end
      else Some st
  end.

Definition tcp_run (st : TcpState) : Run ServerScanResult :=
  {| outcome :=
       match thrown st with
       | Some e => Throw e
       | None => Normal (allResults st)
       end;
     udp_calls := []; tcp_calls := calls st; reports := progress st |}.

Definition scanSubnet (env : Platform) (ports : list Z) (timeout : Z)
    (batchSize : Z) (onProgress : bool) : option (Run ServerScanResult) :=
  subnetInfo ← getLocalNetworkInfo env;
  match subnetInfo with
  | None =>
      Some {| outcome := Throw no_network;
              udp_calls := []; tcp_calls := []; reports := [] |}
  | Some subnetInfo =>
      ips ← generateSubnetIPs subnetInfo;
      st ← scanSubnet_loop env ports timeout batchSize onProgress ips
             (length ips) 0
             {| calls := []; progress := []; allResults := [];
                thrown := None |};
      Some (tcp_run st)
  end.

Definition scanHosts_step (env : Platform) (ports : list Z) (timeout : Z)
    (onProgress : bool) (hosts : list string)
    (st : TcpState) (i : nat) (host : string) : option TcpState :=
  settled ← scanHostPorts env (length (calls st)) host ports timeout;
  Some match settled with
       | Throw e =>
           {| calls := calls st ++ on_host host ports;
              progress := progress st;
              allResults := allResults st;
              thrown := Some e |}
       | Normal results =>
           let allResults := allResults st ++ results in
           {| calls := calls st ++ on_host host ports;
              progress :=
                progress st ++
                (if onProgress
                 then [(Z.of_nat i + 1, Z.of_nat (length hosts), allResults)]
                 else []);
              allResults := allResults;
              thrown := None |}
       end.

Fixpoint scanHosts_loop (env : Platform) (ports : list Z) (timeout : Z)
    (onProgress : bool) (hosts : list string)
    (i : nat) (todo : list string) (st : TcpState) : option TcpState :=
  match thrown st, todo with
  | Some _, _ => Some st
  | None, [] => Some st
  | None, host :: todo' =>
      st' ← scanHosts_step env ports timeout onProgress hosts st i host;
      scanHosts_loop env ports timeout onProgress hosts (S i) todo' st'
  end.

Definition scanHosts (env : Platform) (hosts : list string) (ports : list Z)
    (timeout : Z) (onProgress : bool) : option (Run ServerScanResult) :=
  st ← scanHosts_loop env ports timeout onProgress hosts 0 hosts
         {| calls := []; progress := []; allResults := []; thrown := None |};
  Some (tcp_run st).

(** *** discover4DServer *)

Definition message_try (env : Platform) (msgStr : string)
  : completion (option Server4DDiscoveryInfo) :=
  let jsonStart := indexOf msgStr "{" in
  let jsonEnd := lastIndexOf msgStr "}" in
  if (jsonStart =? -1) || (jsonEnd =? -1) then Normal None
  else
    let jsonStr := substring msgStr jsonStart (jsonEnd + 1) in
    match JSON_parse env jsonStr with
    | Normal info => Normal info
    | Throw e => Throw e
    end.

Definition on_message (env : Platform) (msgStr : string)
  : completion (option Server4DDiscoveryInfo) :=
  match message_try env msgStr with
  | Normal info => Normal info
  | Throw _ => Normal None
  end.

(** The settlement of the promise [discover4DServer] returns, for the
    socket opened by call number [n].  The timer is set (the global
    [setTimeout] takes any delay) and the handlers are attached; then
    [socket.send(packet, port, host, ...)] checks the port, and throws
    for one outside 1..65535. *)
Definition discover4DServer (env : Platform) (n : nat)
    (host : string) (port : Z) (timeout : Z)
  : completion (option Server4DDiscoveryInfo) :=
  let packet := build4DDiscoveryPacket in
  if (port <? 1) || (65535 <? port) then Throw ERR_SOCKET_BAD_PORT
  else
    match udp_socket env n packet host port timeout with
    | Message msgStr => on_message env msgStr
    | TimerFired => Normal None
    | SocketError => Normal None
    | SendError => Normal None
    end.

(** *** scanSubnetUDP *)

(** The ports [info.port + offset], [offset] from -2 to 2, that pass
    the test [relatedPort > 0 && relatedPort <= 65535]. *)
Definition related_candidates (port : JSValue) : option (list JSValue) :=
  chosen ←
    mapM (fun offset =>
            relatedPort ← plus port offset;
            n ← to_number relatedPort;
            Some (if in_port_range n then [relatedPort] else []))
         (for_range (-2) 2);
  Some (mjoin chosen).

Definition key_le (a b : Z * JSValue) : Prop := a.1 <= b.1.

#[global] Instance key_le_dec a b : Decision (key_le a b) :=
  decide (a.1 <= b.1).

(** [relatedPorts.sort((a, b) => a - b)] on values that all convert to
    numbers: the values in ascending order of those numbers.  The ports
    the scan sorts read as different numbers. *)
Definition sort_ports (relatedPorts : list JSValue) : option (list JSValue) :=
  keyed ←
    mapM (fun v => n ← to_number v; z ← n; Some (z, v)) relatedPorts;
  Some (merge_sort key_le keyed).*2.

Inductive phase :=
  | AwaitingReply
  | AwaitingTcp (info : Server4DDiscoveryInfo) (tcpResults : list ServerScanResult)
  | Settled.

Record task := {
  task_ip : string;
  task_port : Z;
  task_reply : completion (option Server4DDiscoveryInfo);
  task_phase : phase
}.

(** [rejected] is the error [Promise.all(batchPromises)] rejected with,
    which ends the scan: the first rejection of one of its promises.
    The callbacks that are still pending then run all the same, and
    what they do is recorded.  [beyond] is set once a callback would
    compute outside the fragment. *)
Record UdpState := {
  foundServers : list (string * Server4DScanResult);
  completedChecks : Z;
  discoveries : list (string * Z);
  probes : list (string * JSValue);
  notified : list (Z * Z * list Server4DScanResult);
  rejected : option string;
  beyond : bool
}.

Definition with_phase (t : task) (p : phase) : task :=
  {| task_ip := task_ip t; task_port := task_port t;
     task_reply := task_reply t; task_phase := p |}.

Definition counted (st : UdpState) : UdpState :=
  {| foundServers := foundServers st;
     completedChecks := completedChecks st + 1;
     discoveries := discoveries st; probes := probes st;
     notified := notified st; rejected := rejected st; beyond := beyond st |}.

Definition probing (tcpChecks : list (string * JSValue)) (st : UdpState)
  : UdpState :=
  {| foundServers := foundServers st; completedChecks := completedChecks st;
     discoveries := discoveries st; probes := probes st ++ tcpChecks;
     notified := notified st; rejected := rejected st; beyond := beyond st |}.

Definition rejecting (e : string) (st : UdpState) : UdpState :=
  {| foundServers := foundServers st; completedChecks := completedChecks st;
     discoveries := discoveries st; probes := probes st;
     notified := notified st;
     rejected := match rejected st with
                 | Some first => Some first
                 | None => Some e
                 end;
     beyond := beyond st |}.

Definition leaving (st : UdpState) : UdpState :=
  {| foundServers := foundServers st; completedChecks := completedChecks st;
     discoveries := discoveries st; probes := probes st;
     notified := notified st; rejected := rejected st; beyond := true |}.

Definition recording (key : string) (serverResult : Server4DScanResult)
    (st : UdpState) : UdpState :=
  {| foundServers := Map_set key serverResult (foundServers st);
     completedChecks := completedChecks st;
     discoveries := discoveries st; probes := probes st;
     notified := notified st; rejected := rejected st; beyond := beyond st |}.

(** The key [`${ip}:${info.port}`] of the map of found servers. *)
Definition server_key (ip : string) (port : JSValue) : option string :=
  text ← to_text port; Some (ip +:+ ":" +:+ text).

(** The callback from its start to its first suspension: it counts the
    check and, for a server whose key is not in the map, starts the TCP
    checks of the related ports.  When one of them is rejected, so is
    [await Promise.all(tcpChecks)], and with it the promise of the
    callback.  The callback of a discovery that was rejected is never
    called. *)
Definition on_reply (env : Platform) (timeout : Z) (t : task) (st : UdpState)
  : task * UdpState :=
  match task_reply t with
  | Throw _ => (with_phase t Settled, st)
  | Normal reply =>
      let st := counted st in
      match reply with
      | None => (with_phase t Settled, st)
      | Some info =>
          match server_key (task_ip t) (info_port info) with
          | None => (with_phase t Settled, leaving st)
          | Some key =>
              if Map_has key (foundServers st) then (with_phase t Settled, st)
              else
                match related_candidates (info_port info) with
                | None => (with_phase t Settled, leaving st)
                | Some candidates =>
                    let tcpChecks :=
                      (fun relatedPort => (task_ip t, relatedPort))
                        <$> candidates in
                    match checkPorts env (length (probes st)) timeout
                            tcpChecks with
                    | None => (with_phase t Settled, leaving st)
                    | Some (Throw e) =>
                        (with_phase t Settled,
                         rejecting e (probing tcpChecks st))
                    | Some (Normal tcpResults) =>
                        (with_phase t (AwaitingTcp info tcpResults),
                         probing tcpChecks st)
                    end
                end
          end
      end
  end.

(** The rest of the callback, once the TCP checks have all resolved. *)
Definition on_tcp_done (t : task) (info : Server4DDiscoveryInfo)
    (tcpResults : list ServerScanResult) (st : UdpState) : task * UdpState :=
  let relatedPorts := port <$> open_only tcpResults in
  match server_key (task_ip t) (info_port info), sort_ports relatedPorts with
  | Some key, Some sorted =>
      let serverResult :=
        {| base := {| host := task_ip t; port := info_port info;
                      isOpen := true; responseTime := None |};
           discoveryInfo := Some info;
           relatedPorts := Some sorted |} in
      (with_phase t Settled, recording key serverResult st)
  | _, _ => (with_phase t Settled, leaving st)
  end.

(** The event a task waits for completes: its callback runs up to its
    next suspension.  A settled task waits for nothing. *)
Definition fires (env : Platform) (timeout : Z) (t : task) (st : UdpState)
  : task * UdpState :=
  match task_phase t with
  | AwaitingReply => on_reply env timeout t st
  | AwaitingTcp info tcpResults => on_tcp_done t info tcpResults st
  | Settled => (t, st)
  end.

(** The next event of the batch is the one of task number [k]. *)
Definition advance (env : Platform) (timeout : Z) (k : nat)
    (cfg : list task * UdpState) : list task * UdpState :=
  match cfg.1 !! k with
  | Some t =>
      let (t', st') := fires env timeout t cfg.2 in
      (<[k:=t']> cfg.1, st')
  | None => cfg
  end.

Definition run_events (env : Platform) (timeout : Z) (order : list nat)
    (cfg : list task * UdpState) : list task * UdpState :=
  foldl (fun cfg k => advance env timeout k cfg) cfg order.

(** The discovery calls of a batch, made one after the other; the first
    of them is call number [n]. *)
Definition start_tasks (env : Platform) (n : nat) (timeout : Z)
    (targets : list (string * Z)) : list task :=
  imap (fun k target =>
          {| task_ip := target.1; task_port := target.2;
             task_reply := discover4DServer env (n + k) target.1 target.2 timeout;
             task_phase := AwaitingReply |}) targets.

(** One round of the batch loop.  A discovery that is rejected is so
    when it is made, and [Promise.all(batchPromises)] then rejects
    before any reply arrives.  The events of the batch complete in the
    order [arrival_order env b], then task by task; no progress is
    reported by a batch in which the scan is rejected. *)
Definition scanSubnetUDP_batch (env : Platform) (ports : list Z) (timeout : Z)
    (batchSize : Z) (onProgress : bool) (ips : list string)
    (b : nat) (ipIdx : Z) (st : UdpState) : UdpState :=
  let totalUDPChecks := Z.of_nat (length ips) * Z.of_nat (length ports) in
  let ipBatch := slice ips ipIdx (ipIdx + batchSize) in
  let targets := targets_of ipBatch ports in
  let tasks := start_tasks env (length (discoveries st)) timeout targets in
  let st :=
    {| foundServers := foundServers st; completedChecks := completedChecks st;
       discoveries := discoveries st ++ targets; probes := probes st;
       notified := notified st; rejected := rejected st;
       beyond := beyond st |} in
  let st :=
    match Promise_all (task_reply <$> tasks) with
    | Throw e => rejecting e st
    | Normal _ => st
    end in
  let rest := seq 0 (length tasks) ++ seq 0 (length tasks) in
  let (_, st) :=
    run_events env timeout (arrival_order env b ++ rest) (tasks, st) in
  match rejected st with
  | Some _ => st
  | None =>
      {| foundServers := foundServers st;
         completedChecks := completedChecks st;
         discoveries := discoveries st; probes := probes st;
         notified :=
           notified st ++
           (if onProgress
            then [(Z.min (completedChecks st) totalUDPChecks,
                   totalUDPChecks, Map_values (foundServers st))]
            else []);
         rejected := None; beyond := beyond st |}
  end.

Fixpoint scanSubnetUDP_loop (env : Platform) (ports : list Z) (timeout : Z)
    (batchSize : Z) (onProgress : bool) (ips : list string)
    (fuel : nat) (b : nat) (ipIdx : Z) (st : UdpState) : option UdpState :=
  match rejected st with
  | Some _ => Some st
  | None =>
      if ipIdx <? Z.of_nat (length ips) then
        match fuel with
        | O => None
        | S fuel' =>
            scanSubnetUDP_loop env ports timeout batchSize onProgress ips
              fuel' (S b) (ipIdx + batchSize)
              (scanSubnetUDP_batch env ports timeout batchSize onProgress ips
                 b ipIdx st)
        end
      else Some st
  end.

Definition udp_run (st : UdpState) : Run Server4DScanResult :=
  {| outcome :=
       match rejected st with
       | Some e => Throw e
       | None => Normal (Map_values (foundServers st))
       end;
     udp_calls := discoveries st; tcp_calls := probes st;
     reports := notified st |}.

Definition scanSubnetUDP (env : Platform) (ports : list Z) (timeout : Z)
    (batchSize : Z) (onProgress : bool) : option (Run Server4DScanResult) :=
  subnetInfo ← getLocalNetworkInfo env;
  match subnetInfo with
  | None =>
      Some {| outcome := Throw no_network;
              udp_calls := []; tcp_calls := []; reports := [] |}
  | Some subnetInfo =>
      ips ← generateSubnetIPs subnetInfo;
      st ← scanSubnetUDP_loop env ports timeout batchSize onProgress ips
             (length ips) 0 0
             {| foundServers := []; completedChecks := 0; discoveries := [];
                probes := []; notified := []; rejected := None;
                beyond := false |};
      if beyond st then None else Some (udp_run st)
  end.

End Runtime.

(** ** Platforms for the runtime model *)

Module RuntimeFixtures.
Import JS ServerScanner Fixtures.

(** A typed reply, as [JSON.parse] returns it. *)
Definition as_reply (info : Server4DDiscoveryInfo)
  : Runtime.Server4DDiscoveryInfo :=
  {| Runtime.info_host := info_host info;
     Runtime.info_service := info_service info;
     Runtime.info_database := info_database info;
     Runtime.info_port := Runtime.JNumber (info_port info) |}.

(** A platform of [ServerScanner] as a platform of [Runtime]. *)
Definition untyped (env : Platform) : Runtime.Platform :=
  {| Runtime.JSON_parse := fun s =>
       match JSON_parse env s with
       | Normal info => Normal (as_reply <$> info)
       | Throw e => Throw e
       end;
     Runtime.networkInterfaces := networkInterfaces env;
     Runtime.tcp_socket := tcp_socket env;
     Runtime.udp_socket := udp_socket env;
     Runtime.arrival_order := arrival_order env |}.

(** A reply that announces its port as the string [portText]. *)
Definition text_reply (portText : string) : Runtime.Server4DDiscoveryInfo :=
  {| Runtime.info_host := "srv"; Runtime.info_service := "4D Server V";
     Runtime.info_database := "Invoices";
     Runtime.info_port := Runtime.JString portText |}.

Definition text_reply_json (portText : string) : string :=
  "{" +:+ quoted "host" +:+ ":" +:+ quoted "srv" +:+ ","
  +:+ quoted "service" +:+ ":" +:+ quoted "4D Server V" +:+ ","
  +:+ quoted "database" +:+ ":" +:+ quoted "Invoices" +:+ ","
  +:+ quoted "port" +:+ ":" +:+ quoted portText +:+ "}".

(** The network of [lan6], where the server on 192.168.1.52 announces
    its port as the string [portText] and accepts every TCP
    connection. *)
Definition lan6_text (portText : string) : Runtime.Platform :=
  {| Runtime.JSON_parse := fun s =>
       if String.eqb s (text_reply_json portText)
       then Normal (Some (text_reply portText))
       else Throw "SyntaxError";
     Runtime.networkInterfaces := [en0 "192.168.1.50" "255.255.255.248"];
     Runtime.tcp_socket := fun _ host _ _ =>
       if String.eqb host "192.168.1.52" then Connected 2 else TcpTimeout;
     Runtime.udp_socket := fun _ _ host _ _ =>
       if String.eqb host "192.168.1.52"
       then Message (text_reply_json portText) else TimerFired;
     Runtime.arrival_order := fun _ => [] |}.

End RuntimeFixtures.

(** ** Vocabulary of the statements about the runtime model *)

Module RuntimeVocabulary.
Import JS ServerScanner Vocabulary Runtime.

(** The ports [socket.connect] and [socket.send] accept. *)
Definition valid_port (p : Z) : Prop := 0 <= p <= 65535.

Definition valid_udp_port (p : Z) : Prop := 1 <= p <= 65535.

(** A TCP check of the port [p] with the delay [timeout] is accepted,
    or refused by [socket.setTimeout] or by [socket.connect]. *)
Definition accepted (timeout p : Z) : Prop := 0 <= timeout ∧ valid_port p.

Definition refused (timeout p : Z) : Prop := timeout < 0 ∨ ¬ valid_port p.

(** What a TCP check of the port number [p] resolves to once its
    arguments are accepted. *)
Definition probe (env : Platform) (n : nat) (host0 : string) (p : Z)
    (timeout : Z) : ServerScanResult :=
  match tcp_socket env n host0 p timeout with
  | Connected ms =>
      {| host := host0; port := JNumber p; isOpen := true;
         responseTime := Some ms |}
  | _ =>
      {| host := host0; port := JNumber p; isOpen := false;
         responseTime := None |}
  end.

(** How [checkPort] settles for the port number [p]. *)
Definition settles (env : Platform) (n : nat) (host0 : string) (p : Z)
    (timeout : Z) : completion ServerScanResult :=
  if timeout <? 0 then Throw ERR_OUT_OF_RANGE
  else if (0 <=? p) && (p <=? 65535) then Normal (probe env n host0 p timeout)
  else Throw ERR_SOCKET_BAD_PORT.

(** The calls [checkPort(host, port, timeout)] for typed targets. *)
Definition numbered (targets : list (string * Z)) : list (string * JSValue) :=
  (fun target => (target.1, JNumber target.2)) <$> targets.

Definition probe_all (env : Platform) (n : nat) (timeout : Z)
    (targets : list (string * Z)) : list ServerScanResult :=
  imap (fun k target => probe env (n + k) target.1 target.2 timeout) targets.

(** The open results of the TCP checks of all [ports] on all [hosts],
    the checks being made host by host from call number 0. *)
Definition results_of (env : Platform) (ports : list Z) (timeout : Z)
    (hosts : list string) : list ServerScanResult :=
  open_only (probe_all env 0 timeout (targets_of hosts ports)).

(** What the progress callback of [scanSubnet] is expected to receive
    after batch number [k] (from 0). *)
Definition expected_report (env : Platform) (ports : list Z) (timeout : Z)
    (batchSize : Z) (ips : list string) (k : nat)
  : Z * Z * list ServerScanResult :=
  (Z.min ((Z.of_nat k + 1) * batchSize) (Z.of_nat (length ips)),
   Z.of_nat (length ips),
   results_of env ports timeout (take ((k + 1) * Z.to_nat batchSize) ips)).

(** The state of [scanSubnet] after [k] batches without a rejection. *)
Definition state_after (env : Platform) (ports : list Z) (timeout : Z)
    (batchSize : Z) (onProgress : bool) (ips : list string) (k : nat)
  : TcpState :=
  {| calls := numbered (targets_of (take (k * Z.to_nat batchSize) ips) ports);
     progress :=
       if onProgress
       then expected_report env ports timeout batchSize ips <$> seq 0 k
       else [];
     allResults :=
       results_of env ports timeout (take (k * Z.to_nat batchSize) ips);
     thrown := None |}.

(** What the progress callback of [scanHosts] receives after host
    number [i] (from 0). *)
Definition hosts_report (env : Platform) (ports : list Z) (timeout : Z)
    (hosts : list string) (i : nat) : Z * Z * list ServerScanResult :=
  (Z.of_nat i + 1, Z.of_nat (length hosts),
   results_of env ports timeout (take (S i) hosts)).

(** The state of [scanHosts] once the hosts [scanned] are done. *)
Definition hosts_state (env : Platform) (ports : list Z) (timeout : Z)
    (onProgress : bool) (hosts scanned : list string) : TcpState :=
  {| calls := numbered (targets_of scanned ports);
     progress :=
       if onProgress
       then hosts_report env ports timeout hosts <$> seq 0 (length scanned)
       else [];
     allResults := results_of env ports timeout scanned;
     thrown := None |}.

(** *** The discovery scan *)

(** The value [v] reads as the number [z]. *)
Definition reads (v : JSValue) (z : Z) : Prop := to_number v = Some (Some z).

(** A port the model computes with: an integer, or a string on whose
    five sums [ToNumber] is modelled. *)
Definition supported (v : JSValue) : Prop := is_Some (related_candidates v).

(** Every reply [JSON.parse] yields announces a supported port. *)
Definition replies_supported (env : Platform) : Prop :=
  ∀ s info, JSON_parse env s = Normal (Some info) → supported (info_port info).

(** Some discovery call to [ip], on one of the [ports], was answered
    by [info]. *)
Definition replied (env : Platform) (ports : list Z) (timeout : Z)
    (ip : string) (info : Server4DDiscoveryInfo) : Prop :=
  ∃ n port0,
    port0 ∈ ports ∧ discover4DServer env n ip port0 timeout = Normal (Some info).

(** A TCP probe of a discovery scan is justified: its host answered a
    discovery request and its port is a related port of the answer. *)
Definition probe_ok (env : Platform) (ports : list Z) (timeout : Z)
    (probe : string * JSValue) : Prop :=
  ∃ info candidates,
    replied env ports timeout probe.1 info
    ∧ related_candidates (info_port info) = Some candidates
    ∧ probe.2 ∈ candidates.

(** Among the TCP probes [log], made in that order from call number 0,
    one to [h] on the port [v] connected. *)
Definition connected (env : Platform) (timeout : Z)
    (log : list (string * JSValue)) (h : string) (v : JSValue) : Prop :=
  ∃ n z ms,
    log !! n = Some (h, v) ∧ connect_port v = Some (Normal z)
    ∧ tcp_socket env n h z timeout = Connected ms.

(** The values read as numbers in ascending order. *)
Definition ascending (related : list JSValue) : Prop :=
  ∃ numbers, Forall2 reads related numbers ∧ StronglySorted Z.le numbers.

(** A found server is well formed: it is one of the scanned hosts that
    answered a discovery request, it is marked open and carries no
    response time, and its related ports are candidates of the port it
    announced, in ascending order, each of which answered a TCP probe
    of the scan. *)
Definition result_ok (env : Platform) (ports : list Z) (timeout : Z)
    (ips : list string) (log : list (string * JSValue))
    (r : Server4DScanResult) : Prop :=
  ∃ info candidates related,
    host (base r) ∈ ips
    ∧ isOpen (base r) = true
    ∧ responseTime (base r) = None
    ∧ discoveryInfo r = Some info
    ∧ port (base r) = info_port info
    ∧ replied env ports timeout (host (base r)) info
    ∧ related_candidates (info_port info) = Some candidates
    ∧ relatedPorts r = Some related
    ∧ related ⊆ candidates
    ∧ ascending related
    ∧ ∀ v, v ∈ related → connected env timeout log (host (base r)) v.

Definition task_ok (env : Platform) (ports : list Z) (timeout : Z)
    (ips : list string) (log : list (string * JSValue)) (t : task) : Prop :=
  task_ip t ∈ ips
  ∧ (∀ info, task_reply t = Normal (Some info) →
             replied env ports timeout (task_ip t) info)
  ∧ match task_phase t with
    | AwaitingTcp info tcpResults =>
        task_reply t = Normal (Some info)
        ∧ related_candidates (info_port info) = Some (port <$> tcpResults)
        ∧ ∀ r, r ∈ tcpResults → isOpen r = true →
               connected env timeout log (task_ip t) (port r)
    | _ => True
    end.

(** The invariant of the discovery scan.  A scan that was rejected
    either made a discovery on a port [socket.send] refuses or made a
    TCP probe. *)
Definition udp_inv (env : Platform) (ports : list Z) (timeout : Z)
    (ips : list string) (st : UdpState) : Prop :=
  Forall (probe_ok env ports timeout) (probes st)
  ∧ Forall (fun entry => result_ok env ports timeout ips (probes st) entry.2)
           (foundServers st)
  ∧ (is_Some (rejected st) →
     Exists (fun p => ¬ valid_udp_port p) ports ∨ probes st ≠ []).

(** The invariant of a batch in progress. *)
Definition cfg_inv (env : Platform) (ports : list Z) (timeout : Z)
    (ips : list string) (cfg : list task * UdpState) : Prop :=
  udp_inv env ports timeout ips cfg.2
  ∧ Forall (task_ok env ports timeout ips (probes cfg.2)) cfg.1.

(** The number of events a task still waits for, at most. *)
Definition rank (t : task) : nat :=
  match task_phase t with
  | AwaitingReply => 2
  | AwaitingTcp _ _ => 1
  | Settled => 0
  end.

(** The tasks whose callback is still to be called. *)
Definition is_awaiting (t : task) : bool :=
  match task_phase t, task_reply t with
  | AwaitingReply, Normal _ => true
  | _, _ => false
  end.

Definition awaiting (tasks : list task) : nat :=
  length (filter (fun t => is_awaiting t = true) tasks).

(** The counts the progress callback of [scanSubnetUDP] is expected to
    receive after batch number [k] (from 0). *)
Definition expected_counts (ports : list Z) (batchSize : Z)
    (ips : list string) (k : nat) : Z * Z :=
  (Z.of_nat (length ports)
   * Z.min ((Z.of_nat k + 1) * batchSize) (Z.of_nat (length ips)),
   Z.of_nat (length ips) * Z.of_nat (length ports)).

(** The state of [scanSubnetUDP] between two batches, [k] batches being
    done without a rejection. *)
Definition udp_boundary (env : Platform) (ports : list Z) (timeout : Z)
    (batchSize : Z) (onProgress : bool) (ips : list string)
    (k : nat) (st : UdpState) : Prop :=
  udp_inv env ports timeout ips st
  ∧ rejected st = None
  ∧ beyond st = false
  ∧ discoveries st = targets_of (take (k * Z.to_nat batchSize) ips) ports
  ∧ completedChecks st = Z.of_nat (length (discoveries st))
  ∧ (notified st).*1
    = (if onProgress then expected_counts ports batchSize ips <$> seq 0 k
       else []).

End RuntimeVocabulary.

(** * Properties *)

Import JS ServerScanner Fixtures Vocabulary.

(** ** The discovery packet *)

(** C1. The discovery packet is exactly 96 bytes: bytes 0-31 are zero,
    bytes 32-42 spell "4D Server V" and are followed by zeros through
    offset 63, bytes 64-80 spell "4DQuicNegociation" and are followed by
    zeros through offset 95. *)
Theorem build4DDiscoveryPacket_layout :
  length build4DDiscoveryPacket = 96%nat
  ∧ take 32 build4DDiscoveryPacket = replicate 32 Byte.x00
  ∧ take 11 (drop 32 build4DDiscoveryPacket) = list_byte_of_string "4D Server V"
  ∧ take 21 (drop 43 build4DDiscoveryPacket) = replicate 21 Byte.x00
  ∧ take 17 (drop 64 build4DDiscoveryPacket)
    = list_byte_of_string "4DQuicNegociation"
  ∧ drop 81 build4DDiscoveryPacket = replicate 15 Byte.x00.
Proof. repeat split; vm_compute; reflexivity. Qed.

(** ** The scan cache *)

Section Cache.
Import ServerManager.

(** C5. [isScanCacheStale] answers true exactly when there is no entry
    or the entry is older, in milliseconds, than 1000 times the given
    number of seconds; so an entry set at time [T] is fresh at
    [T + 119 s] and stale at [T + 121 s] for a timeout of 120 s. *)
Theorem isScanCacheStale_spec :
  (∀ now ttl scanCache,
     isScanCacheStale now ttl scanCache = true
     ↔ scanCache = None
       ∨ ∃ entry, scanCache = Some entry ∧ now - timestamp entry > ttl * 1000)
  ∧ (∀ T servers portsByHost previous,
       isScanCacheStale (T + 119 * 1000) 120
         (setScanCache T servers portsByHost previous) = false
       ∧ isScanCacheStale (T + 121 * 1000) 120
           (setScanCache T servers portsByHost previous) = true).
Proof.
  split.
  - intros now ttl [entry|]; cbn.
    + rewrite Z.gtb_ltb, Z.ltb_lt. split.
      * intros Hage. right. exists entry. split; [reflexivity | lia].
      * intros [Hnone | (entry' & Hsome & Hage)]; [discriminate |].
        injection Hsome as <-. lia.
    + split; [intros _; left; reflexivity | reflexivity].
  - intros T servers portsByHost previous. cbn.
    rewrite !Z.gtb_ltb. split; [apply Z.ltb_ge | apply Z.ltb_lt]; lia.
Qed.

End Cache.

(** ** The reply handler *)

Lemma message_try_no_brace env msgStr :
  indexOf msgStr "{" = -1 ∨ lastIndexOf msgStr "}" = -1 →
  message_try env msgStr = Normal None.
Proof.
  intros Hbrace. unfold message_try.
  destruct Hbrace as [-> | ->]; [reflexivity |].
  rewrite orb_true_r. reflexivity.
Qed.

Lemma on_message_never_throws env msgStr :
  ∃ info, on_message env msgStr = Normal info.
Proof.
  unfold on_message. destruct (message_try env msgStr); eauto.
Qed.

(** C7. Whatever text the reply carries, [discover4DServer] is resolved
    and never raises; it is resolved with [null] when the text has no
    opening or no closing brace and when [JSON.parse] throws on the text
    between the braces.  A reply "garbage{not json" gives [null]. *)
Theorem discover4DServer_malformed_reply env n host port timeout msgStr :
  udp_socket env n build4DDiscoveryPacket host port timeout = Message msgStr →
  (∃ info, discover4DServer_settle env n host port timeout = Normal info)
  ∧ (indexOf msgStr "{" = -1 ∨ lastIndexOf msgStr "}" = -1
     ∨ (∃ e, JSON_parse env
               (substring msgStr (indexOf msgStr "{") (lastIndexOf msgStr "}" + 1))
             = Throw e) →
     discover4DServer_settle env n host port timeout = Normal None
     ∧ discover4DServer env n host port timeout = None)
  ∧ (msgStr = "garbage{not json" →
     discover4DServer_settle env n host port timeout = Normal None
     ∧ discover4DServer env n host port timeout = None).
Proof.
  intros Hev.
  assert (Hsettle : discover4DServer_settle env n host port timeout
                    = on_message env msgStr).
  { unfold discover4DServer_settle. rewrite Hev. reflexivity. }
  assert (Hnull : on_message env msgStr = Normal None →
                  discover4DServer_settle env n host port timeout = Normal None
                  ∧ discover4DServer env n host port timeout = None).
  { intros Hnone. unfold discover4DServer. rewrite Hsettle, Hnone. done. }
  split; [rewrite Hsettle; apply on_message_never_throws |].
  split.
  - intros Hbad. apply Hnull. unfold on_message.
    destruct Hbad as [H | [H | [e H]]].
    + rewrite message_try_no_brace by auto. reflexivity.
    + rewrite message_try_no_brace by auto. reflexivity.
    + unfold message_try.
      destruct (_ || _); [reflexivity |]. rewrite H. reflexivity.
  - intros ->. apply Hnull. reflexivity.
Qed.

Lemma discover4DServer_malformed_reply_witness :
  discover4DServer_settle (answering "garbage{not json") 0 "192.168.1.7" 19813 1000
  = Normal None
  ∧ discover4DServer_settle (answering "{oops}") 0 "192.168.1.7" 19813 1000
    = Normal None.
Proof.
  split.
  - destruct (discover4DServer_malformed_reply
                (answering "garbage{not json") 0 "192.168.1.7" 19813 1000
                "garbage{not json" eq_refl) as (_ & _ & Hgarbage).
    apply Hgarbage. reflexivity.
  - destruct (discover4DServer_malformed_reply
                (answering "{oops}") 0 "192.168.1.7" 19813 1000
                "{oops}" eq_refl) as (_ & Hbad & _).
    apply Hbad. right. right. exists "SyntaxError". reflexivity.
Defined.

(** ** Batches of TCP checks *)

Section TcpChecks.
Context (env : Platform) (ports : list Z) (timeout : Z).

Lemma checkPorts_app n targets1 targets2 :
  checkPorts env n timeout (targets1 ++ targets2)
  = checkPorts env n timeout targets1
    ++ checkPorts env (n + length targets1) timeout targets2.
Proof.
  unfold checkPorts. rewrite imap_app. f_equal.
  apply imap_ext. intros k target _. cbn. f_equal. lia.
Qed.

Lemma checkPorts_port n targets :
  port <$> checkPorts env n timeout targets = targets.*2.
Proof.
  unfold checkPorts. revert n.
  induction targets as [|target targets IH]; intros n; [reflexivity |].
  cbn. f_equal.
  - unfold checkPort. destruct (tcp_socket _ _ _ _ _); reflexivity.
  - rewrite <- (IH (S n)). f_equal. apply imap_ext. intros k x _. cbn.
    f_equal. lia.
Qed.

Lemma checkPorts_host n targets :
  host <$> checkPorts env n timeout targets = targets.*1.
Proof.
  unfold checkPorts. revert n.
  induction targets as [|target targets IH]; intros n; [reflexivity |].
  cbn. f_equal.
  - unfold checkPort. destruct (tcp_socket _ _ _ _ _); reflexivity.
  - rewrite <- (IH (S n)). f_equal. apply imap_ext. intros k x _. cbn.
    f_equal. lia.
Qed.

Lemma targets_of_app hosts1 hosts2 :
  targets_of (hosts1 ++ hosts2) ports
  = targets_of hosts1 ports ++ targets_of hosts2 ports.
Proof. unfold targets_of. apply bind_app. Qed.

Lemma targets_of_cons h hosts :
  targets_of (h :: hosts) ports
  = ((fun port => (h, port)) <$> ports) ++ targets_of hosts ports.
Proof. reflexivity. Qed.

Lemma targets_of_host target hosts :
  target ∈ targets_of hosts ports → target.1 ∈ hosts.
Proof.
  unfold targets_of. rewrite list_elem_of_bind.
  intros (ip & Hin & Hip). apply list_elem_of_fmap in Hin as (p & -> & _).
  exact Hip.
Qed.

Lemma results_of_app hosts1 hosts2 :
  results_of env ports timeout (hosts1 ++ hosts2)
  = results_of env ports timeout hosts1
    ++ open_only (checkPorts env (length (targets_of hosts1 ports)) timeout
                    (targets_of hosts2 ports)).
Proof.
  unfold results_of, open_only.
  rewrite targets_of_app, checkPorts_app, filter_app. reflexivity.
Qed.

Lemma results_of_host r hosts :
  r ∈ results_of env ports timeout hosts → host r ∈ hosts ∧ isOpen r = true.
Proof.
  unfold results_of, open_only. rewrite list_elem_of_filter.
  intros [Hopen Hin]. split; [| exact Hopen].
  apply (list_elem_of_fmap_2 host) in Hin. rewrite checkPorts_host in Hin.
  apply list_elem_of_fmap in Hin as (target & -> & Hin).
  eapply targets_of_host, Hin.
Qed.

End TcpChecks.

(** ** Scans and the local network *)

Lemma getLocalNetworkInfo_null interfaces :
  Forall (fun entry =>
            ∀ addresses, entry.2 = Some addresses →
                         Forall (fun addr => usable addr = false) addresses)
         interfaces →
  getLocalNetworkInfo_in interfaces = Some None.
Proof.
  induction 1 as [|[name [addresses|]] interfaces Hentry _ IH]; cbn;
    [reflexivity | | exact IH].
  destruct (List.find usable addresses) as [addr|] eqn:Hfind; [| exact IH].
  apply List.find_some in Hfind as [Hin Husable].
  specialize (Hentry addresses eq_refl).
  rewrite Forall_forall in Hentry.
  apply list_elem_of_In, Hentry in Hin. congruence.
Qed.

Section ScanHosts.
Context (env : Platform) (ports : list Z) (timeout : Z) (onProgress : bool).

Lemma scanHosts_loop_spec hosts todo : ∀ i st,
  let st' := scanHosts_loop env ports timeout onProgress hosts i todo st in
  calls st' = calls st ++ targets_of todo ports
  ∧ allResults st'
    = allResults st
      ++ open_only (checkPorts env (length (calls st)) timeout
                      (targets_of todo ports)).
Proof.
  induction todo as [|h todo IH]; intros i st.
  - cbn. rewrite !app_nil_r. done.
  - cbn [scanHosts_loop]. cbv zeta.
    destruct (IH (S i)
                (scanHosts_step env ports timeout onProgress hosts st i h))
      as [-> ->].
    unfold scanHosts_step, scanHostPorts. cbn [calls allResults].
    rewrite (targets_of_cons ports h todo), checkPorts_app.
    unfold open_only. rewrite filter_app, length_app, <- !app_assoc. done.
Qed.

Lemma scanHosts_loop_interfaces interfaces hosts todo : ∀ i st,
  scanHosts_loop (with_interfaces interfaces env) ports timeout onProgress
      hosts i todo st
  = scanHosts_loop env ports timeout onProgress hosts i todo st.
Proof.
  induction todo as [|h todo IH]; intros i st; cbn; [reflexivity |].
  rewrite IH. reflexivity.
Qed.

End ScanHosts.



(** ** The batch loop of [scanSubnet] *)

Section ScanSubnet.
Context (env : Platform) (ports : list Z) (timeout : Z).
Context (batchSize : Z) (onProgress : bool) (ips : list string).
Hypothesis batchSize_pos : 1 <= batchSize.

Lemma slice_batch (n : nat) :
  (n < length ips)%nat →
  slice ips (Z.of_nat n) (Z.of_nat n + batchSize)
  = take (Z.to_nat batchSize) (drop n ips).
Proof.
  intros Hn. unfold slice.
  destruct (Z.ltb_spec (Z.of_nat n) 0) as [? | _]; [lia |].
  destruct (Z.ltb_spec (Z.of_nat n + batchSize) 0) as [? | _]; [lia |].
  rewrite (Z.min_l (Z.of_nat n)) by lia. rewrite Nat2Z.id.
  destruct (Z.le_ge_cases (Z.of_nat n + batchSize) (Z.of_nat (length ips))).
  - rewrite Z.min_l by lia. f_equal. lia.
  - rewrite Z.min_r by lia.
    rewrite !take_ge; [reflexivity | |]; rewrite length_drop; lia.
Qed.

Lemma batch_index (k : nat) :
  Z.of_nat k * batchSize = Z.of_nat (k * Z.to_nat batchSize).
Proof. rewrite Nat2Z.inj_mul, Z2Nat.id by lia. reflexivity. Qed.

Lemma batch_count_unique (k : nat) :
  Z.of_nat (length ips) <= Z.of_nat k * batchSize →
  (Z.of_nat k - 1) * batchSize < Z.of_nat (length ips) →
  batch_count (length ips) batchSize = k.
Proof.
  intros Hdone Hlast. unfold batch_count.
  assert ((Z.of_nat (length ips) + batchSize - 1) / batchSize = Z.of_nat k)
    as ->; [| apply Nat2Z.id].
  symmetry.
  apply Z.div_unique
    with (r := Z.of_nat (length ips) + batchSize - 1 - Z.of_nat k * batchSize);
    lia.
Qed.

Lemma take_all_batches :
  take (batch_count (length ips) batchSize * Z.to_nat batchSize) ips = ips.
Proof.
  apply take_ge. unfold batch_count.
  pose proof (Z.mul_div_le (Z.of_nat (length ips) + batchSize - 1) batchSize).
  pose proof (Z.mod_pos_bound (Z.of_nat (length ips) + batchSize - 1) batchSize).
  pose proof (Z.div_mod (Z.of_nat (length ips) + batchSize - 1) batchSize).
  assert (0 <= (Z.of_nat (length ips) + batchSize - 1) / batchSize)
    by (apply Z.div_pos; lia).
  nia.
Qed.

End ScanSubnet.

(** With a batch size of 0 or less and a host to scan, the loop of
    [scanSubnet] never ends: no number of rounds is enough. *)
Lemma scanSubnet_loop_diverges env ports timeout batchSize onProgress ips fuel :
  batchSize <= 0 → ips ≠ [] → ∀ i st,
  i <= 0 →
  scanSubnet_loop env ports timeout batchSize onProgress ips fuel i st = None.
Proof.
  intros Hbs Hips. induction fuel as [|fuel IH]; intros i st Hi;
    cbn [scanSubnet_loop];
    destruct (Z.ltb_spec i (Z.of_nat (length ips))) as [_ | Hge];
    try (destruct ips; [congruence | cbn in Hge; lia]).
  - reflexivity.
  - apply IH. lia.
Qed.

(** ** Dotted quads *)

Lemma octet_intro n : (0 <=? n) && (n <=? 255) = true → octet n.
Proof.
  intros Hn. apply andb_prop in Hn as [H0 H255].
  split; apply Z.leb_le; assumption.
Qed.

Lemma prints_well_small n : -1 <= n <= 256 → prints_well n = true.
Proof.
  intros Hn.
  assert (Hall : forallb prints_well (seqZ (-1) 258) = true)
    by (vm_compute; reflexivity).
  rewrite forallb_forall in Hall. apply Hall.
  apply list_elem_of_In, elem_of_seqZ. lia.
Qed.

Lemma bitwise_well_octets a m : octet a → octet m → bitwise_well a m = true.
Proof.
  intros Ha Hm.
  assert (Hall : forallb (fun a => forallb (bitwise_well a) (seqZ 0 256))
                   (seqZ 0 256) = true)
    by (vm_compute; reflexivity).
  rewrite forallb_forall in Hall.
  assert (Ha' : In a (seqZ 0 256))
    by (apply list_elem_of_In, elem_of_seqZ; unfold octet in Ha; lia).
  specialize (Hall a Ha'). rewrite forallb_forall in Hall. apply Hall.
  apply list_elem_of_In, elem_of_seqZ. unfold octet in Hm. lia.
Qed.

Lemma bitand_octets a m :
  octet a → octet m → bitand a (Some m) = Z.land a m ∧ octet (Z.land a m).
Proof.
  intros Ha Hm. pose proof (bitwise_well_octets a m Ha Hm) as H.
  unfold bitwise_well in H.
  repeat (apply andb_prop in H as [H ?]).
  repeat match goal with
         | B : bool_decide _ = true |- _ => apply bool_decide_eq_true in B
         end.
  done.
Qed.

Lemma bitor_octets a m :
  octet a → octet m → bitor a (Some m) = Z.lor a m ∧ octet (Z.lor a m).
Proof.
  intros Ha Hm. pose proof (bitwise_well_octets a m Ha Hm) as H.
  unfold bitwise_well in H.
  repeat (apply andb_prop in H as [H ?]).
  repeat match goal with
         | B : bool_decide _ = true |- _ => apply bool_decide_eq_true in B
         end.
  done.
Qed.

Lemma split_dot_whole s : has_dot s = false → split_dot s = [s].
Proof.
  induction s as [|c s IH]; cbn; [reflexivity |].
  destruct (Ascii.eqb c "."); cbn; [discriminate |].
  intros Hs. rewrite (IH Hs). reflexivity.
Qed.

Lemma split_dot_piece s t :
  has_dot s = false → split_dot (s +:+ "." +:+ t) = s :: split_dot t.
Proof.
  change ("." +:+ t) with (String "." t).
  induction s as [|c s IH]; [reflexivity |].
  change (String c s +:+ String "." t) with (String c (s +:+ String "." t)).
  cbn [has_dot split_dot].
  destruct (Ascii.eqb c "."); cbn; [discriminate |].
  intros Hs. rewrite (IH Hs). reflexivity.
Qed.

Lemma parts_of_dotted a b c d :
  -1 <= a <= 256 → -1 <= b <= 256 → -1 <= c <= 256 → -1 <= d <= 256 →
  parts_of (dotted a b c d) = Some [a; b; c; d].
Proof.
  intros Ha Hb Hc Hd.
  apply prints_well_small, andb_prop in Ha as [Ha1 Ha2].
  apply prints_well_small, andb_prop in Hb as [Hb1 Hb2].
  apply prints_well_small, andb_prop in Hc as [Hc1 Hc2].
  apply prints_well_small, andb_prop in Hd as [Hd1 Hd2].
  apply negb_true_iff in Ha1, Hb1, Hc1, Hd1.
  apply bool_decide_eq_true in Ha2, Hb2, Hc2, Hd2.
  unfold parts_of, dotted, print_parts. cbn [fmap list_fmap join_dot].
  rewrite !split_dot_piece, split_dot_whole by assumption.
  cbn [mapM]. rewrite Ha2, Hb2, Hc2, Hd2. reflexivity.
Qed.

(** [calculateSubnet] on dotted quads of octets, field by field. *)
Lemma calculateSubnet_dotted a b c d m0 m1 m2 m3 :
  octet a → octet b → octet c → octet d →
  octet m0 → octet m1 → octet m2 → octet m3 →
  let n0 := Z.land a m0 in
  let n1 := Z.land b m1 in
  let n2 := Z.land c m2 in
  let n3 := Z.land d m3 in
  let b0 := Z.lor n0 (255 - m0) in
  let b1 := Z.lor n1 (255 - m1) in
  let b2 := Z.lor n2 (255 - m2) in
  let b3 := Z.lor n3 (255 - m3) in
  calculateSubnet (dotted a b c d) (dotted m0 m1 m2 m3)
  = Some {| localIp := dotted a b c d;
            netmask := dotted m0 m1 m2 m3;
            networkAddress := dotted n0 n1 n2 n3;
            broadcastAddress := dotted b0 b1 b2 b3;
            firstHost := dotted n0 n1 n2 (n3 + 1);
            lastHost := dotted b0 b1 b2 (b3 - 1);
            totalHosts := capacity m0 m1 m2 m3 - 2 |}.
Proof.
  intros Ha Hb Hc Hd Hm0 Hm1 Hm2 Hm3. cbv zeta.
  destruct (bitand_octets a m0 Ha Hm0) as [Ea Hn0].
  destruct (bitand_octets b m1 Hb Hm1) as [Eb Hn1].
  destruct (bitand_octets c m2 Hc Hm2) as [Ec Hn2].
  destruct (bitand_octets d m3 Hd Hm3) as [Ed Hn3].
  assert (Hi : ∀ m, octet m → octet (255 - m)) by (unfold octet; lia).
  destruct (bitor_octets _ _ Hn0 (Hi _ Hm0)) as [Fa _].
  destruct (bitor_octets _ _ Hn1 (Hi _ Hm1)) as [Fb _].
  destruct (bitor_octets _ _ Hn2 (Hi _ Hm2)) as [Fc _].
  destruct (bitor_octets _ _ Hn3 (Hi _ Hm3)) as [Fd _].
  unfold calculateSubnet.
  rewrite !parts_of_dotted by (unfold octet in *; lia).
  cbn [mbind option_bind imap fmap list_fmap lookup list_lookup compose].
  rewrite Ea, Eb, Ec, Ed. cbn [imap lookup list_lookup compose].
  rewrite Fa, Fb, Fc, Fd.
  cbn [add_at lookup list_lookup alter list_alter mbind option_bind foldl].
  unfold dotted, capacity. do 2 f_equal. ring.
Qed.

(** ** Subnet arithmetic *)

(** C9. For an address and a netmask made of octets, [calculateSubnet]
    gives: the network address, the address masked octet by octet; the
    broadcast address, the network address or-ed octet by octet with
    the inverted mask; the first host, the network address with its
    last octet plus one; the last host, the broadcast address with its
    last octet minus one; and the number of hosts, the product over the
    octets of 256 minus the mask octet, minus 2.  (At 192.168.1.50 with
    mask 255.255.255.0: 192.168.1.0, 192.168.1.255, 192.168.1.1,
    192.168.1.254 and 254.) *)
Theorem calculateSubnet_arithmetic a b c d m0 m1 m2 m3 :
  octet a → octet b → octet c → octet d →
  octet m0 → octet m1 → octet m2 → octet m3 →
  ∃ info,
    calculateSubnet (dotted a b c d) (dotted m0 m1 m2 m3) = Some info
    ∧ networkAddress info
      = dotted (Z.land a m0) (Z.land b m1) (Z.land c m2) (Z.land d m3)
    ∧ broadcastAddress info
      = dotted (Z.lor (Z.land a m0) (255 - m0)) (Z.lor (Z.land b m1) (255 - m1))
               (Z.lor (Z.land c m2) (255 - m2)) (Z.lor (Z.land d m3) (255 - m3))
    ∧ firstHost info
      = dotted (Z.land a m0) (Z.land b m1) (Z.land c m2) (Z.land d m3 + 1)
    ∧ lastHost info
      = dotted (Z.lor (Z.land a m0) (255 - m0)) (Z.lor (Z.land b m1) (255 - m1))
               (Z.lor (Z.land c m2) (255 - m2))
               (Z.lor (Z.land d m3) (255 - m3) - 1)
    ∧ totalHosts info
      = (256 - m0) * (256 - m1) * (256 - m2) * (256 - m3) - 2.
Proof.
  intros Ha Hb Hc Hd Hm0 Hm1 Hm2 Hm3.
  eexists. split.
  - apply calculateSubnet_dotted; assumption.
  - cbn. repeat split; reflexivity.
Qed.

Lemma calculateSubnet_arithmetic_witness :
  ∃ info,
    calculateSubnet "192.168.1.50" "255.255.255.0" = Some info
    ∧ networkAddress info = "192.168.1.0"
    ∧ broadcastAddress info = "192.168.1.255"
    ∧ firstHost info = "192.168.1.1"
    ∧ lastHost info = "192.168.1.254"
    ∧ totalHosts info = 254.
Proof.
  exact (calculateSubnet_arithmetic 192 168 1 50 255 255 255 0
           ltac:(by apply octet_intro) ltac:(by apply octet_intro)
           ltac:(by apply octet_intro) ltac:(by apply octet_intro)
           ltac:(by apply octet_intro) ltac:(by apply octet_intro)
           ltac:(by apply octet_intro) ltac:(by apply octet_intro)).
Defined.

(** C4 as stated fails: the host count is not floored at 0.  For the
    netmask 255.255.255.255 it is -1. *)
Lemma totalHosts_not_floored :
  ∃ info,
    calculateSubnet "10.0.0.1" "255.255.255.255" = Some info
    ∧ totalHosts info = -1
    ∧ totalHosts info ≠ Z.max 0 (capacity 255 255 255 255 - 2)
    ∧ ¬ 0 <= totalHosts info.
Proof.
  eexists. split; [reflexivity |]. cbn. repeat split; [discriminate | lia].
Qed.

(** C4, amended. For an address and a netmask made of octets, the host
    count is the capacity of the subnet minus 2, with no floor: it is
    never below -1, and it is negative exactly for the netmask
    255.255.255.255, where it is -1. *)
Theorem totalHosts_capacity a b c d m0 m1 m2 m3 :
  octet a → octet b → octet c → octet d →
  octet m0 → octet m1 → octet m2 → octet m3 →
  ∃ info,
    calculateSubnet (dotted a b c d) (dotted m0 m1 m2 m3) = Some info
    ∧ totalHosts info = capacity m0 m1 m2 m3 - 2
    ∧ -1 <= totalHosts info
    ∧ (totalHosts info < 0 ↔ m0 = 255 ∧ m1 = 255 ∧ m2 = 255 ∧ m3 = 255).
Proof.
  intros Ha Hb Hc Hd Hm0 Hm1 Hm2 Hm3.
  eexists. split; [apply calculateSubnet_dotted; assumption |].
  cbn [totalHosts]. split; [reflexivity |].
  unfold capacity, octet in *.
  assert (H01 : 1 <= (256 - m0) * (256 - m1)) by nia.
  assert (H23 : 1 <= (256 - m2) * (256 - m3)) by nia.
  rewrite <- Z.mul_assoc.
  split; [nia |]. split.
  - intros Hneg.
    assert ((256 - m0) * (256 - m1) = 1) by nia.
    assert ((256 - m2) * (256 - m3) = 1) by nia.
    assert (256 - m0 = 1) by nia. assert (256 - m2 = 1) by nia.
    nia.
  - intros (-> & -> & -> & ->). lia.
Qed.

Lemma totalHosts_capacity_witness :
  ∃ info,
    calculateSubnet "10.0.0.1" "255.255.255.255" = Some info
    ∧ totalHosts info = 1 - 2
    ∧ -1 <= totalHosts info
    ∧ (totalHosts info < 0 ↔ 255 = 255 ∧ 255 = 255 ∧ 255 = 255 ∧ 255 = 255).
Proof.
  exact (totalHosts_capacity 10 0 0 1 255 255 255 255
           ltac:(by apply octet_intro) ltac:(by apply octet_intro)
           ltac:(by apply octet_intro) ltac:(by apply octet_intro)
           ltac:(by apply octet_intro) ltac:(by apply octet_intro)
           ltac:(by apply octet_intro) ltac:(by apply octet_intro)).
Defined.

(** C10. For the netmask 255.255.255.255 and any address made of
    octets, [generateSubnetIPs] on the computed subnet returns the empty
    list: the first host's last octet is above the last host's, so the
    loop adds nothing, and no address at all is enumerated. *)
Theorem generateSubnetIPs_host_mask a b c d :
  octet a → octet b → octet c → octet d →
  ∃ info,
    calculateSubnet (dotted a b c d) "255.255.255.255" = Some info
    ∧ generateSubnetIPs info = Some [].
Proof.
  intros Ha Hb Hc Hd.
  assert (Hm : octet 255) by (unfold octet; lia).
  eexists. split.
  - change "255.255.255.255" with (dotted 255 255 255 255).
    apply calculateSubnet_dotted; assumption.
  - destruct (bitand_octets a 255 Ha Hm) as [_ Hn0].
    destruct (bitand_octets b 255 Hb Hm) as [_ Hn1].
    destruct (bitand_octets c 255 Hc Hm) as [_ Hn2].
    destruct (bitand_octets d 255 Hd Hm) as [_ Hn3].
    unfold generateSubnetIPs. cbn [firstHost lastHost localIp].
    change (255 - 255) with 0. rewrite !Z.lor_0_r.
    unfold octet in *.
    rewrite !parts_of_dotted by lia.
    cbn [mbind option_bind lookup list_lookup].
    rewrite decide_True by done.
    unfold for_range. rewrite seqZ_nil by lia. reflexivity.
Qed.

Lemma generateSubnetIPs_host_mask_witness :
  ∃ info,
    calculateSubnet "10.0.0.0" "255.255.255.255" = Some info
    ∧ generateSubnetIPs info = Some [].
Proof.
  exact (generateSubnetIPs_host_mask 10 0 0 0
           ltac:(by apply octet_intro) ltac:(by apply octet_intro)
           ltac:(by apply octet_intro) ltac:(by apply octet_intro)).
Defined.

(** ** The enumerated hosts are distinct *)

Lemma toString_inj x y : toString x = toString y → x = y.
Proof.
  unfold toString. intros Heq.
  assert (Hnorm : ∀ z, Z.to_int z ≠ Decimal.Pos Decimal.Nil
                       ∧ Z.to_int z ≠ Decimal.Neg Decimal.Nil).
  { intros z. pose proof (DecimalZ.to_of (Z.to_int z)) as Hz.
    rewrite DecimalZ.of_to in Hz.
    split; intros Hnil; rewrite Hnil in Hz; discriminate Hz. }
  assert (Hint : Some (Z.to_int x) = Some (Z.to_int y)).
  { rewrite <- (NilZero.isi (Z.to_int x)) by apply Hnorm.
    rewrite <- (NilZero.isi (Z.to_int y)) by apply Hnorm.
    rewrite Heq. reflexivity. }
  injection Hint as Hint.
  rewrite <- (DecimalZ.of_to x), <- (DecimalZ.of_to y), Hint. reflexivity.
Qed.

Lemma append_inv_head (s x y : string) : s +:+ x = s +:+ y → x = y.
Proof.
  induction s as [|c s IH]; [done |].
  change (String c s +:+ x) with (String c (s +:+ x)).
  change (String c s +:+ y) with (String c (s +:+ y)).
  intros [= Heq]. auto.
Qed.

Lemma ip_literal_inj p i j : ip_literal p i = ip_literal p j → i = j.
Proof.
  unfold ip_literal. intros Heq.
  do 6 apply append_inv_head in Heq. apply toString_inj, Heq.
Qed.

Lemma generateSubnetIPs_NoDup subnetInfo ips :
  generateSubnetIPs subnetInfo = Some ips → NoDup ips.
Proof.
  assert (Hrange : ∀ p lo hi, NoDup (ip_literal p <$> for_range lo hi)).
  { intros p lo hi. apply NoDup_fmap_2_strong; [| apply NoDup_seqZ].
    intros i j _ _. apply ip_literal_inj. }
  unfold generateSubnetIPs.
  destruct (parts_of (firstHost subnetInfo)) as [startParts|]; [| done].
  destruct (parts_of (lastHost subnetInfo)) as [endParts|]; [| done].
  cbn [mbind option_bind]. case_decide.
  - destruct (startParts !! 3%nat), (endParts !! 3%nat);
      intros Heq; apply (inj Some) in Heq; rewrite <- Heq;
      auto using NoDup_nil_2.
  - destruct (parts_of (localIp subnetInfo)); [| done].
    cbn [mbind option_bind]. intros Heq. apply (inj Some) in Heq.
    rewrite <- Heq. apply Hrange.
Qed.

(** ** The map of found servers *)

Section MapFacts.
Context {V : Type}.
Implicit Types (m : list (string * V)) (key : string) (v : V).

Lemma Map_has_true key m : Map_has key m = true ↔ key ∈ m.*1.
Proof. unfold Map_has. apply bool_decide_eq_true. Qed.

Lemma Map_set_elem key v m entry :
  entry ∈ Map_set key v m → entry = (key, v) ∨ entry ∈ m.
Proof.
  induction m as [|[k x] m IH]; cbn.
  - rewrite list_elem_of_singleton. auto.
  - case_decide; rewrite !elem_of_cons; [tauto |].
    intros [-> | Hin]; [tauto |]. destruct (IH Hin); tauto.
Qed.

Lemma Map_set_keys key v m :
  (Map_set key v m).*1 = if Map_has key m then m.*1 else m.*1 ++ [key].
Proof.
  induction m as [|[k x] m IH]; [reflexivity |].
  cbn [Map_set]. case_decide as Hk.
  - subst k. cbn. unfold Map_has.
    rewrite bool_decide_eq_true_2 by (cbn; left). reflexivity.
  - cbn [fmap list_fmap fst]. rewrite IH. unfold Map_has.
    destruct (bool_decide_reflect (key ∈ m.*1)) as [Hin | Hnin].
    + rewrite bool_decide_eq_true_2 by (cbn; right; exact Hin). reflexivity.
    + rewrite bool_decide_eq_false_2; [reflexivity |].
      cbn. rewrite elem_of_cons. intros [-> | ?]; tauto.
Qed.

Lemma Map_set_NoDup key v m : NoDup m.*1 → NoDup (Map_set key v m).*1.
Proof.
  intros Hm. rewrite Map_set_keys.
  destruct (Map_has key m) eqn:Hhas; [exact Hm |].
  apply NoDup_app. split; [exact Hm |]. split; [| apply NoDup_singleton].
  intros k Hk ->%list_elem_of_singleton.
  apply Map_has_true in Hk. congruence.
Qed.

Lemma Map_has_set key v m : Map_has key (Map_set key v m) = true.
Proof.
  apply Map_has_true. rewrite Map_set_keys.
  destruct (Map_has key m) eqn:Hhas.
  - apply Map_has_true, Hhas.
  - apply elem_of_app. right. apply list_elem_of_singleton. reflexivity.
Qed.

Lemma Map_has_set_mono key' key v m :
  Map_has key' m = true → Map_has key' (Map_set key v m) = true.
Proof.
  rewrite !Map_has_true, Map_set_keys. intros Hin.
  destruct (Map_has key m); [exact Hin |].
  apply elem_of_app. left. exact Hin.
Qed.

Lemma Map_set_Forall (P : string * V → Prop) key v m :
  P (key, v) → Forall P m → Forall P (Map_set key v m).
Proof.
  intros Hnew Hm. apply Forall_forall. intros entry Hin.
  apply Map_set_elem in Hin as [-> | Hin]; [exact Hnew |].
  rewrite Forall_forall in Hm. auto.
Qed.

Lemma Map_key_unique key v1 v2 m :
  NoDup m.*1 → (key, v1) ∈ m → (key, v2) ∈ m → v1 = v2.
Proof.
  induction m as [|[k x] m IH]; cbn; [by intros _ ?%elem_of_nil |].
  rewrite NoDup_cons, !elem_of_cons. intros [Hk Hm] [H1 | H1] [H2 | H2].
  - congruence.
  - injection H1 as -> ->. destruct Hk.
    apply (list_elem_of_fmap_2 fst) in H2. exact H2.
  - injection H2 as -> ->. destruct Hk.
    apply (list_elem_of_fmap_2 fst) in H1. exact H1.
  - auto.
Qed.

End MapFacts.

(** ** One discovery callback *)

Section UdpCallbacks.
Context (env : Platform) (ports : list Z) (timeout : Z).

Lemma related_candidates_range p q :
  q ∈ related_candidates p → p - 2 <= q <= p + 2 ∧ 1 <= q <= 65535.
Proof.
  unfold related_candidates, for_range.
  rewrite list_elem_of_filter, list_elem_of_fmap.
  intros [Hvalid (offset & -> & Hoffset)].
  apply elem_of_seqZ in Hoffset. lia.
Qed.

Lemma sorted_related_ok p tcpResults :
  port <$> tcpResults = related_candidates p →
  related_ok p (sort (port <$> open_only tcpResults)).
Proof.
  intros Hports. split; [apply StronglySorted_merge_sort; apply _ |].
  apply Forall_forall. intros q Hq. apply related_candidates_range.
  unfold sort in Hq. rewrite merge_sort_Permutation in Hq.
  apply list_elem_of_fmap in Hq as (r & -> & Hr).
  unfold open_only in Hr. apply list_elem_of_filter in Hr as [_ Hr].
  rewrite <- Hports. apply list_elem_of_fmap_2, Hr.
Qed.

Lemma task_ok_mono found found' t :
  (∀ key, Map_has key found = true → Map_has key found' = true) →
  task_ok env ports timeout found t → task_ok env ports timeout found' t.
Proof.
  intros Hmono [Hreply Hphase]. split; [exact Hreply |].
  destruct (task_phase t); auto.
Qed.

Lemma fires_inv t st :
  udp_inv env ports timeout st →
  task_ok env ports timeout (foundServers st) t →
  udp_inv env ports timeout (fires env timeout t st).2
  ∧ task_ok env ports timeout (foundServers (fires env timeout t st).2)
      (fires env timeout t st).1
  ∧ (∀ key, Map_has key (foundServers st) = true →
            Map_has key (foundServers (fires env timeout t st).2) = true).
Proof.
  intros (Hnodup & Hentries & Hprobes) [Hreply Hphase].
  unfold fires, udp_inv, task_ok.
  destruct (task_phase t) as [| info tcpResults |] eqn:Ephase.
  - (* the reply arrives *)
    unfold on_reply. destruct (task_reply t) as [info|] eqn:Ereply.
    + destruct (Map_has _ _) eqn:Ehas;
        cbn [fst snd foundServers probes task_reply task_ip task_phase with_phase];
        rewrite Ereply.
      * repeat split; auto. intros info' [= <-]. exact Ehas.
      * repeat split; auto.
        -- apply Forall_app. split; [exact Hprobes |].
           apply Forall_fmap, Forall_forall. intros q Hq. cbn.
           apply related_candidates_range in Hq. lia.
        -- rewrite checkPorts_port, <- list_fmap_compose. apply list_fmap_id.
    + cbn [fst snd foundServers probes task_reply task_ip task_phase with_phase].
      rewrite Ereply. repeat split; auto. intros info' [=].
  - (* the TCP checks are done *)
    destruct Hphase as [Ereply Hports].
    unfold on_tcp_done.
    cbn [fst snd foundServers probes task_reply task_ip task_phase with_phase].
    repeat split; auto.
    + apply Map_set_NoDup, Hnodup.
    + apply Map_set_Forall; [| exact Hentries].
      exists info, (sort (port <$> open_only tcpResults)). cbn.
      do 5 (split; [reflexivity |]).
      split; [apply sorted_related_ok, Hports | apply Hreply, Ereply].
    + intros info' Hinfo'. rewrite Ereply in Hinfo'.
      injection Hinfo' as <-. apply Map_has_set.
    + intros key. apply Map_has_set_mono.
  - cbn [fst snd]. rewrite Ephase. repeat split; auto.
Qed.

Lemma fires_evolves t st :
  evolves t (fires env timeout t st).1
  ∧ (rank (fires env timeout t st).1 <= pred (rank t))%nat.
Proof.
  unfold fires, evolves, rank.
  destruct (task_phase t) as [| info tcpResults |] eqn:Ephase.
  - unfold on_reply.
    destruct (task_reply t) eqn:Ereply; [destruct (Map_has _ _) |];
      cbn; repeat split; auto with lia.
  - cbn. repeat split; lia.
  - cbn. rewrite Ephase. repeat split; lia.
Qed.

(** A reply whose key is already in the map starts no TCP check and
    changes nothing but the count of completed checks. *)
Lemma on_reply_known t st info :
  task_reply t = Some info →
  Map_has (server_key (task_ip t) (info_port info)) (foundServers st) = true →
  on_reply env timeout t st
  = (with_phase t Settled,
     {| foundServers := foundServers st;
        completedChecks := completedChecks st + 1;
        discoveries := discoveries st; probes := probes st;
        notified := notified st |}).
Proof. intros Hreply Hhas. unfold on_reply. rewrite Hreply, Hhas. reflexivity. Qed.

End UdpCallbacks.

(** ** One batch of discoveries *)

Section UdpBatch.
Context (env : Platform) (ports : list Z) (timeout : Z).

Lemma evolves_refl t : evolves t t.
Proof. unfold evolves. auto. Qed.

Lemma evolves_trans t1 t2 t3 : evolves t1 t2 → evolves t2 t3 → evolves t1 t3.
Proof. unfold evolves. intros (-> & -> & ?) (-> & -> & ?). auto with lia. Qed.

Lemma advance_inv k cfg :
  cfg_inv env ports timeout cfg →
  cfg_inv env ports timeout (advance env timeout k cfg)
  ∧ keys_kept (foundServers cfg.2) (foundServers (advance env timeout k cfg).2).
Proof.
  intros [Hst Htasks]. unfold advance.
  destruct (cfg.1 !! k) as [t|] eqn:Ek;
    [| split; [split; assumption | intros key; done]].
  pose proof (Forall_lookup_1 _ _ _ _ Htasks Ek) as Ht.
  destruct (fires_inv env ports timeout t cfg.2 Hst Ht) as (Hst' & Ht' & Hkept).
  destruct (fires env timeout t cfg.2) as [t' st']. cbn [fst snd] in *.
  split; [split |]; [exact Hst' | | exact Hkept].
  apply Forall_insert; [| exact Ht'].
  eapply Forall_impl; [exact Htasks |].
  intros t0. apply task_ok_mono, Hkept.
Qed.

Lemma advance_length k cfg :
  length (advance env timeout k cfg).1 = length cfg.1.
Proof.
  unfold advance. destruct (cfg.1 !! k); [| reflexivity].
  destruct (fires _ _ _ _). cbn. apply length_insert.
Qed.

Lemma advance_tasks k cfg i t' :
  (advance env timeout k cfg).1 !! i = Some t' →
  ∃ t, cfg.1 !! i = Some t ∧ evolves t t'
       ∧ (i = k → (rank t' <= pred (rank t))%nat).
Proof.
  unfold advance. destruct (cfg.1 !! k) as [t|] eqn:Ek.
  - pose proof (fires_evolves env timeout t cfg.2) as [Hev Hrank].
    destruct (fires env timeout t cfg.2) as [t1 st1]. cbn [fst snd] in *.
    destruct (decide (i = k)) as [-> | Hne].
    + rewrite list_lookup_insert_eq by (eapply lookup_lt_Some, Ek).
      intros [= <-]. eauto.
    + rewrite list_lookup_insert_ne by congruence.
      intros Hi. exists t'. split; [exact Hi |].
      split; [apply evolves_refl | done].
  - intros Hi. exists t'. split; [exact Hi |].
    split; [apply evolves_refl | intros ->; congruence].
Qed.

Lemma run_events_app order1 order2 cfg :
  run_events env timeout (order1 ++ order2) cfg
  = run_events env timeout order2 (run_events env timeout order1 cfg).
Proof. unfold run_events. apply foldl_app. Qed.

Lemma run_events_inv order : ∀ cfg,
  cfg_inv env ports timeout cfg →
  cfg_inv env ports timeout (run_events env timeout order cfg)
  ∧ keys_kept (foundServers cfg.2)
      (foundServers (run_events env timeout order cfg).2).
Proof.
  induction order as [|k order IH]; intros cfg Hcfg;
    [split; [exact Hcfg | intros key; done] |].
  destruct (advance_inv k cfg Hcfg) as [Hcfg1 Hkept1].
  destruct (IH _ Hcfg1) as [Hcfg2 Hkept2].
  split; [exact Hcfg2 |]. intros key Hkey. apply Hkept2, Hkept1, Hkey.
Qed.

Lemma run_events_length order : ∀ cfg,
  length (run_events env timeout order cfg).1 = length cfg.1.
Proof.
  induction order as [|k order IH]; intros cfg; [reflexivity |].
  cbn. etrans; [apply IH | apply advance_length].
Qed.

Lemma run_events_tasks order : ∀ cfg i t',
  (run_events env timeout order cfg).1 !! i = Some t' →
  ∃ t, cfg.1 !! i = Some t ∧ evolves t t'.
Proof.
  induction order as [|k order IH]; intros cfg i t' Hi.
  - exists t'. split; [exact Hi | apply evolves_refl].
  - apply IH in Hi as (t1 & Hi & Hev1).
    apply advance_tasks in Hi as (t & Hi & Hev & _).
    exists t. split; [exact Hi | eapply evolves_trans; eassumption].
Qed.

(** A pass over all the tasks takes one event off each. *)
Lemma run_events_pass (bound : nat) len : ∀ start cfg,
  (start + len)%nat = length cfg.1 →
  (∀ i t, cfg.1 !! i = Some t →
          (rank t <= if decide (i < start)%nat then pred bound else bound)%nat) →
  ∀ i t', (run_events env timeout (seq start len) cfg).1 !! i = Some t' →
          (rank t' <= pred bound)%nat.
Proof.
  induction len as [|len IH]; intros start cfg Hlen Hranks i t' Hi.
  - cbn in Hi. specialize (Hranks i t' Hi).
    apply lookup_lt_Some in Hi. rewrite decide_True in Hranks by lia. exact Hranks.
  - cbn in Hi. eapply (IH (S start)); [| | exact Hi].
    + rewrite advance_length. lia.
    + intros j t1 Hj. apply advance_tasks in Hj as (t0 & Hj & Hev & Hk).
      specialize (Hranks j t0 Hj). destruct Hev as (_ & _ & Hrank).
      destruct (decide (j = start)) as [-> | Hne].
      * specialize (Hk eq_refl). rewrite decide_False in Hranks by lia.
        rewrite decide_True by lia. lia.
      * repeat case_decide; lia.
Qed.

Lemma rank_le_2 t : (rank t <= 2)%nat.
Proof. unfold rank. destruct (task_phase t); lia. Qed.

(** At the end of a batch every callback has returned. *)
Lemma batch_settles order cfg i t' :
  let rest := seq 0 (length cfg.1) ++ seq 0 (length cfg.1) in
  (run_events env timeout (order ++ rest) cfg).1 !! i = Some t' →
  task_phase t' = Settled.
Proof.
  cbv zeta. rewrite !run_events_app. intros Hi.
  set (cfg1 := run_events env timeout order cfg) in *.
  assert (Hlen1 : length cfg1.1 = length cfg.1) by apply run_events_length.
  rewrite <- Hlen1 in Hi.
  set (cfg2 := run_events env timeout (seq 0 (length cfg1.1)) cfg1) in *.
  assert (Hlen2 : length cfg2.1 = length cfg1.1) by apply run_events_length.
  assert (Hrank : (rank t' <= pred 1)%nat).
  { rewrite <- Hlen2 in Hi.
    eapply (run_events_pass 1 (length cfg2.1) 0 cfg2); [done | | exact Hi].
    intros j t Hj. rewrite decide_False by lia.
    eapply (run_events_pass 2 (length cfg1.1) 0 cfg1); [done | | exact Hj].
    intros j' t0 _. rewrite decide_False by lia. apply rank_le_2. }
  unfold rank in Hrank. destruct (task_phase t'); cbn in Hrank; [lia | lia | done].
Qed.

End UdpBatch.

(** ** Keys of the map of found servers *)

Lemma string_of_uint_no_colon d :
  has_colon (NilEmpty.string_of_uint d) = false.
Proof. induction d; cbn; auto. Qed.

Lemma toString_no_colon n : has_colon (toString n) = false.
Proof.
  unfold toString, NilZero.string_of_int, NilZero.string_of_uint.
  destruct (Z.to_int n) as [d | d]; destruct d; cbn;
    auto using string_of_uint_no_colon.
Qed.

Lemma append_cons c s t : String c s +:+ t = String c (s +:+ t).
Proof. reflexivity. Qed.

Lemma append_nil_l s : "" +:+ s = s.
Proof. reflexivity. Qed.

Lemma has_colon_app s t : has_colon (s +:+ String ":" t) = true.
Proof.
  induction s as [|c s IH]; [reflexivity |].
  rewrite append_cons. cbn [has_colon]. rewrite IH. apply orb_true_r.
Qed.

Lemma colon_split s1 t1 : ∀ s2 t2,
  has_colon t1 = false → has_colon t2 = false →
  s1 +:+ ":" +:+ t1 = s2 +:+ ":" +:+ t2 → s1 = s2 ∧ t1 = t2.
Proof.
  induction s1 as [|c s1 IH]; intros [|c2 s2] t2 H1 H2;
    rewrite ?append_cons, ?append_nil_l.
  - intros [= ->]. done.
  - intros [= <- ->]. rewrite has_colon_app in H1. discriminate.
  - intros [= -> <-]. rewrite has_colon_app in H2. discriminate.
  - intros [= -> Heq]. destruct (IH s2 t2 H1 H2) as [-> ->]; [| done].
    rewrite ?append_cons, ?append_nil_l. exact Heq.
Qed.

(** Two servers have the same key only if they have the same address
    and the same port. *)
Lemma server_key_inj ip1 port1 ip2 port2 :
  server_key ip1 port1 = server_key ip2 port2 → ip1 = ip2 ∧ port1 = port2.
Proof.
  unfold server_key. intros Heq.
  apply colon_split in Heq as [-> Heq]; auto using toString_no_colon.
  split; [reflexivity | apply toString_inj, Heq].
Qed.

Lemma filter_unique {A} (P : A → Prop) `{!∀ x, Decision (P x)} (l : list A) x :
  NoDup l → x ∈ l → P x → (∀ y, y ∈ l → P y → y = x) → filter P l = [x].
Proof.
  induction l as [|a l IH]; [by intros _ ?%elem_of_nil |].
  rewrite NoDup_cons, elem_of_cons. intros [Ha Hl] Hx HP Huniq.
  assert (Hrest : ∀ y, y ∈ l → P y → y = x)
    by (intros y Hy; apply Huniq; right; exact Hy).
  destruct Hx as [-> | Hx].
  - rewrite filter_cons_True by exact HP. f_equal.
    destruct (filter P l) as [|y ys] eqn:Hfilter; [reflexivity |].
    assert (Hy : y ∈ filter P l) by (rewrite Hfilter; left).
    apply list_elem_of_filter in Hy as [HPy Hy].
    rewrite (Hrest y Hy HPy) in Hy. contradiction.
  - rewrite filter_cons_False; [auto |].
    intros HPa. rewrite (Huniq a) in Ha by (auto; left). contradiction.
Qed.

(** ** The batch loop of [scanSubnetUDP] *)

Section ScanSubnetUDP.
Context (env : Platform) (ports : list Z) (timeout : Z).
Context (batchSize : Z) (onProgress : bool) (ips : list string).
Hypothesis batchSize_pos : 1 <= batchSize.

Lemma targets_of_port target hosts :
  target ∈ targets_of hosts ports → target.2 ∈ ports.
Proof.
  unfold targets_of. rewrite list_elem_of_bind.
  intros (ip & Hin & _). apply list_elem_of_fmap in Hin as (p & -> & Hp).
  exact Hp.
Qed.

Lemma targets_of_elem h p hosts :
  h ∈ hosts → p ∈ ports → (h, p) ∈ targets_of hosts ports.
Proof.
  intros Hh Hp. unfold targets_of. apply list_elem_of_bind.
  exists h. split; [| exact Hh]. apply list_elem_of_fmap. eauto.
Qed.

Lemma start_tasks_lookup n targets k t :
  start_tasks env n timeout targets !! k = Some t →
  ∃ target,
    targets !! k = Some target
    ∧ t = {| task_ip := target.1; task_port := target.2;
             task_reply :=
               discover4DServer env (n + k) target.1 target.2 timeout;
             task_phase := AwaitingReply |}.
Proof.
  unfold start_tasks. rewrite list_lookup_imap.
  destruct (targets !! k) as [target|]; [| done].
  intros [= <-]. eauto.
Qed.

Lemma start_tasks_ok n hosts found :
  Forall (task_ok env ports timeout found)
         (start_tasks env n timeout (targets_of hosts ports)).
Proof.
  apply Forall_lookup. intros k t Hk.
  apply start_tasks_lookup in Hk as (target & Htarget & ->).
  apply list_elem_of_lookup_2, targets_of_port in Htarget.
  split; [| done]. cbn. intros info Hinfo. exists (n + k)%nat, target.2. done.
Qed.

Lemma scanSubnetUDP_batch_inv b ipIdx st :
  udp_inv env ports timeout st →
  let st' := scanSubnetUDP_batch env ports timeout batchSize onProgress ips
               b ipIdx st in
  udp_inv env ports timeout st'
  ∧ keys_kept (foundServers st) (foundServers st')
  ∧ ∀ h port0 info0,
      h ∈ slice ips ipIdx (ipIdx + batchSize) → port0 ∈ ports →
      (∀ n, discover4DServer env n h port0 timeout = Some info0) →
      Map_has (server_key h (info_port info0)) (foundServers st') = true.
Proof.
  intros Hst. cbv zeta. unfold scanSubnetUDP_batch.
  set (hosts := slice ips ipIdx (ipIdx + batchSize)).
  set (tasks := start_tasks env _ timeout (targets_of hosts ports)).
  set (st0 := {| foundServers := foundServers st;
                 completedChecks := completedChecks st;
                 discoveries := discoveries st ++ targets_of hosts ports;
                 probes := probes st; notified := notified st |}).
  set (order := arrival_order env b ++ _).
  assert (Hcfg : cfg_inv env ports timeout (tasks, st0)).
  { split; [exact Hst | apply start_tasks_ok]. }
  remember (run_events env timeout order (tasks, st0)) as cfg' eqn:Ecfg.
  assert (Hcfg' : cfg_inv env ports timeout cfg'
                  ∧ keys_kept (foundServers st) (foundServers cfg'.2))
    by (subst cfg'; apply (run_events_inv env ports timeout order _ Hcfg)).
  assert (Hsettled : ∀ i t', cfg'.1 !! i = Some t' → task_phase t' = Settled)
    by (subst cfg'; apply (batch_settles env timeout _ (tasks, st0))).
  assert (Htasks : ∀ i t', cfg'.1 !! i = Some t' →
                           ∃ t, tasks !! i = Some t ∧ evolves t t')
    by (subst cfg'; apply (run_events_tasks env timeout order (tasks, st0))).
  assert (Hlen : length cfg'.1 = length tasks)
    by (subst cfg'; apply (run_events_length env timeout order (tasks, st0))).
  clear Ecfg. destruct cfg' as [tasks' st1].
  cbn [fst snd foundServers probes] in *.
  destruct Hcfg' as [[Hst1 Htasks1] Hkept].
  split; [exact Hst1 |]. split; [exact Hkept |].
  intros h port0 info0 Hh Hport0 Hreply.
  pose proof (targets_of_elem h port0 hosts Hh Hport0) as Htarget.
  apply list_elem_of_lookup_1 in Htarget as [k Hk].
  assert (Hk' : is_Some (tasks' !! k)).
  { apply lookup_lt_is_Some. rewrite Hlen. unfold tasks, start_tasks.
    rewrite length_imap. eapply lookup_lt_Some, Hk. }
  destruct Hk' as [t' Ht'].
  destruct (Htasks k t' Ht') as (t & Ht & Hip & Hrep & _).
  apply start_tasks_lookup in Ht as (target & Htarget & ->).
  rewrite Hk in Htarget. injection Htarget as <-. cbn in Hip, Hrep.
  rewrite Hreply in Hrep.
  pose proof (Forall_lookup_1 _ _ _ _ Htasks1 Ht') as [_ Hphase].
  rewrite (Hsettled k t' Ht') in Hphase.
  rewrite <- Hip. apply Hphase, Hrep.
Qed.

Lemma scanSubnetUDP_loop_inv (fuel : nat) : ∀ (b i : nat) st,
  (length ips - i <= fuel)%nat →
  udp_inv env ports timeout st →
  ∃ st',
    scanSubnetUDP_loop env ports timeout batchSize onProgress ips fuel b
      (Z.of_nat i) st = Some st'
    ∧ udp_inv env ports timeout st'
    ∧ keys_kept (foundServers st) (foundServers st')
    ∧ ∀ h port0 info0,
        h ∈ drop i ips → port0 ∈ ports →
        (∀ n, discover4DServer env n h port0 timeout = Some info0) →
        Map_has (server_key h (info_port info0)) (foundServers st') = true.
Proof.
  induction fuel as [|fuel IH]; intros b i st Hfuel Hst;
    cbn [scanSubnetUDP_loop];
    destruct (Z.ltb_spec (Z.of_nat i) (Z.of_nat (length ips))) as [Hmore | Hdone];
    try lia.
  - exists st. split; [reflexivity |]. split; [exact Hst |].
    split; [by intros key |].
    intros h port0 info0 Hh. rewrite drop_ge in Hh by lia.
    by apply elem_of_nil in Hh.
  - destruct (scanSubnetUDP_batch_inv b (Z.of_nat i) st Hst)
      as (Hst1 & Hkept1 & Hfound1).
    set (st1 := scanSubnetUDP_batch _ _ _ _ _ _ _ _ _) in *.
    replace (Z.of_nat i + batchSize)
      with (Z.of_nat (i + Z.to_nat batchSize)) by lia.
    destruct (IH (S b) (i + Z.to_nat batchSize)%nat st1) as
      (st' & Hloop & Hst' & Hkept & Hfound); [lia | exact Hst1 |].
    exists st'. split; [exact Hloop |]. split; [exact Hst' |].
    split; [intros key Hkey; apply Hkept, Hkept1, Hkey |].
    intros h port0 info0 Hh Hport0 Hreply.
    rewrite <- (take_drop (Z.to_nat batchSize) (drop i ips)) in Hh.
    rewrite drop_drop in Hh. apply elem_of_app in Hh as [Hh | Hh].
    + apply Hkept. apply (Hfound1 h port0 info0); [| done..].
      rewrite slice_batch by lia. exact Hh.
    + by apply (Hfound h port0 info0).
  - exists st. split; [reflexivity |]. split; [exact Hst |].
    split; [by intros key |].
    intros h port0 info0 Hh. rewrite drop_ge in Hh by lia.
    by apply elem_of_nil in Hh.
Qed.

End ScanSubnetUDP.

(** ** The results of [scanSubnetUDP] *)

Lemma udp_inv_init env ports timeout :
  udp_inv env ports timeout
    {| foundServers := []; completedChecks := 0; discoveries := [];
       probes := []; notified := [] |}.
Proof. repeat split; cbn; constructor. Qed.

(** [scanSubnetUDP] returns, and what it leaves satisfies the invariant
    of the scan. *)
Lemma scanSubnetUDP_total env ports timeout batchSize onProgress subnetInfo ips :
  getLocalNetworkInfo env = Some (Some subnetInfo) →
  generateSubnetIPs subnetInfo = Some ips →
  1 <= batchSize ∨ ips = [] →
  ∃ st,
    scanSubnetUDP env ports timeout batchSize onProgress
    = Some {| outcome := Normal (Map_values (foundServers st));
              udp_calls := discoveries st; tcp_calls := probes st;
              reports := notified st |}
    ∧ udp_inv env ports timeout st
    ∧ ∀ h port0 info0,
        h ∈ ips → port0 ∈ ports →
        (∀ n, discover4DServer env n h port0 timeout = Some info0) →
        Map_has (server_key h (info_port info0)) (foundServers st) = true.
Proof.
  intros Hnet Hips Hbs. unfold scanSubnetUDP.
  rewrite Hnet. cbn [mbind option_bind]. rewrite Hips. cbn [mbind option_bind].
  destruct Hbs as [Hbs | ->].
  - destruct (scanSubnetUDP_loop_inv env ports timeout batchSize onProgress ips
                Hbs (length ips) 0 0 _ ltac:(lia)
                (udp_inv_init env ports timeout))
      as (st & Hloop & Hst & _ & Hfound).
    change (Z.of_nat 0) with 0 in Hloop. rewrite Hloop. cbn [mbind option_bind].
    exists st. split; [reflexivity |]. split; [exact Hst | exact Hfound].
  - cbn. eexists. split; [reflexivity |].
    split; [apply udp_inv_init |]. by intros h port0 info0 ?%elem_of_nil.
Qed.

(** With a batch size of 0 or less and a host to scan, the loop of
    [scanSubnetUDP] never ends either. *)
Lemma scanSubnetUDP_loop_diverges
    env ports timeout batchSize onProgress ips fuel :
  batchSize <= 0 → ips ≠ [] → ∀ b ipIdx st,
  ipIdx <= 0 →
  scanSubnetUDP_loop env ports timeout batchSize onProgress ips fuel b ipIdx st
  = None.
Proof.
  intros Hbs Hips. induction fuel as [|fuel IH]; intros b ipIdx st Hi;
    cbn [scanSubnetUDP_loop];
    destruct (Z.ltb_spec ipIdx (Z.of_nat (length ips))) as [_ | Hge];
    try (destruct ips; [congruence | cbn in Hge; lia]).
  - reflexivity.
  - apply IH. lia.
Qed.

Lemma found_entry env ports timeout st r :
  udp_inv env ports timeout st → r ∈ Map_values (foundServers st) →
  ∃ key, (key, r) ∈ foundServers st ∧ entry_ok env ports timeout (key, r).
Proof.
  intros (_ & Hentries & _) Hr. unfold Map_values in Hr.
  apply list_elem_of_fmap in Hr as ([key r'] & -> & Hin).
  exists key. split; [exact Hin |].
  rewrite Forall_forall in Hentries. apply Hentries, Hin.
Qed.

Lemma found_keys env ports timeout st :
  udp_inv env ports timeout st →
  (foundServers st).*1
  = (fun hp => server_key hp.1 hp.2)
      <$> ((fun r => (host (base r), port (base r)))
             <$> Map_values (foundServers st)).
Proof.
  intros (_ & Hentries & _). unfold Map_values.
  induction Hentries as [|[key r] found Hentry _ IH]; [reflexivity |].
  cbn [fmap list_fmap fst snd]. rewrite IH.
  destruct Hentry as (info & rp & Hkey & _). cbn in Hkey. rewrite Hkey.
  reflexivity.
Qed.



(** The test of the key is made when the reply arrives and the key is
    recorded when the TCP checks of that reply are done: replies of one
    server that arrive in between are all followed by TCP checks.  Here
    the three replies of 192.168.1.52 arrive before any of its TCP
    checks is done, and its five related ports are probed three times;
    when the checks of the first reply are done before the other two
    replies arrive, they are probed once. *)
Remark probing_repeated_before_recording :
  (tcp_calls <$> scanSubnetUDP (lan6 [9; 10; 11; 9; 10; 11]%nat)
                   [19813; 19814; 19815] 500 4 true)
  = Some (((fun relatedPort => ("192.168.1.52", relatedPort))
             <$> [19811; 19812; 19813; 19814; 19815]) ++
          ((fun relatedPort => ("192.168.1.52", relatedPort))
             <$> [19811; 19812; 19813; 19814; 19815]) ++
          ((fun relatedPort => ("192.168.1.52", relatedPort))
             <$> [19811; 19812; 19813; 19814; 19815]))
  ∧ (tcp_calls <$> scanSubnetUDP (lan6 [9; 9; 10; 11]%nat)
                     [19813; 19814; 19815] 500 4 true)
    = Some ((fun relatedPort => ("192.168.1.52", relatedPort))
              <$> [19811; 19812; 19813; 19814; 19815]).
Proof. split; vm_compute; reflexivity. Qed.

Import MoreVocabulary.

(** * Further properties *)

(** ** The default port range *)

(** X1. [getDefault4DPorts] lists the ports from [startPort] to
    [endPort], both included, in ascending order and once each; it is
    empty when [endPort] is below [startPort]. *)
Theorem getDefault4DPorts_range startPort endPort :
  (∀ p, p ∈ getDefault4DPorts startPort endPort ↔ startPort <= p <= endPort)
  ∧ length (getDefault4DPorts startPort endPort)
    = Z.to_nat (endPort - startPort + 1)
  ∧ (∀ (k : nat) p, getDefault4DPorts startPort endPort !! k = Some p →
                    p = startPort + Z.of_nat k)
  ∧ NoDup (getDefault4DPorts startPort endPort)
  ∧ (endPort < startPort → getDefault4DPorts startPort endPort = []).
Proof.
  unfold getDefault4DPorts, for_range.
  split; [| split; [| split; [| split]]].
  - intros p. rewrite elem_of_seqZ. lia.
  - rewrite length_seqZ. reflexivity.
  - intros k p Hk. apply lookup_seqZ in Hk. lia.
  - apply NoDup_seqZ.
  - intros Hlt. apply seqZ_nil. lia.
Qed.

(** ** The local interface *)

Lemma find_app {A} (f : A → bool) (l1 l2 : list A) :
  List.find f (l1 ++ l2)
  = match List.find f l1 with
    | Some x => Some x
    | None => List.find f l2
    end.
Proof.
  induction l1 as [|x l1 IH]; [reflexivity |].
  cbn. destruct (f x); [reflexivity | exact IH].
Qed.

(** X2. [getLocalNetworkInfo] computes the subnet of the first address,
    in the order of the interfaces, that is IPv4 and not internal; its
    answer is [null] exactly when there is no such address. *)
Theorem getLocalNetworkInfo_first_usable interfaces :
  getLocalNetworkInfo_in interfaces
  = match List.find usable (all_addresses interfaces) with
    | Some addr => Some <$> calculateSubnet (address addr) (if_netmask addr)
    | None => Some None
    end
  ∧ (getLocalNetworkInfo_in interfaces = Some None
     ↔ Forall (fun addr => usable addr = false) (all_addresses interfaces)).
Proof.
  assert (Hfirst : getLocalNetworkInfo_in interfaces
    = match List.find usable (all_addresses interfaces) with
      | Some addr => Some <$> calculateSubnet (address addr) (if_netmask addr)
      | None => Some None
      end).
  { unfold all_addresses.
    induction interfaces as [|[name [addresses|]] interfaces IH];
      [reflexivity | | exact IH].
    cbn [getLocalNetworkInfo_in mbind list_bind snd default].
    rewrite find_app. change (id addresses) with addresses.
    destruct (List.find usable addresses) as [addr|]; [| exact IH].
    destruct (calculateSubnet _ _); reflexivity. }
  split; [exact Hfirst |]. rewrite Hfirst.
  destruct (List.find usable (all_addresses interfaces)) as [addr|] eqn:Hfind.
  - apply List.find_some in Hfind as [Hin Husable]. split.
    + destruct (calculateSubnet _ _); discriminate.
    + rewrite Forall_forall. intros Hall.
      apply list_elem_of_In, Hall in Hin. congruence.
  - split; [| reflexivity]. intros _. apply Forall_forall. intros addr Hin.
    apply list_elem_of_In in Hin.
    apply (List.find_none _ _ Hfind) in Hin. exact Hin.
Qed.

(** ** The hosts of the computed subnet *)

Lemma octet_bits_well_octets a m : octet a → octet m → octet_bits_well a m = true.
Proof.
  intros Ha Hm.
  assert (Hall : forallb (fun a => forallb (octet_bits_well a) (seqZ 0 256))
                   (seqZ 0 256) = true)
    by (vm_compute; reflexivity).
  rewrite forallb_forall in Hall.
  assert (Ha' : In a (seqZ 0 256))
    by (apply list_elem_of_In, elem_of_seqZ; unfold octet in Ha; lia).
  specialize (Hall a Ha'). rewrite forallb_forall in Hall. apply Hall.
  apply list_elem_of_In, elem_of_seqZ. unfold octet in Hm. lia.
Qed.

Lemma octet_bits a m :
  octet a → octet m →
  Z.land a 255 = a
  ∧ Z.lor (Z.land a m) (255 - m) = Z.land a m + (255 - m)
  ∧ 0 <= Z.land a m <= a
  ∧ Z.land a m <= m
  ∧ a <= Z.land a m + (255 - m).
Proof.
  intros Ha Hm. pose proof (octet_bits_well_octets a m Ha Hm) as H.
  destruct (bitand_octets a m Ha Hm) as [_ [Hn _]].
  unfold octet_bits_well in H.
  repeat (apply andb_prop in H as [H ?]).
  repeat match goal with
         | B : bool_decide _ = true |- _ => apply bool_decide_eq_true in B
         end.
  done.
Qed.

Lemma ip_literal_dotted a b c d i : ip_literal [a; b; c; d] i = dotted a b c i.
Proof. reflexivity. Qed.

Lemma dotted_last_inj a b c i j : dotted a b c i = dotted a b c j → i = j.
Proof.
  rewrite <- !(ip_literal_dotted a b c 0). apply ip_literal_inj.
Qed.

(** X3. For a netmask 255.255.255.m, the hosts enumerated for the
    computed subnet are the addresses strictly between the network
    address and the broadcast address, in ascending order.  There are
    as many as [totalHosts] says under every such netmask but
    255.255.255.255, where none is enumerated although [totalHosts] is
    -1.  Neither the network nor the broadcast address is among them,
    and the local address is among them unless it is one of these
    two. *)
Theorem generateSubnetIPs_small_subnet a b c d m3 :
  octet a → octet b → octet c → octet d → octet m3 →
  ∃ info ips,
    calculateSubnet (dotted a b c d) (dotted 255 255 255 m3) = Some info
    ∧ generateSubnetIPs info = Some ips
    ∧ networkAddress info = dotted a b c (Z.land d m3)
    ∧ broadcastAddress info = dotted a b c (Z.land d m3 + (255 - m3))
    ∧ ips = dotted a b c <$> seqZ (Z.land d m3 + 1) (254 - m3)
    ∧ totalHosts info = 254 - m3
    ∧ Z.of_nat (length ips) = Z.max 0 (totalHosts info)
    ∧ (m3 < 255 → Z.of_nat (length ips) = totalHosts info)
    ∧ (m3 = 255 → ips = [] ∧ totalHosts info = -1)
    ∧ (networkAddress info ∉ ips)
    ∧ (broadcastAddress info ∉ ips)
    ∧ (dotted a b c d ∈ ips
       ↔ dotted a b c d ≠ networkAddress info
         ∧ dotted a b c d ≠ broadcastAddress info).
Proof.
  intros Ha Hb Hc Hd Hm3.
  assert (Hm : octet 255) by (unfold octet; lia).
  destruct (octet_bits a 255 Ha Hm) as (Ea & _).
  destruct (octet_bits b 255 Hb Hm) as (Eb & _).
  destruct (octet_bits c 255 Hc Hm) as (Ec & _).
  destruct (octet_bits d m3 Hd Hm3) as (_ & Ed & Hn3 & Hnm & Hdb).
  pose proof (calculateSubnet_dotted a b c d 255 255 255 m3
                Ha Hb Hc Hd Hm Hm Hm Hm3) as Hinfo.
  cbv zeta in Hinfo. rewrite Ea, Eb, Ec, Ed in Hinfo.
  change (255 - 255) with 0 in Hinfo. rewrite !Z.lor_0_r in Hinfo.
  eexists _, _. split; [exact Hinfo |].
  cbn [networkAddress broadcastAddress totalHosts].
  assert (Hips : generateSubnetIPs
                   {| localIp := dotted a b c d;
                      netmask := dotted 255 255 255 m3;
                      networkAddress := dotted a b c (Z.land d m3);
                      broadcastAddress :=
                        dotted a b c (Z.land d m3 + (255 - m3));
                      firstHost := dotted a b c (Z.land d m3 + 1);
                      lastHost := dotted a b c (Z.land d m3 + (255 - m3) - 1);
                      totalHosts := capacity 255 255 255 m3 - 2 |}
                 = Some (dotted a b c <$> seqZ (Z.land d m3 + 1) (254 - m3))).
  { unfold generateSubnetIPs. cbn [firstHost lastHost localIp].
    unfold octet in *. rewrite !parts_of_dotted by lia.
    cbn [mbind option_bind lookup list_lookup].
    rewrite decide_True by done. unfold for_range.
    replace (Z.land d m3 + (255 - m3) - 1 - (Z.land d m3 + 1) + 1)
      with (254 - m3) by lia.
    reflexivity. }
  assert (Htotal : capacity 255 255 255 m3 - 2 = 254 - m3)
    by (unfold capacity; lia).
  assert (Hlen : Z.of_nat (length (dotted a b c <$>
                                     seqZ (Z.land d m3 + 1) (254 - m3)))
                 = Z.max 0 (254 - m3))
    by (rewrite length_fmap, length_seqZ; lia).
  split; [exact Hips |]. do 3 (split; [reflexivity |]).
  split; [exact Htotal |]. rewrite Htotal.
  split; [exact Hlen |]. split; [intros ?; rewrite Hlen; lia |].
  split; [intros ->; split; reflexivity |].
  split; [| split].
  - intros Hin. apply list_elem_of_fmap in Hin as (i & Heq & Hi).
    apply dotted_last_inj in Heq. apply elem_of_seqZ in Hi. lia.
  - intros Hin. apply list_elem_of_fmap in Hin as (i & Heq & Hi).
    apply dotted_last_inj in Heq. apply elem_of_seqZ in Hi. lia.
  - split.
    + intros Hin. apply list_elem_of_fmap in Hin as (i & Heq & Hi).
      apply dotted_last_inj in Heq. apply elem_of_seqZ in Hi.
      split; intros Heq'; apply dotted_last_inj in Heq'; lia.
    + intros [Hnet Hbroad]. apply list_elem_of_fmap. exists d.
      split; [reflexivity |]. apply elem_of_seqZ.
      assert (d ≠ Z.land d m3) by (intros Heq; apply Hnet; congruence).
      assert (d ≠ Z.land d m3 + (255 - m3))
        by (intros Heq; apply Hbroad; congruence).
      lia.
Qed.

Lemma generateSubnetIPs_small_subnet_witness :
  ∃ info ips,
    calculateSubnet "192.168.1.50" "255.255.255.248" = Some info
    ∧ generateSubnetIPs info = Some ips
    ∧ ips = ["192.168.1.49"; "192.168.1.50"; "192.168.1.51"; "192.168.1.52";
             "192.168.1.53"; "192.168.1.54"]
    ∧ totalHosts info = 6
    ∧ Z.of_nat (length ips) = totalHosts info.
Proof.
  destruct (generateSubnetIPs_small_subnet 192 168 1 50 248
              ltac:(by apply octet_intro) ltac:(by apply octet_intro)
              ltac:(by apply octet_intro) ltac:(by apply octet_intro)
              ltac:(by apply octet_intro))
    as (info & ips & Hinfo & Hips & _ & _ & Heq & Htotal & _ & Hlen & _).
  exists info, ips. split; [exact Hinfo |]. split; [exact Hips |].
  split; [exact Heq |]. split; [exact Htotal | apply Hlen; lia].
Defined.

(** X4. For any other netmask, the hosts enumerated are the addresses
    .1 to .254 of the three leading octets of the local address, 254 of
    them, whatever the size of the subnet. *)
Theorem generateSubnetIPs_large_subnet a b c d m0 m1 m2 m3 :
  octet a → octet b → octet c → octet d →
  octet m0 → octet m1 → octet m2 → octet m3 →
  ¬ (m0 = 255 ∧ m1 = 255 ∧ m2 = 255) →
  ∃ info,
    calculateSubnet (dotted a b c d) (dotted m0 m1 m2 m3) = Some info
    ∧ generateSubnetIPs info = Some (dotted a b c <$> seqZ 1 254)
    ∧ totalHosts info = capacity m0 m1 m2 m3 - 2.
Proof.
  intros Ha Hb Hc Hd Hm0 Hm1 Hm2 Hm3 Hlarge.
  destruct (octet_bits a m0 Ha Hm0) as (_ & Ea & Hn0 & Hk0 & _).
  destruct (octet_bits b m1 Hb Hm1) as (_ & Eb & Hn1 & Hk1 & _).
  destruct (octet_bits c m2 Hc Hm2) as (_ & Ec & Hn2 & Hk2 & _).
  destruct (octet_bits d m3 Hd Hm3) as (_ & Ed & Hn3 & Hk3 & _).
  pose proof (calculateSubnet_dotted a b c d m0 m1 m2 m3
                Ha Hb Hc Hd Hm0 Hm1 Hm2 Hm3) as Hinfo.
  cbv zeta in Hinfo. rewrite Ea, Eb, Ec, Ed in Hinfo.
  eexists. split; [exact Hinfo |]. split; [| reflexivity].
  unfold generateSubnetIPs. cbn [firstHost lastHost localIp].
  unfold octet in *. rewrite !parts_of_dotted by lia.
  cbn [mbind option_bind lookup list_lookup].
  rewrite decide_False; [reflexivity |].
  intros ([= H0] & [= H1] & [= H2]). apply Hlarge. lia.
Qed.

Lemma generateSubnetIPs_large_subnet_witness :
  ∃ info ips,
    calculateSubnet "10.1.2.3" "255.255.0.0" = Some info
    ∧ generateSubnetIPs info = Some ips
    ∧ length ips = 254%nat
    ∧ totalHosts info = 65534.
Proof.
  destruct (generateSubnetIPs_large_subnet 10 1 2 3 255 255 0 0
              ltac:(by apply octet_intro) ltac:(by apply octet_intro)
              ltac:(by apply octet_intro) ltac:(by apply octet_intro)
              ltac:(by apply octet_intro) ltac:(by apply octet_intro)
              ltac:(by apply octet_intro) ltac:(by apply octet_intro)
              ltac:(intros (_ & _ & [=])))
    as (info & Hinfo & Hips & Htotal).
  exists info, (dotted 10 1 2 <$> seqZ 1 254).
  split; [exact Hinfo |]. split; [exact Hips |].
  split; [reflexivity | exact Htotal].
Defined.

(** ** The text between the braces *)

Lemma indexOf_from_app c pre rest : ∀ i,
  contains_char c pre = false →
  indexOf_from c (pre +:+ String c rest) i = i + Z.of_nat (String.length pre).
Proof.
  induction pre as [|a pre IH]; intros i.
  - intros _. rewrite append_nil_l. cbn. rewrite Ascii.eqb_refl. lia.
  - rewrite append_cons. cbn [contains_char indexOf_from String.length].
    destruct (Ascii.eqb a c); [discriminate |]. cbn [orb]. intros Hpre.
    rewrite IH by exact Hpre. lia.
Qed.

Lemma lastIndexOf_from_absent c s : ∀ i last,
  contains_char c s = false → lastIndexOf_from c s i last = last.
Proof.
  induction s as [|a s IH]; intros i last; [reflexivity |].
  cbn [contains_char lastIndexOf_from].
  destruct (Ascii.eqb a c); [discriminate |]. cbn [orb]. apply IH.
Qed.

Lemma lastIndexOf_from_app c s post : ∀ i last,
  contains_char c post = false →
  lastIndexOf_from c (s +:+ String c post) i last
  = i + Z.of_nat (String.length s).
Proof.
  induction s as [|a s IH]; intros i last Hpost.
  - rewrite append_nil_l. cbn [lastIndexOf_from String.length].
    rewrite Ascii.eqb_refl, lastIndexOf_from_absent by exact Hpost. lia.
  - rewrite append_cons. cbn [lastIndexOf_from String.length].
    rewrite IH by exact Hpost. lia.
Qed.

Lemma substring_0_app s t :
  String.substring 0 (String.length s) (s +:+ t) = s.
Proof.
  induction s as [|a s IH]; [by destruct t |].
  rewrite append_cons. cbn. rewrite IH. reflexivity.
Qed.

Lemma substring_skip_app pre t n :
  String.substring (String.length pre) n (pre +:+ t) = String.substring 0 n t.
Proof.
  induction pre as [|a pre IH]; [reflexivity |].
  rewrite append_cons. cbn. exact IH.
Qed.

Lemma length_append s t :
  String.length (s +:+ t) = (String.length s + String.length t)%nat.
Proof.
  induction s as [|a s IH]; [reflexivity |].
  rewrite append_cons. cbn. rewrite IH. reflexivity.
Qed.

Lemma append_assoc s t u : (s +:+ t) +:+ u = s +:+ t +:+ u.
Proof.
  induction s as [|a s IH]; [reflexivity |].
  rewrite !append_cons, IH. reflexivity.
Qed.

(** The handler reads the text from the first opening brace to the last
    closing brace. *)
Lemma message_try_extracts env pre body post :
  contains_char "{" pre = false →
  contains_char "}" post = false →
  message_try env (pre +:+ ("{" +:+ body +:+ "}") +:+ post)
  = JSON_parse env ("{" +:+ body +:+ "}").
Proof.
  intros Hpre Hpost. unfold message_try.
  remember ("{" +:+ body +:+ "}") as json eqn:Hjson.
  assert (Hlen : String.length json = S (S (String.length body))).
  { subst json. rewrite append_cons, append_nil_l. cbn [String.length].
    rewrite length_append. cbn. lia. }
  assert (Hstart : indexOf (pre +:+ json +:+ post) "{"
                   = Z.of_nat (String.length pre)).
  { unfold indexOf. subst json.
    change (pre +:+ ("{" +:+ body +:+ "}") +:+ post)
      with (pre +:+ String "{" ((body +:+ "}") +:+ post)).
    rewrite indexOf_from_app by exact Hpre. lia. }
  assert (Hend : lastIndexOf (pre +:+ json +:+ post) "}"
                 = Z.of_nat (String.length pre + String.length json) - 1).
  { unfold lastIndexOf. rewrite Hlen. subst json.
    replace (pre +:+ ("{" +:+ body +:+ "}") +:+ post)
      with ((pre +:+ "{" +:+ body) +:+ String "}" post)
      by (rewrite !append_assoc; reflexivity).
    rewrite lastIndexOf_from_app by exact Hpost.
    rewrite !length_append. cbn [String.length]. lia. }
  rewrite Hstart, Hend.
  destruct (Z.eqb_spec (Z.of_nat (String.length pre)) (-1)) as [? | _]; [lia |].
  destruct (Z.eqb_spec (Z.of_nat (String.length pre + String.length json) - 1)
              (-1)) as [? | _]; [lia |].
  cbn [orb].
  assert (Hsub : substring (pre +:+ json +:+ post)
                   (Z.of_nat (String.length pre))
                   (Z.of_nat (String.length pre + String.length json) - 1 + 1)
                 = json).
  { unfold substring. rewrite !length_append.
    rewrite (Z.max_l (Z.of_nat (String.length pre))) by lia.
    rewrite (Z.max_l (_ - 1 + 1)) by lia.
    rewrite !(Z.min_l _ (Z.of_nat _)) by lia.
    rewrite Z.min_l, Z.max_r by lia.
    rewrite Nat2Z.id.
    replace (Z.to_nat (Z.of_nat (String.length pre + String.length json)
                       - 1 + 1 - Z.of_nat (String.length pre)))
      with (String.length json) by lia.
    rewrite substring_skip_app. apply substring_0_app. }
  rewrite Hsub. destruct (JSON_parse env json); reflexivity.
Qed.

(** X7. When the reply is a JSON text that opens with a brace and
    closes with one, wrapped in any leading bytes without an opening
    brace and any trailing bytes without a closing brace,
    [discover4DServer] resolves to what [JSON.parse] makes of exactly
    that text, and to [null] when [JSON.parse] throws on it. *)
Theorem discover4DServer_framed_reply env n host port timeout pre body post :
  contains_char "{" pre = false →
  contains_char "}" post = false →
  udp_socket env n build4DDiscoveryPacket host port timeout
  = Message (pre +:+ ("{" +:+ body +:+ "}") +:+ post) →
  discover4DServer env n host port timeout
  = match JSON_parse env ("{" +:+ body +:+ "}") with
    | Normal info => info
    | Throw _ => None
    end.
Proof.
  intros Hpre Hpost Hev.
  unfold discover4DServer, discover4DServer_settle. rewrite Hev.
  unfold on_message. rewrite message_try_extracts by assumption.
  destruct (JSON_parse env _); reflexivity.
Qed.

Lemma discover4DServer_framed_reply_witness :
  discover4DServer (lan6 []) 0 "192.168.1.52" 19813 500 = Some reply_info.
Proof.
  exact (discover4DServer_framed_reply (lan6 []) 0 "192.168.1.52" 19813 500
           "4D"
           (quoted "host" +:+ ":" +:+ quoted "srv" +:+ ","
            +:+ quoted "service" +:+ ":" +:+ quoted "4D Server V" +:+ ","
            +:+ quoted "database" +:+ ":" +:+ quoted "Invoices" +:+ ","
            +:+ quoted "port" +:+ ":19813")
           "!" eq_refl eq_refl eq_refl).
Defined.

Import JSText ManagerVocabulary.

(** * serverManager.ts: saved servers, link files and names *)

(** ** The saved servers *)

Section SavedServerList.
Import SavedServers.
Context {Config : Type}.
Variable get : Config → list Server4D.
Variable update :
  list Server4D → ConfigurationTarget → Config → completion Config.

Lemma same_server_endpoint host0 port0 s :
  same_server host0 port0 s = true ↔ endpoint s = (host0, port0).
Proof.
  unfold same_server, endpoint.
  rewrite andb_true_iff, String.eqb_eq, Z.eqb_eq.
  split; [intros [-> ->]; reflexivity | intros [= -> ->]; done].
Qed.

Lemma existsb_same_server host0 port0 servers :
  existsb (same_server host0 port0) servers = true
  ↔ (host0, port0) ∈ endpoint <$> servers.
Proof.
  rewrite existsb_exists, list_elem_of_fmap. split.
  - intros (s & Hs & Hsame). exists s.
    apply same_server_endpoint in Hsame. by rewrite list_elem_of_In.
  - intros (s & Hkey & Hs). exists s.
    rewrite <- list_elem_of_In, same_server_endpoint. done.
Qed.

Lemma filter_other_servers host0 port0 servers :
  List.filter (fun s => negb (same_server host0 port0 s)) servers
  = filter (fun s => endpoint s ≠ (host0, port0)) servers.
Proof.
  induction servers as [|s servers IH]; [reflexivity |].
  cbn [List.filter]. rewrite IH.
  destruct (same_server host0 port0 s) eqn:Hsame; cbn [negb].
  - apply same_server_endpoint in Hsame.
    rewrite filter_cons_False; [reflexivity | by intros []].
  - rewrite filter_cons_True; [reflexivity |].
    intros Hkey. apply same_server_endpoint in Hkey. congruence.
Qed.

Lemma filter_same_length {A} (P : A → Prop) `{∀ x, Decision (P x)} (l : list A) :
  length (filter P l) = length l ↔ Forall P l.
Proof.
  induction l as [|x l IH]; [by split |].
  pose proof (length_filter P l) as Hle.
  destruct (decide (P x)) as [Hx | Hx].
  - rewrite filter_cons_True by exact Hx. cbn [length].
    rewrite Forall_cons. split.
    + intros [= Hlen]. split; [exact Hx | by apply IH].
    + intros [_ Hl]. f_equal. by apply IH.
  - rewrite filter_cons_False by exact Hx. cbn [length].
    rewrite Forall_cons. split; [lia | tauto].
Qed.

Lemma filter_all {A} (P : A → Prop) `{∀ x, Decision (P x)} (l : list A) :
  Forall P l → filter P l = l.
Proof.
  induction 1 as [|x l Hx _ IH]; [reflexivity |].
  rewrite filter_cons_True by exact Hx. by rewrite IH.
Qed.

Lemma addServer_cases server target config :
  addServer get update server target config
  = if decide (endpoint server ∈ endpoint <$> get config) then
      Throw ("Server " +:+ host server +:+ ":" +:+ JS.toString (port server)
             +:+ " already exists")
    else update (get config ++ [server]) target config.
Proof.
  unfold addServer, getSavedServers, saveServers.
  destruct (existsb _ _) eqn:Hexists.
  - apply existsb_same_server in Hexists. by rewrite decide_True.
  - rewrite decide_False; [reflexivity |].
    intros Hin. apply existsb_same_server in Hin. congruence.
Qed.

Lemma removeServer_cases host0 port0 config :
  removeServer get update host0 port0 config
  = if decide ((host0, port0) ∈ endpoint <$> get config) then
      update (filter (fun s => endpoint s ≠ (host0, port0)) (get config))
        Global config
    else
      Throw ("Server " +:+ host0 +:+ ":" +:+ JS.toString port0 +:+ " not found").
Proof.
  unfold removeServer, getSavedServers, saveServers.
  rewrite filter_other_servers.
  destruct (Nat.eqb_spec
              (length (filter (fun s => endpoint s ≠ (host0, port0)) (get config)))
              (length (get config))) as [Hlen | Hlen].
  - rewrite decide_False; [reflexivity |].
    intros (s & Hkey & Hs)%list_elem_of_fmap.
    apply filter_same_length in Hlen. rewrite Forall_forall in Hlen.
    by apply (Hlen s Hs).
  - rewrite decide_True; [reflexivity |].
    destruct (decide ((host0, port0) ∈ endpoint <$> get config)) as [|Hnot];
      [done |].
    exfalso. apply Hlen, filter_same_length, Forall_forall.
    intros s Hs Hkey. apply Hnot, list_elem_of_fmap. by exists s.
Qed.

(** When a list that was written is the list read next: *)
Hypothesis get_update :
  ∀ servers target config config',
    update servers target config = Normal config' → get config' = servers.

(** X11. [addServer] refuses a server whose host and port are those of
    a saved server, with an error that names them, and writes nothing;
    otherwise it writes the saved list with the server added at its
    end.  Hence a list without two servers of the same host and port
    stays so. *)
Theorem addServer_keeps_endpoints_distinct server target config :
  (endpoint server ∈ endpoint <$> get config →
   addServer get update server target config
   = Throw ("Server " +:+ host server +:+ ":" +:+ JS.toString (port server)
            +:+ " already exists"))
  ∧ (endpoint server ∉ endpoint <$> get config →
     addServer get update server target config
     = update (get config ++ [server]) target config)
  ∧ ∀ config',
      addServer get update server target config = Normal config' →
      get config' = get config ++ [server]
      ∧ (endpoint server ∉ endpoint <$> get config)
      ∧ (NoDup (endpoint <$> get config) → NoDup (endpoint <$> get config')).
Proof.
  rewrite addServer_cases. split; [| split].
  - intros Hin. by rewrite decide_True.
  - intros Hnot. by rewrite decide_False.
  - intros config'.
    destruct (decide (endpoint server ∈ endpoint <$> get config)) as [|Hnot];
      [discriminate |].
    intros Hwritten%get_update. rewrite Hwritten.
    split; [reflexivity |]. split; [exact Hnot |].
    intros Hdistinct. rewrite fmap_app. apply NoDup_app.
    split; [exact Hdistinct |]. split; [| apply NoDup_singleton].
    intros key Hkey ->%list_elem_of_singleton. exact (Hnot Hkey).
Qed.

(** X12. [removeServer] fails with "not found" when no saved server has
    the host and the port, and writes nothing; otherwise it writes, to
    the global settings, the saved list without the servers of that host
    and port, the others in their order.  After it no saved server has
    that host and port. *)
Theorem removeServer_removes_endpoint host0 port0 config :
  ((host0, port0) ∉ endpoint <$> get config →
   removeServer get update host0 port0 config
   = Throw ("Server " +:+ host0 +:+ ":" +:+ JS.toString port0 +:+ " not found"))
  ∧ ((host0, port0) ∈ endpoint <$> get config →
     removeServer get update host0 port0 config
     = update (filter (fun s => endpoint s ≠ (host0, port0)) (get config))
         Global config)
  ∧ ∀ config',
      removeServer get update host0 port0 config = Normal config' →
      get config' = filter (fun s => endpoint s ≠ (host0, port0)) (get config)
      ∧ ((host0, port0) ∈ endpoint <$> get config)
      ∧ ((host0, port0) ∉ endpoint <$> get config')
      ∧ get config' ⊆ get config.
Proof.
  rewrite removeServer_cases. split; [| split].
  - intros Hnot. by rewrite decide_False.
  - intros Hin. by rewrite decide_True.
  - intros config'.
    destruct (decide ((host0, port0) ∈ endpoint <$> get config)) as [Hin |];
      [| discriminate].
    intros Hwritten%get_update. rewrite Hwritten.
    split; [reflexivity |]. split; [exact Hin |]. split.
    + intros (s & Hkey & Hs)%list_elem_of_fmap.
      apply list_elem_of_filter in Hs as [Hother _]. congruence.
    + intros s Hs. by apply list_elem_of_filter in Hs as [_ Hs].
Qed.

(** X13. Removing the server that [addServer] has just added writes
    back the list that was saved before. *)
Theorem addServer_then_removeServer server target config config1 :
  addServer get update server target config = Normal config1 →
  removeServer get update (host server) (port server) config1
  = update (get config) Global config1.
Proof.
  rewrite addServer_cases, removeServer_cases.
  destruct (decide (endpoint server ∈ endpoint <$> get config)) as [|Hnot];
    [discriminate |].
  intros Hwritten%get_update. rewrite Hwritten.
  rewrite decide_True
    by (rewrite fmap_app, elem_of_app; right; by apply list_elem_of_singleton).
  f_equal. rewrite filter_app.
  rewrite filter_cons_False by (by intros []).
  rewrite filter_nil, app_nil_r.
  apply filter_all, Forall_forall. intros s Hs Hkey.
  apply Hnot, list_elem_of_fmap. by exists s.
Qed.

End SavedServerList.

Lemma plain_update_read servers target (config config' : list SavedServers.Server4D) :
  plain_update servers target config = Normal config' →
  plain_get config' = servers.
Proof. by intros [= <-]. Qed.

Lemma addServer_keeps_endpoints_distinct_witness :
  SavedServers.addServer plain_get plain_update lab SavedServers.Global [office]
  = Normal [office; lab]
  ∧ NoDup (endpoint <$> [office; lab]).
Proof.
  destruct (addServer_keeps_endpoints_distinct plain_get plain_update
              plain_update_read lab SavedServers.Global [office])
    as (_ & Hadd & Hwritten).
  assert (Hrun : SavedServers.addServer plain_get plain_update lab
                   SavedServers.Global [office] = Normal [office; lab]).
  { rewrite Hadd; [reflexivity |].
    by intros [= ]%list_elem_of_singleton. }
  split; [exact Hrun |].
  destruct (Hwritten _ Hrun) as (_ & _ & Hdistinct).
  apply Hdistinct, NoDup_singleton.
Defined.

Lemma removeServer_removes_endpoint_witness :
  SavedServers.removeServer plain_get plain_update "10.0.0.5" 19813
    [office; lab]
  = Normal [lab]
  ∧ ("10.0.0.5", 19813) ∉ endpoint <$> [lab].
Proof.
  destruct (removeServer_removes_endpoint plain_get plain_update
              plain_update_read "10.0.0.5" 19813 [office; lab])
    as (_ & _ & Hwritten).
  assert (Hrun : SavedServers.removeServer plain_get plain_update
                   "10.0.0.5" 19813 [office; lab] = Normal [lab])
    by reflexivity.
  split; [exact Hrun |].
  destruct (Hwritten _ Hrun) as (_ & _ & Hgone & _). exact Hgone.
Defined.

Lemma addServer_then_removeServer_witness :
  SavedServers.removeServer plain_get plain_update "10.0.0.6" 19813
    [office; lab]
  = Normal [office].
Proof.
  exact (addServer_then_removeServer plain_get plain_update plain_update_read
           lab SavedServers.Workspace [office] [office; lab] eq_refl).
Defined.

(** ** The age of the scan cache *)

Section CacheAge.
Import ServerManager.

Lemma age_suffix_nonempty n suffix :
  suffix ≠ "" → JS.toString n +:+ suffix ≠ "".
Proof.
  intros Hsuffix. destruct (JS.toString n); [exact Hsuffix | discriminate].
Qed.

(** X14. [getScanCacheAge] is the empty string exactly when there is no
    cache.  Otherwise it shows the whole seconds elapsed since the scan
    while they are fewer than 60, and the whole minutes from then on;
    right after [setScanCache] it is "0s ago". *)
Theorem getScanCacheAge_format now scanCache :
  (∀ cache, scanCache = Some cache →
     getScanCacheAge now scanCache
     = if now - timestamp cache <? 60000
       then JS.toString ((now - timestamp cache) / 1000) +:+ "s ago"
       else JS.toString ((now - timestamp cache) / 60000) +:+ "m ago")
  ∧ (getScanCacheAge now scanCache = "" ↔ scanCache = None)
  ∧ ∀ servers ports,
      getScanCacheAge now (setScanCache now servers ports scanCache)
      = "0s ago".
Proof.
  split; [| split].
  - intros cache ->. unfold getScanCacheAge. cbn zeta.
    set (ageMs := now - timestamp cache).
    destruct (Z.ltb_spec ageMs 60000) as [Hyoung | Hold].
    + assert (ageMs / 1000 < 60) by (apply Z.div_lt_upper_bound; lia).
      destruct (Z.ltb_spec (ageMs / 1000) 60); [reflexivity | lia].
    + assert (60 <= ageMs / 1000) by (apply Z.div_le_lower_bound; lia).
      destruct (Z.ltb_spec (ageMs / 1000) 60); [lia |].
      rewrite Z.div_div by lia. reflexivity.
  - split; [| by intros ->].
    destruct scanCache as [cache |]; [| done].
    unfold getScanCacheAge. cbn zeta. intros Hempty. exfalso.
    destruct (_ <? 60); revert Hempty; by apply age_suffix_nonempty.
  - intros servers ports. unfold getScanCacheAge, setScanCache.
    cbn [timestamp]. rewrite Z.sub_diag. reflexivity.
Qed.

End CacheAge.

(** ** Link files *)

Section Links.
Import SavedServers ServerLinks.

Lemma substring_whole s : String.substring 0 (String.length s) s = s.
Proof. induction s as [|a s IH]; [reflexivity |]. cbn. by rewrite IH. Qed.

Lemma endsWith_app s suffix : endsWith (s +:+ suffix) suffix = true.
Proof.
  unfold endsWith. rewrite length_append.
  apply andb_true_intro. split; [apply Nat.leb_le; lia |].
  replace (String.length s + String.length suffix - String.length suffix)%nat
    with (String.length s) by lia.
  rewrite substring_skip_app, substring_whole. apply String.eqb_refl.
Qed.

Lemma isLinkFile_linkFileName server : isLinkFile (linkFileName server) = true.
Proof.
  unfold isLinkFile, linkFileName. apply andb_true_intro. split.
  - reflexivity.
  - rewrite <- !append_assoc. apply endsWith_app.
Qed.


(** X16. [cleanupOld4DLinks] never fails and writes nothing.  It
    unlinks exactly the entries of the temporary directory whose name
    starts with "4d-helper-" and ends with ".4dlink", whose [stat]
    succeeded, and that were modified more than an hour (3 600 000 ms)
    before; when the directory cannot be read it unlinks nothing. *)
Theorem cleanupOld4DLinks_only_old_links fs :
  let run := cleanupOld4DLinks fs in
  link_outcome run = Normal tt
  ∧ written run = []
  ∧ (∀ filePath,
       filePath ∈ unlinked run ↔
       ∃ files i file mtimeMs,
         readdir fs (tmpdir fs) = Normal files
         ∧ List.filter isLinkFile files !! i = Some file
         ∧ filePath = path_join fs (tmpdir fs) file
         ∧ stat_mtimeMs fs i filePath = Normal mtimeMs
         ∧ Date_now fs i - mtimeMs > 3600000)
  ∧ (∀ filePath, filePath ∈ unlinked run →
       ∃ files file,
         readdir fs (tmpdir fs) = Normal files ∧ file ∈ files
         ∧ startsWith file "4d-helper-" = true
         ∧ endsWith file ".4dlink" = true
         ∧ filePath = path_join fs (tmpdir fs) file)
  ∧ ((∃ message, readdir fs (tmpdir fs) = Throw message) → unlinked run = []).
Proof.
  intros run.
  assert (Hexact : ∀ filePath,
    filePath ∈ unlinked run ↔
    ∃ files i file mtimeMs,
      readdir fs (tmpdir fs) = Normal files
      ∧ List.filter isLinkFile files !! i = Some file
      ∧ filePath = path_join fs (tmpdir fs) file
      ∧ stat_mtimeMs fs i filePath = Normal mtimeMs
      ∧ Date_now fs i - mtimeMs > 3600000).
  { intros filePath. unfold run, cleanupOld4DLinks.
    destruct (readdir fs (tmpdir fs)) as [files | message]; cbn [unlinked].
    - rewrite list_elem_of_join. split.
      + intros (paths & Hpath & Hpaths).
        apply elem_of_lookup_imap in Hpaths as (i & file & -> & Hfile).
        unfold cleanup_file in Hpath.
        destruct (stat_mtimeMs fs i _) as [mtimeMs |] eqn:Hstat;
          [| by apply elem_of_nil in Hpath].
        destruct (Z.gtb_spec (Date_now fs i - mtimeMs) (60 * 60 * 1000))
          as [Hold | Hyoung]; [| by apply elem_of_nil in Hpath].
        apply list_elem_of_singleton in Hpath as ->.
        exists files, i, file, mtimeMs. repeat split; try done. lia.
      + intros (files' & i & file & mtimeMs & [= <-] & Hfile & -> & Hstat & Hold).
        exists (cleanup_file fs i file). split.
        * unfold cleanup_file. rewrite Hstat.
          destruct (Z.gtb_spec (Date_now fs i - mtimeMs) (60 * 60 * 1000));
            [by apply list_elem_of_singleton | lia].
        * apply elem_of_lookup_imap. by exists i, file.
    - split; [by intros ?%elem_of_nil |].
      by intros (files' & i & file & mtimeMs & [= ] & _). }
  split; [unfold run, cleanupOld4DLinks; by destruct (readdir _ _) |].
  split; [unfold run, cleanupOld4DLinks; by destruct (readdir _ _) |].
  split; [exact Hexact |]. split.
  - intros filePath (files & i & file & mtimeMs & Hdir & Hfile & -> & _)%Hexact.
    apply list_elem_of_lookup_2, list_elem_of_In, filter_In in Hfile
      as [Hfile Hlink].
    unfold isLinkFile in Hlink. apply andb_prop in Hlink as [Hstart Hend].
    exists files, file. rewrite list_elem_of_In. done.
  - intros [message Hdir]. unfold run, cleanupOld4DLinks. by rewrite Hdir.
Qed.

Lemma contains_char_app c s t :
  contains_char c (s +:+ t) = contains_char c s || contains_char c t.
Proof.
  induction s as [|a s IH]; [reflexivity |].
  rewrite append_cons. cbn [contains_char]. by rewrite IH, orb_assoc.
Qed.

Lemma char_split c s1 t1 : ∀ s2 t2,
  contains_char c t1 = false → contains_char c t2 = false →
  s1 +:+ String c t1 = s2 +:+ String c t2 → s1 = s2 ∧ t1 = t2.
Proof.
  assert (Hhere : ∀ s t, contains_char c (s +:+ String c t) = true).
  { intros s t. rewrite contains_char_app. cbn [contains_char].
    by rewrite Ascii.eqb_refl, orb_true_r. }
  induction s1 as [|a s1 IH]; intros [|a2 s2] t2 H1 H2;
    rewrite ?append_cons, ?append_nil_l.
  - by intros [= ->].
  - intros [= <- ->]. by rewrite Hhere in H1.
  - intros [= -> <-]. by rewrite Hhere in H2.
  - intros [= -> Heq]. by destruct (IH s2 t2 H1 H2 Heq) as [-> ->].
Qed.

Lemma contains_dash_uint d :
  contains_char "-" (NilEmpty.string_of_uint d) = false.
Proof. induction d; cbn; auto. Qed.

Lemma contains_dash_toString n : 0 <= n → contains_char "-" (JS.toString n) = false.
Proof.
  intros Hn. unfold JS.toString.
  destruct n as [|p|p]; [reflexivity | | lia].
  cbn [Z.to_int NilZero.string_of_int]. unfold NilZero.string_of_uint.
  destruct (Pos.to_uint p); first [reflexivity | apply contains_dash_uint].
Qed.

Lemma replace_dots_inj s : ∀ t,
  contains_char "-" s = false → contains_char "-" t = false →
  replace_dots s = replace_dots t → s = t.
Proof.
  induction s as [|a s IH]; intros [|b t] Hs Ht Heq; try done.
  cbn [replace_dots contains_char] in *.
  apply orb_false_elim in Hs as [Ha Hs]. apply orb_false_elim in Ht as [Hb Ht].
  injection Heq as Hab Heq. rewrite (IH t Hs Ht Heq). f_equal.
  destruct (Ascii.eqb_spec a "."), (Ascii.eqb_spec b "."); subst;
    first [ done | by rewrite Ascii.eqb_refl in Ha
          | by rewrite Ascii.eqb_refl in Hb ].
Qed.

Lemma append_inv_tail (s t x : string) : s +:+ x = t +:+ x → s = t.
Proof.
  revert t. induction s as [|a s IH]; intros [|b t] Heq.
  - done.
  - apply (f_equal String.length) in Heq.
    rewrite append_nil_l, length_append in Heq. cbn in Heq. lia.
  - apply (f_equal String.length) in Heq.
    rewrite append_nil_l, length_append in Heq. cbn in Heq. lia.
  - rewrite !append_cons in Heq. injection Heq as -> Heq.
    by rewrite (IH t Heq).
Qed.



End Links.

(** ** Names of discovered servers *)

Section ServerNames.
Import ServerLinks.

Lemma skip_digits_uint d rest :
  skip_digits (NilEmpty.string_of_uint d +:+ rest) = skip_digits rest.
Proof. induction d; cbn [NilEmpty.string_of_uint]; rewrite ?append_cons; auto. Qed.

Lemma digits1_uint d rest :
  digits1 (NilZero.string_of_uint d +:+ rest) = Some (skip_digits rest).
Proof.
  destruct d; cbn [NilZero.string_of_uint NilEmpty.string_of_uint];
    rewrite append_cons; cbn [digits1 is_digit];
    first [ now rewrite skip_digits_uint | reflexivity ].
Qed.

Lemma digits1_toString n rest :
  0 <= n → digits1 (JS.toString n +:+ rest) = Some (skip_digits rest).
Proof.
  intros Hn. unfold JS.toString.
  destruct n as [|p|p]; [| | lia]; cbn [Z.to_int NilZero.string_of_int];
    apply digits1_uint.
Qed.

Lemma append_nil_r s : s +:+ "" = s.
Proof. induction s as [|a s IH]; [reflexivity |]. by rewrite append_cons, IH. Qed.

Lemma digits_dot_toString n rest :
  0 <= n →
  digits1 (JS.toString n +:+ "." +:+ rest) ≫= literal "." = Some rest.
Proof. intros Hn. by rewrite digits1_toString. Qed.

Lemma ipMatch_dotted a b c d :
  0 <= a → 0 <= b → 0 <= c → 0 <= d → ipMatch (dotted a b c d) = true.
Proof.
  intros Ha Hb Hc Hd. unfold ipMatch, dotted, print_parts.
  cbn [fmap list_fmap JS.join_dot].
  rewrite (digits_dot_toString a) by exact Ha. cbn [mbind option_bind].
  rewrite (digits_dot_toString b) by exact Hb. cbn [mbind option_bind].
  rewrite (digits_dot_toString c) by exact Hc. cbn [mbind option_bind].
  rewrite <- (append_nil_r (JS.toString d)).
  rewrite digits1_toString by exact Hd. reflexivity.
Qed.

Lemma skip_digits_chars s : ip_chars (skip_digits s) = true → ip_chars s = true.
Proof.
  induction s as [|c s IH]; [done |]. cbn [skip_digits].
  destruct (is_digit c) eqn:Hc; [| done].
  intros Hrest. cbn [ip_chars]. by rewrite Hc, IH.
Qed.

Lemma digits1_chars s rest :
  digits1 s = Some rest → ip_chars rest = true → ip_chars s = true.
Proof.
  destruct s as [|c s]; [done |]. cbn [digits1 ip_chars].
  destruct (is_digit c); [| done]. intros [= <-] Hrest.
  by apply skip_digits_chars.
Qed.

Lemma literal_dot_chars s rest :
  literal "." s = Some rest → ip_chars rest = true → ip_chars s = true.
Proof.
  destruct s as [|c s]; [done |]. cbn [literal ip_chars].
  destruct (Ascii.eqb c "."); [| done]. intros [= <-] ->.
  by rewrite orb_true_r.
Qed.

Lemma ipMatch_chars host0 : ipMatch host0 = true → ip_chars host0 = true.
Proof.
  unfold ipMatch.
  destruct (digits1 host0) as [r1|] eqn:H1; [| done]. cbn [mbind option_bind].
  destruct (literal "." r1) as [r2|] eqn:H2; [| done]. cbn [mbind option_bind].
  destruct (digits1 r2) as [r3|] eqn:H3; [| done]. cbn [mbind option_bind].
  destruct (literal "." r3) as [r4|] eqn:H4; [| done]. cbn [mbind option_bind].
  destruct (digits1 r4) as [r5|] eqn:H5; [| done]. cbn [mbind option_bind].
  destruct (literal "." r5) as [r6|] eqn:H6; [| done]. cbn [mbind option_bind].
  destruct (digits1 r6) as [r7|] eqn:H7; [| done].
  destruct r7; [| done]. intros _.
  eauto 10 using digits1_chars, literal_dot_chars.
Qed.

(** X17. Without discovery information, [generateServerName] names a
    dotted quad of non-negative numbers, such as every host the subnet
    scans enumerate, "Server @ host:port"; a host with a character that
    is neither a digit nor a dot keeps the plain name "host:port".  With
    discovery information the name is "database (hostname)", whatever
    the host and the port. *)
Theorem generateServerName_fallback host0 port0 :
  (∀ a b c d, 0 <= a → 0 <= b → 0 <= c → 0 <= d →
     host0 = dotted a b c d →
     generateServerName host0 port0 None
     = "Server @ " +:+ host0 +:+ ":" +:+ JS.toString port0)
  ∧ (ip_chars host0 = false →
     generateServerName host0 port0 None = host0 +:+ ":" +:+ JS.toString port0)
  ∧ ∀ info,
      generateServerName host0 port0 (Some info)
      = info_database info +:+ " (" +:+ info_host info +:+ ")".
Proof.
  split; [| split].
  - intros a b c d Ha Hb Hc Hd ->. unfold generateServerName.
    by rewrite ipMatch_dotted.
  - intros Hchars. unfold generateServerName.
    destruct (ipMatch host0) eqn:Hmatch; [| reflexivity].
    apply ipMatch_chars in Hmatch. congruence.
  - reflexivity.
Qed.

End ServerNames.

(** * launcher.ts *)

Section Launching.
Import Launcher.

Lemma length_join_elem sep parts x :
  x ∈ parts → (String.length x <= String.length (join sep parts))%nat.
Proof.
  induction parts as [|p parts IH]; [by intros ?%elem_of_nil |].
  intros Hx. destruct parts as [|q parts].
  - apply list_elem_of_singleton in Hx as ->. done.
  - change (join sep (p :: q :: parts))
      with (p +:+ sep +:+ join sep (q :: parts)).
    rewrite !length_append.
    apply elem_of_cons in Hx as [-> | Hx]; [lia |].
    specialize (IH Hx). lia.
Qed.

Lemma join_nonempty sep parts x :
  x ∈ parts → x ≠ "" → join sep parts ≠ "".
Proof.
  intros Hx Hnonempty Hjoin. apply (length_join_elem sep) in Hx.
  rewrite Hjoin in Hx. destruct x; [done | cbn in Hx; lia].
Qed.

Lemma push_if_here cond arg args : cond = true → arg ∈ push_if cond arg args.
Proof. intros ->. apply elem_of_app. right. by apply list_elem_of_singleton. Qed.

Lemma push_if_later cond arg args x : x ∈ args → x ∈ push_if cond arg args.
Proof. intros Hx. destruct cond; [apply elem_of_app; by left | exact Hx]. Qed.

Lemma push_if_false arg args : push_if false arg args = args.
Proof. reflexivity. Qed.

(** X18. [buildCliArgsString] is empty exactly when [hasCliOptions] is
    false: the plain form of the macOS command is used exactly when
    there is no argument to pass. *)
Theorem buildCliArgsString_empty options :
  buildCliArgsString options = "" ↔ hasCliOptions options = false.
Proof.
  unfold buildCliArgsString, hasCliOptions. cbn zeta. split.
  - intros Hempty. apply not_true_is_false. intros Hsome.
    revert Hempty.
    repeat (apply orb_prop in Hsome as [Hsome | Hsome]);
      (eapply join_nonempty;
       [ repeat first [ solve [apply push_if_here; exact Hsome]
                      | apply push_if_later ]
       | discriminate ]).
  - intros Hnone.
    repeat (apply orb_false_elim in Hnone as [Hnone ?]).
    repeat match goal with H : _ = false |- _ => rewrite H; clear H end.
    reflexivity.
Qed.

(** X19. [open4DProject] runs at most one command, and runs it only
    after the application and the project file, and the data file when
    one is given, were found to exist, on macOS or Windows.  Otherwise it
    fails without running anything; it succeeds only when the command it
    ran reported no error. *)
Theorem open4DProject_guards machine appPath projectPath options :
  let run := open4DProject machine appPath projectPath options in
  (commands run = [] ∨ ∃ command, commands run = [command])
  ∧ (commands run ≠ [] →
     access machine 0 appPath = true
     ∧ access machine 1 projectPath = true
     ∧ (∀ file, dataFile options = Some file → file ≠ "" →
                access machine 2 file = true)
     ∧ (process_platform machine = "darwin"
        ∨ process_platform machine = "win32"))
  ∧ (commands run = [] → ∃ message, launch_outcome run = Throw message)
  ∧ (access machine 0 appPath = false →
     run = rejected ("4D application not found: " +:+ appPath))
  ∧ (access machine 0 appPath = true → access machine 1 projectPath = false →
     run = rejected ("Project file not found: " +:+ projectPath))
  ∧ (launch_outcome run = Normal tt →
     ∃ command, commands run = [command] ∧ exec machine command = None).
Proof.
  intros run. unfold run, open4DProject, fileExists.
  destruct (access machine 0 appPath) eqn:Happ; cbn [negb];
    [| unfold rejected; cbn; split_and!; eauto; done].
  destruct (access machine 1 projectPath) eqn:Hproject; cbn [negb];
    [| unfold rejected; cbn; split_and!; eauto; done].
  assert (Hdata : given (dataFile options)
                  && negb (access machine 2 (template (dataFile options)))
                  = false →
                  ∀ file, dataFile options = Some file → file ≠ "" →
                          access machine 2 file = true).
  { intros Hcheck file Hfile Hnonempty. rewrite Hfile in Hcheck.
    destruct file; [done |]. cbn in Hcheck.
    by destruct (access machine 2 _). }
  destruct (given (dataFile options) && _) eqn:Hcheck;
    [unfold rejected; cbn; split_and!; eauto; done |].
  specialize (Hdata eq_refl).
  destruct (String.eqb_spec (process_platform machine) "darwin") as [Hmac |].
  { unfold openOnMac, run_command. cbn [commands launch_outcome].
    split_and!; eauto; try done.
    destruct (exec machine _) eqn:Hexec; [done | eauto]. }
  destruct (String.eqb_spec (process_platform machine) "win32") as [Hwin |].
  { unfold openOnWindows, run_command. cbn [commands launch_outcome].
    split_and!; eauto; try done.
    destruct (exec machine _) eqn:Hexec; [done | eauto]. }
  unfold rejected; cbn; split_and!; eauto; done.
Qed.

(** X20. The summary of the launch options shown after a launch is
    empty exactly when no opening mode, no startup skip, no headless run
    and no choice about the data was asked for; a summary that is not
    empty implies that the command was given arguments. *)
Theorem summarizeLaunchOptions_empty options :
  (summarizeLaunchOptions options = "" ↔
   chosen (openingMode options) = false
   ∧ enabled (skipOnStartup options) = false
   ∧ enabled (headless options) = false
   ∧ enabled (dataless options) = false
   ∧ enabled (createData options) = false
   ∧ given (dataFile options) = false)
  ∧ (summarizeLaunchOptions options ≠ "" → hasCliOptions options = true).
Proof.
  assert (Hiff : summarizeLaunchOptions options = "" ↔
    chosen (openingMode options) = false
    ∧ enabled (skipOnStartup options) = false
    ∧ enabled (headless options) = false
    ∧ enabled (dataless options) = false
    ∧ enabled (createData options) = false
    ∧ given (dataFile options) = false).
  { unfold summarizeLaunchOptions. cbn zeta.
    destruct (chosen (openingMode options)), (enabled (skipOnStartup options)),
      (enabled (headless options)), (enabled (dataless options)),
      (enabled (createData options)), (given (dataFile options));
      cbn [push_if app length Nat.eqb]; split;
      first [ discriminate | by intros (? & ? & ? & ? & ? & ?) | done ]. }
  split; [exact Hiff |].
  intros Hsummary. apply not_false_iff_true. intros Hnone.
  apply Hsummary, Hiff. unfold hasCliOptions in Hnone.
  repeat (apply orb_false_elim in Hnone as [Hnone ?]). done.
Qed.

End Launching.

(** * projectFinder.ts *)

Section Finding.
Import ProjectFinder FinderVocabulary.
Variable lib : Path.

Lemma elem_of_foldl_step {A B} (step : list A → B → list A)
    (Q : B → A → Prop) entries :
  (∀ results x f, x ∈ entries → (f ∈ step results x ↔ f ∈ results ∨ Q x f)) →
  ∀ results f,
    f ∈ foldl step results entries ↔ f ∈ results ∨ ∃ x, x ∈ entries ∧ Q x f.
Proof.
  induction entries as [|x entries IH]; intros Hstep results f.
  - cbn. split; [by left |]. intros [Hf | (x & Hx & _)]; [done |].
    by apply elem_of_nil in Hx.
  - cbn [foldl]. rewrite IH.
    2:{ intros results' y g Hy. apply Hstep. by right. }
    rewrite Hstep by left. split.
    + intros [[Hf | Hq] | (y & Hy & Hq)].
      * by left.
      * right. exists x. split; [left | done].
      * right. exists y. split; [by right | done].
    + intros [Hf | (y & Hy & Hq)]; [by do 2 left |].
      apply elem_of_cons in Hy as [-> | Hy]; [left; by right |].
      right. by exists y.
Qed.

Lemma collect_files_spec basePath currentPath results entries f :
  f ∈ collect_files lib basePath currentPath results entries ↔
  f ∈ results
  ∨ ∃ entry_name,
      File entry_name ∈ entries ∧ endsWith entry_name ".4DProject" = true
      ∧ f = project_file lib basePath currentPath entry_name.
Proof.
  unfold collect_files.
  rewrite (elem_of_foldl_step _
    (fun entry f => ∃ entry_name,
       entry = File entry_name ∧ endsWith entry_name ".4DProject" = true
       ∧ f = project_file lib basePath currentPath entry_name)).
  - split; (intros [Hf | Hfound]; [by left | right]).
    + destruct Hfound as (entry & Hentry & entry_name & -> & Hend & ->).
      by exists entry_name.
    + destruct Hfound as (entry_name & Hentry & Hend & ->).
      exists (File entry_name). split; [done |]. by exists entry_name.
  - intros results' entry g _.
    destruct entry as [entry_name | entry_name content | entry_name].
    + destruct (endsWith entry_name ".4DProject") eqn:Hend.
      * rewrite elem_of_app, list_elem_of_singleton. split.
        -- intros [Hg | ->]; [by left | right]. by exists entry_name.
        -- intros [Hg | (? & [= <-] & _ & ->)]; [by left | by right].
      * split; [by left |].
        intros [Hg | (? & [= <-] & Hend' & _)]; [done | congruence].
    + split; [by left |]. by intros [Hg | (? & [= ] & _)].
    + split; [by left |]. by intros [Hg | (? & [= ] & _)].
Qed.

Lemma searchForAllProjectFiles_unfold basePath currentPath currentDepth
    maxDepth results pathSegments current :
  searchForAllProjectFiles lib basePath currentPath currentDepth maxDepth
    results pathSegments current
  = if currentDepth >? maxDepth then results
    else if isInsideComponentsFolder pathSegments then results
    else
      match current with
      | Directory _ (Some entries) =>
          foldl (fun results entry =>
                   match entry with
                   | Directory entry_name _ =>
                       if negb (startsWith entry_name ".") then
                         searchForAllProjectFiles lib basePath
                           (path_join lib currentPath entry_name)
                           (currentDepth + 1) maxDepth results
                           (pathSegments ++ [entry_name]) entry
                       else results
                   | _ => results
                   end)
            (collect_files lib basePath currentPath results entries) entries
      | _ => results
      end.
Proof. destruct current as [| ? [|] |]; reflexivity. Qed.

Lemma isInsideComponentsFolder_false segments :
  isInsideComponentsFolder segments = false
  ↔ Forall (fun segment => COMPONENTS_FOLDER_PATTERN segment = false) segments.
Proof.
  unfold isInsideComponentsFolder. induction segments as [|s segments IH].
  - by split.
  - cbn [existsb]. rewrite orb_false_iff, Forall_cons, IH. done.
Qed.

Lemma reaches_readable current segments dir_name entries :
  reaches current segments (Directory dir_name (Some entries)) →
  ∃ name0 entries0, current = Directory name0 (Some entries0).
Proof. inversion 1; subst; eauto. Qed.

Lemma searchForAllProjectFiles_spec basePath maxDepth (n : nat) :
  ∀ currentDepth currentPath results pathSegments current f,
    (Z.to_nat (maxDepth - currentDepth + 1) <= n)%nat →
    f ∈ searchForAllProjectFiles lib basePath currentPath currentDepth
          maxDepth results pathSegments current
    ↔ f ∈ results
      ∨ ∃ segments entry_name,
          found_from maxDepth current currentDepth pathSegments segments
            entry_name
          ∧ f = project_file lib basePath
                  (foldl (path_join lib) currentPath segments) entry_name.
Proof.
  induction n as [|n IH];
    intros currentDepth currentPath results pathSegments current f Hn;
    rewrite searchForAllProjectFiles_unfold.
  - destruct (Z.gtb_spec currentDepth maxDepth) as [Hdeep | Hdepth]; [| lia].
    split; [by left |].
    intros [Hf | (segments & entry_name & Hfound & _)]; [done |].
    destruct Hfound as (? & ? & _ & _ & _ & Hle & _). lia.
  - destruct (Z.gtb_spec currentDepth maxDepth) as [Hdeep | Hdepth].
    { split; [by left |].
      intros [Hf | (segments & entry_name & Hfound & _)]; [done |].
      destruct Hfound as (? & ? & _ & _ & _ & Hle & _). lia. }
    destruct (isInsideComponentsFolder pathSegments) eqn:Hinside.
    { split; [by left |].
      intros [Hf | (segments & entry_name & Hfound & _)]; [done |].
      destruct Hfound as (? & ? & _ & _ & _ & _ & _ & Hclear).
      apply Forall_app in Hclear as [Hclear _].
      apply isInsideComponentsFolder_false in Hclear. congruence. }
    apply isInsideComponentsFolder_false in Hinside.
    assert (Hunreadable :
      (∀ name0 entries0, current ≠ Directory name0 (Some entries0)) →
      f ∈ results
      ↔ f ∈ results
        ∨ ∃ segments entry_name,
            found_from maxDepth current currentDepth pathSegments segments
              entry_name
            ∧ f = project_file lib basePath
                    (foldl (path_join lib) currentPath segments) entry_name).
    { intros Hcurrent. split; [by left |].
      intros [Hf | (segments & entry_name & Hfound & _)]; [done |].
      destruct Hfound as (? & ? & Hreach & _).
      apply reaches_readable in Hreach as (? & ? & ->).
      by edestruct Hcurrent. }
    destruct current as [name0 | name0 [entries |] | name0];
      try (apply Hunreadable; done).
    clear Hunreadable.
    rewrite (elem_of_foldl_step _
      (fun entry f =>
         ∃ sub content segments entry_name,
           entry = Directory sub content ∧ hidden sub = false
           ∧ found_from maxDepth entry (currentDepth + 1)
               (pathSegments ++ [sub]) segments entry_name
           ∧ f = project_file lib basePath
                   (foldl (path_join lib) (path_join lib currentPath sub)
                      segments) entry_name)).
    + rewrite collect_files_spec. split.
      * intros [[Hf | Hhere] | Hbelow]; [by left | right | right].
        -- destruct Hhere as (entry_name & Hfile & Hend & ->).
           exists [], entry_name. split; [| reflexivity].
           exists name0, entries. rewrite app_nil_r.
           split; [constructor |]. cbn [length]. repeat split; try done. lia.
        -- destruct Hbelow
             as (entry & Hentry & sub & content & segments & entry_name
                 & -> & Hsub & Hfound & ->).
           exists (sub :: segments), entry_name. split; [| reflexivity].
           destruct Hfound
             as (dir_name & entries' & Hreach & Hfile & Hend & Hle & Hshown
                 & Hclear).
           exists dir_name, entries'.
           split; [by econstructor |]. split; [done |]. split; [done |].
           split; [cbn [length]; lia |]. split; [by constructor |].
           by rewrite <- app_assoc in Hclear.
      * intros [Hf | (segments & entry_name & Hfound & ->)]; [by do 2 left |].
        destruct Hfound
          as (dir_name & entries' & Hreach & Hfile & Hend & Hle & Hshown
              & Hclear).
        inversion Hreach as [| ? ? sub content segments' ? Hentry Hreach'];
          subst.
        -- left. right. by exists entry_name.
        -- right. exists (Directory sub content). split; [done |].
           exists sub, content, segments', entry_name.
           apply Forall_cons in Hshown as [Hsub Hshown].
           split; [done |]. split; [done |]. split; [| reflexivity].
           exists dir_name, entries'. cbn [length] in Hle.
           split; [done |]. split; [done |]. split; [done |].
           split; [lia |]. split; [done |].
           by rewrite <- app_assoc.
    + intros results' entry g _.
      destruct entry as [entry_name | entry_name content | entry_name].
      * split; [by left |]. by intros [Hg | (? & ? & ? & ? & [= ] & _)].
      * unfold hidden. destruct (startsWith entry_name ".") eqn:Hhidden;
          cbn [negb].
        -- split; [by left |].
           intros [Hg | (? & ? & ? & ? & [= <- <-] & Hshown & _)];
             [done | congruence].
        -- rewrite IH by lia. split.
           ++ intros [Hg | (segments & name1 & Hfound & ->)]; [by left |].
              right. by exists entry_name, content, segments, name1.
           ++ intros [Hg | (? & ? & segments & name1 & [= <- <-] & _
                            & Hfound & ->)]; [by left |].
              right. by exists segments, name1.
      * split; [by left |]. by intros [Hg | (? & ? & ? & ? & [= ] & _)].
Qed.

(** X21. [findAll4DProjectFiles] finds exactly the files whose name
    ends with ".4DProject" and that lie in a readable directory at most
    [maxDepth] levels below the workspace, under no folder whose name
    starts with a dot and under no Components folder.  A directory that
    cannot be read hides what is below it and nothing else. *)
Theorem findAll4DProjectFiles_exactly_visible workspacePath maxDepth
    workspace f :
  f ∈ findAll4DProjectFiles lib workspacePath maxDepth workspace
  ↔ ∃ segments entry_name,
      found_from maxDepth workspace 0 [] segments entry_name
      ∧ f = project_file lib workspacePath
              (foldl (path_join lib) workspacePath segments) entry_name.
Proof.
  unfold findAll4DProjectFiles.
  rewrite (searchForAllProjectFiles_spec workspacePath maxDepth
             (Z.to_nat (maxDepth - 0 + 1))) by lia.
  split; [| by right]. intros [Hf | Hfound]; [| done].
  by apply elem_of_nil in Hf.
Qed.

Lemma lowercase_app s t : lowercase (s +:+ t) = lowercase s +:+ lowercase t.
Proof.
  induction s as [|a s IH]; [reflexivity |].
  rewrite append_cons. cbn [lowercase]. by rewrite IH, append_cons.
Qed.

Lemma lowercase_split pre : ∀ s post,
  lowercase s = pre +:+ post →
  ∃ s1 s2, s = s1 +:+ s2 ∧ lowercase s1 = pre ∧ lowercase s2 = post.
Proof.
  induction pre as [|a pre IH]; intros s post Hs.
  - by exists "", s.
  - destruct s as [|b s]; [discriminate |].
    rewrite append_cons in Hs. cbn [lowercase] in Hs.
    injection Hs as Hb Hs.
    destruct (IH _ _ Hs) as (s1 & s2 & -> & H1 & H2).
    exists (String b s1), s2. cbn [lowercase]. by rewrite Hb, H1.
Qed.

Lemma literal_i_spec pattern : ∀ s rest,
  literal_i pattern s = Some rest
  ↔ ∃ pre, s = pre +:+ rest ∧ lowercase pre = lowercase pattern.
Proof.
  induction pattern as [|a pattern IH]; intros s rest.
  - cbn [literal_i lowercase]. split.
    + intros [= ->]. by exists "".
    + intros (pre & -> & Hpre). by destruct pre.
  - destruct s as [|b s]; cbn [literal_i lowercase].
    + split; [done |]. intros (pre & Hs & Hpre). by destruct pre.
    + destruct (Ascii.eqb_spec (lower a) (lower b)) as [Hab | Hab].
      * rewrite IH. split.
        -- intros (pre & -> & Hpre). exists (String b pre).
           cbn [lowercase]. by rewrite Hpre, Hab.
        -- intros (pre & Hs & Hpre). destruct pre as [|b' pre]; [done |].
           rewrite append_cons in Hs. injection Hs as <- ->.
           cbn [lowercase] in Hpre. injection Hpre as _ Hpre.
           by exists pre.
      * split; [done |]. intros (pre & Hs & Hpre).
        destruct pre as [|b' pre]; [done |].
        rewrite append_cons in Hs. injection Hs as <- ->.
        cbn [lowercase] in Hpre. injection Hpre as Hb _. congruence.
Qed.

Lemma lower_separator c sep :
  sep = "."%char ∨ sep = "_"%char → lower c = sep → c = sep.
Proof.
  intros [-> | ->];
    destruct c as [[] [] [] [] [] [] [] []]; vm_compute; congruence.
Qed.

(** X22. The test for a Components folder accepts exactly the names
    that read, without regard to the case of their letters,
    "components", "components.src" or "components_src". *)
Theorem COMPONENTS_FOLDER_PATTERN_names segment :
  COMPONENTS_FOLDER_PATTERN segment = true
  ↔ lowercase segment = "components"
    ∨ lowercase segment = "components.src"
    ∨ lowercase segment = "components_src".
Proof.
  unfold COMPONENTS_FOLDER_PATTERN. split.
  - destruct (literal_i "components" segment) as [rest |] eqn:Hhead; [| done].
    apply literal_i_spec in Hhead as (pre & -> & Hpre).
    rewrite lowercase_app, Hpre.
    destruct rest as [|c rest]; [intros _; by left |].
    cbn [at_end orb].
    destruct (literal_i "src" rest) as [rest' |] eqn:Htail;
      [| by rewrite andb_false_r].
    apply literal_i_spec in Htail as (pre' & -> & Hpre').
    destruct rest'; [| by rewrite andb_false_r].
    rewrite andb_true_r, append_nil_r. cbn [lowercase]. rewrite Hpre'.
    intros [->%Ascii.eqb_eq | ->%Ascii.eqb_eq]%orb_prop; [by right; left |].
    by right; right.
  - intros [Hname | [Hname | Hname]].
    + assert (Hhead : literal_i "components" segment = Some "").
      { apply literal_i_spec. exists segment.
        by rewrite append_nil_r, Hname. }
      by rewrite Hhead.
    + apply (lowercase_split "components" segment ".src") in Hname
        as (s1 & s2 & -> & H1 & H2).
      destruct s2 as [|c s2]; [done |].
      cbn [lowercase] in H2. injection H2 as Hc H2.
      apply (lower_separator c ".") in Hc as ->; [| by left].
      assert (Hhead : literal_i "components" (s1 +:+ String "." s2)
                      = Some (String "." s2))
        by (apply literal_i_spec; by exists s1).
      assert (Htail : literal_i "src" s2 = Some "").
      { apply literal_i_spec. exists s2. by rewrite append_nil_r, H2. }
      rewrite Hhead. cbn [at_end orb]. by rewrite Htail.
    + apply (lowercase_split "components" segment "_src") in Hname
        as (s1 & s2 & -> & H1 & H2).
      destruct s2 as [|c s2]; [done |].
      cbn [lowercase] in H2. injection H2 as Hc H2.
      apply (lower_separator c "_") in Hc as ->; [| by right].
      assert (Hhead : literal_i "components" (s1 +:+ String "_" s2)
                      = Some (String "_" s2))
        by (apply literal_i_spec; by exists s1).
      assert (Htail : literal_i "src" s2 = Some "").
      { apply literal_i_spec. exists s2. by rewrite append_nil_r, H2. }
      rewrite Hhead. cbn [at_end orb]. by rewrite Htail.
Qed.

(** X23. [find4DProjectFile] answers [null] exactly when no project
    file is found.  A path it answers is the path of a project that was
    found: the only one, or else the first one whose relative path has
    the directory "Project" or "."; it answers the list of all the
    projects found, which then has two or more, only when none is in
    such a directory. *)
Theorem find4DProjectFile_choice workspacePath workspace :
  let allProjects := findAll4DProjectFiles lib workspacePath 5 workspace in
  let answer := find4DProjectFile lib workspacePath workspace in
  (answer = NoProject ↔ allProjects = [])
  ∧ (∀ project_path, answer = OneProject project_path →
       ∃ project, project ∈ allProjects ∧ path project = project_path
                  ∧ (allProjects = [project] ∨ at_root lib project = true))
  ∧ (∀ projects, answer = Candidates projects →
       projects = allProjects ∧ (2 <= length projects)%nat
       ∧ Forall (fun project => at_root lib project = false) projects)
  ∧ (∀ project, (2 <= length allProjects)%nat →
       List.find (at_root lib) allProjects = Some project →
       answer = OneProject (path project)).
Proof.
  intros allProjects answer. unfold answer, find4DProjectFile.
  fold allProjects.
  change (List.find _ allProjects) with (List.find (at_root lib) allProjects).
  destruct allProjects as [|p [|q rest]] eqn:Hall.
  - split_and!; try done.
    all: intros project Hlen; cbn in Hlen; lia.
  - split_and!; try done.
    + intros ? [= <-]. exists p. split; [left |]. by split; [| left].
    + intros project Hlen. cbn in Hlen. lia.
  - destruct (List.find (at_root lib) (p :: q :: rest)) as [project |] eqn:Hfind.
    + split_and!; try done.
      * intros ? [= <-]. apply find_some in Hfind as [Hin Hroot].
        exists project. rewrite list_elem_of_In. split; [done |].
        by split; [| right].
      * by intros ? _ [= <-].
    + split_and!; try done.
      intros ? [= <-]. split; [done |]. split; [cbn; lia |].
      apply Forall_forall. intros project Hin.
      apply (find_none _ _ Hfind). by apply list_elem_of_In.
Qed.

End Finding.

Import Runtime RuntimeFixtures RuntimeVocabulary.

(** * The scans as they run on Node *)

(** ** TCP checks and their arguments *)

Section RuntimeChecks.
Context (env : Platform) (timeout : Z).

Lemma checkPort_number n host0 p :
  checkPort env n host0 (JNumber p) timeout
  = Some (settles env n host0 p timeout).
Proof.
  unfold checkPort, settles, probe. destruct (timeout <? 0); [reflexivity |].
  cbn [connect_port mbind option_bind].
  destruct ((0 <=? p) && (p <=? 65535)); [| reflexivity].
  destruct (tcp_socket env n host0 p timeout); reflexivity.
Qed.

Lemma checkPorts_numbered targets n :
  checkPorts env n timeout (numbered targets)
  = Some (Promise_all
            (imap (fun k target => settles env (n + k) target.1 target.2 timeout)
               targets)).
Proof.
  unfold checkPorts, numbered. rewrite imap_fmap.
  rewrite (imap_ext _ (fun k => Some ∘ (fun target =>
             settles env (n + k) target.1 target.2 timeout)))
    by (intros; apply checkPort_number).
  rewrite <- fmap_imap, mapM_fmap_Some by done. reflexivity.
Qed.

Lemma accepted_or_refused p : {accepted timeout p} + {refused timeout p}.
Proof.
  unfold accepted, refused, valid_port.
  destruct (decide (0 <= timeout ∧ 0 <= p <= 65535));
    [left; tauto | right; lia].
Qed.

Lemma refused_not_accepted p : refused timeout p → ¬ accepted timeout p.
Proof. unfold accepted, refused. intros [? | ?] [? ?]; [lia | done]. Qed.

Lemma all_accepted_or_one_refused (ports : list Z) :
  {Forall (accepted timeout) ports} + {Exists (refused timeout) ports}.
Proof.
  induction ports as [|p ports [IH | IH]].
  - left. constructor.
  - destruct (accepted_or_refused p); [left | right]; by constructor.
  - right. by apply Exists_cons_tl.
Qed.

Lemma settles_valid n host0 p :
  accepted timeout p →
  settles env n host0 p timeout = Normal (probe env n host0 p timeout).
Proof.
  intros [Ht [Hlo Hhi]]. unfold settles.
  destruct (Z.ltb_spec timeout 0); [lia |].
  destruct (Z.leb_spec 0 p); [| lia]. destruct (Z.leb_spec p 65535); [| lia].
  reflexivity.
Qed.

Lemma settles_invalid n host0 p :
  refused timeout p → ∃ e, settles env n host0 p timeout = Throw e.
Proof.
  intros Hbad. unfold settles, refused, valid_port in *.
  destruct (Z.ltb_spec timeout 0); [eauto |].
  destruct (Z.leb_spec 0 p), (Z.leb_spec p 65535); cbn; eauto.
  destruct Hbad; lia.
Qed.

Lemma Promise_all_probes targets : ∀ n,
  Forall (fun target => accepted timeout target.2) targets →
  Promise_all
    (imap (fun k target => settles env (n + k) target.1 target.2 timeout)
       targets)
  = Normal (probe_all env n timeout targets).
Proof.
  unfold probe_all.
  induction targets as [|target targets IH]; intros n Hvalid;
    [reflexivity |].
  apply Forall_cons in Hvalid as [Hp Hvalid].
  cbn [imap Promise_all]. rewrite settles_valid by assumption.
  rewrite (imap_ext _ (fun k target0 =>
             settles env (S n + k) target0.1 target0.2 timeout))
    by (intros; cbn; f_equal; lia).
  rewrite (IH (S n)) by assumption. do 2 f_equal.
  apply imap_ext. intros. cbn. f_equal. lia.
Qed.

Lemma Promise_all_rejects targets : ∀ n,
  Exists (fun target => refused timeout target.2) targets →
  ∃ e,
    Promise_all
      (imap (fun k target => settles env (n + k) target.1 target.2 timeout)
         targets)
    = Throw e.
Proof.
  induction targets as [|target targets IH]; intros n Hbad;
    [by apply Exists_nil in Hbad |].
  cbn [imap Promise_all].
  destruct (settles env (n + 0) target.1 target.2 timeout) as [r | e] eqn:Hr;
    [| eauto].
  apply Exists_cons in Hbad as [Hp | Hbad].
  { destruct (settles_invalid (n + 0) target.1 target.2 Hp) as [e He].
    congruence. }
  rewrite (imap_ext _ (fun k target0 =>
             settles env (S n + k) target0.1 target0.2 timeout))
    by (intros; cbn; f_equal; lia).
  destruct (IH (S n) Hbad) as [e ->]. eauto.
Qed.

Lemma checkPorts_valid n targets :
  Forall (fun target => accepted timeout target.2) targets →
  checkPorts env n timeout (numbered targets)
  = Some (Normal (probe_all env n timeout targets)).
Proof.
  intros Hvalid. by rewrite checkPorts_numbered, Promise_all_probes.
Qed.

Lemma checkPorts_rejects n targets :
  Exists (fun target => refused timeout target.2) targets →
  ∃ e, checkPorts env n timeout (numbered targets) = Some (Throw e).
Proof.
  intros Hbad. rewrite checkPorts_numbered.
  destruct (Promise_all_rejects targets n Hbad) as [e ->]. eauto.
Qed.

Lemma probe_all_app n targets1 targets2 :
  probe_all env n timeout (targets1 ++ targets2)
  = probe_all env n timeout targets1
    ++ probe_all env (n + length targets1) timeout targets2.
Proof.
  unfold probe_all. rewrite imap_app. f_equal.
  apply imap_ext. intros k target _. cbn. f_equal. lia.
Qed.

Lemma probe_all_elem n targets r :
  r ∈ probe_all env n timeout targets ↔
  ∃ k target,
    targets !! k = Some target
    ∧ r = probe env (n + k) target.1 target.2 timeout.
Proof.
  unfold probe_all. rewrite elem_of_lookup_imap. split.
  - intros (k & target & -> & Hk). eauto.
  - intros (k & target & Hk & ->). eauto.
Qed.

Lemma probe_host n host0 p : host (probe env n host0 p timeout) = host0.
Proof. unfold probe. by destruct (tcp_socket _ _ _ _ _). Qed.

Lemma probe_port n host0 p : port (probe env n host0 p timeout) = JNumber p.
Proof. unfold probe. by destruct (tcp_socket _ _ _ _ _). Qed.

Lemma probe_open n host0 p :
  isOpen (probe env n host0 p timeout) = true ↔
  ∃ ms, tcp_socket env n host0 p timeout = Connected ms.
Proof.
  unfold probe. destruct (tcp_socket _ _ _ _ _); cbn; split;
    first [ by eauto | by intros [? [=]] | done ].
Qed.

Lemma probe_connected n host0 p ms :
  tcp_socket env n host0 p timeout = Connected ms →
  probe env n host0 p timeout
  = {| host := host0; port := JNumber p; isOpen := true;
       responseTime := Some ms |}.
Proof. unfold probe. by intros ->. Qed.

Lemma numbered_app targets1 targets2 :
  numbered (targets1 ++ targets2) = numbered targets1 ++ numbered targets2.
Proof. apply fmap_app. Qed.

Lemma length_numbered targets : length (numbered targets) = length targets.
Proof. apply length_fmap. Qed.

End RuntimeChecks.

Lemma probes_of_numbered batch ports :
  probes_of batch ports = numbered (targets_of batch ports).
Proof.
  unfold probes_of, targets_of, numbered, on_host.
  induction batch as [|ip batch IH]; [reflexivity |].
  cbn [mbind list_bind]. rewrite fmap_app, <- IH. f_equal.
  rewrite <- list_fmap_compose. reflexivity.
Qed.

Lemma on_host_numbered host0 ports :
  on_host host0 ports = numbered ((fun p => (host0, p)) <$> ports).
Proof. unfold on_host, numbered. by rewrite <- list_fmap_compose. Qed.

Section RuntimeResults.
Context (env : Platform) (ports : list Z) (timeout : Z).

Lemma rt_results_of_app hosts1 hosts2 :
  results_of env ports timeout (hosts1 ++ hosts2)
  = results_of env ports timeout hosts1
    ++ open_only (probe_all env (length (targets_of hosts1 ports)) timeout
                    (targets_of hosts2 ports)).
Proof.
  unfold results_of, open_only.
  rewrite targets_of_app, probe_all_app, filter_app. reflexivity.
Qed.

Lemma rt_results_of_shape hosts r :
  r ∈ results_of env ports timeout hosts →
  isOpen r = true
  ∧ (∃ ms, responseTime r = Some ms)
  ∧ host r ∈ hosts
  ∧ ∃ p, port r = JNumber p ∧ p ∈ ports.
Proof.
  unfold results_of, open_only. rewrite list_elem_of_filter, probe_all_elem.
  intros [Hopen (k & target & Hk & ->)].
  apply list_elem_of_lookup_2 in Hk.
  split; [exact Hopen |]. apply probe_open in Hopen as [ms Hms].
  rewrite (probe_connected _ _ _ _ _ _ Hms). cbn.
  split; [eauto |]. split; [eapply targets_of_host, Hk |].
  exists target.2. split; [reflexivity | eapply targets_of_port, Hk].
Qed.

Lemma valid_targets hosts :
  Forall (accepted timeout) ports →
  Forall (fun target => accepted timeout target.2) (targets_of hosts ports).
Proof.
  intros Hvalid. apply Forall_forall. intros target Htarget.
  apply targets_of_port in Htarget. rewrite Forall_forall in Hvalid. auto.
Qed.

Lemma invalid_targets hosts :
  hosts ≠ [] → Exists (refused timeout) ports →
  Exists (fun target => refused timeout target.2) (targets_of hosts ports).
Proof.
  intros Hhosts Hbad. destruct hosts as [|h hosts]; [done |].
  apply Exists_exists in Hbad as (p & Hp & Hbad).
  apply Exists_exists. exists (h, p). split; [| exact Hbad].
  apply targets_of_elem; [left | exact Hp].
Qed.

Lemma accepted_ports :
  0 <= timeout → Forall valid_port ports → Forall (accepted timeout) ports.
Proof. intros Ht Hvalid. eapply Forall_impl; [exact Hvalid | by split]. Qed.

End RuntimeResults.

(** ** The ports of one host *)

(** X24. For a delay that is not negative and ports within 0..65535,
    [scanHostPorts] returns one result for each port of [ports] to which
    the connection succeeded, in the order of [ports] and nothing else:
    each result is for the host asked, is open and carries the time the
    connection took.  When a port is refused, because it is outside
    0..65535 or because the delay is negative, the call is rejected and
    returns nothing, whatever the other ports did. *)
Theorem scanHostPorts_open_ports env n host0 ports timeout :
  (0 <= timeout → Forall valid_port ports →
   ∃ results,
     scanHostPorts env n host0 ports timeout = Some (Normal results)
     ∧ port <$> results `sublist_of` JNumber <$> ports
     ∧ ∀ r,
         r ∈ results ↔
         ∃ k q ms,
           ports !! k = Some q
           ∧ tcp_socket env (n + k) host0 q timeout = Connected ms
           ∧ r = {| host := host0; port := JNumber q; isOpen := true;
                    responseTime := Some ms |})
  ∧ (Exists (refused timeout) ports →
     ∃ e, scanHostPorts env n host0 ports timeout = Some (Throw e)).
Proof.
  unfold scanHostPorts. rewrite on_host_numbered. split.
  - intros Ht Hvalid.
    rewrite checkPorts_valid
      by (apply Forall_fmap; eapply Forall_impl; [exact Hvalid | by split]).
    cbn [mbind option_bind]. eexists. split; [reflexivity |]. split.
    + transitivity
        (port <$> probe_all env n timeout ((fun p => (host0, p)) <$> ports)).
      * apply fmap_sublist, sublist_filter.
      * unfold probe_all. rewrite fmap_imap, imap_fmap.
        rewrite (imap_ext _ (const JNumber))
          by (intros; apply probe_port).
        by rewrite imap_const.
    + intros r. unfold open_only.
      rewrite list_elem_of_filter, probe_all_elem. split.
      * intros [Hopen (k & target & Hk & ->)].
        rewrite list_lookup_fmap in Hk.
        destruct (ports !! k) as [q |] eqn:Hq; [| done].
        injection Hk as <-. cbn [fst snd] in *.
        apply probe_open in Hopen as [ms Hms].
        exists k, q, ms. by rewrite (probe_connected _ _ _ _ _ _ Hms).
      * intros (k & q & ms & Hq & Hms & ->). split; [reflexivity |].
        exists k, (host0, q). rewrite list_lookup_fmap, Hq.
        split; [reflexivity |]. cbn [fst snd].
        by rewrite (probe_connected _ _ _ _ _ _ Hms).
  - intros Hbad.
    destruct (checkPorts_rejects env timeout n ((fun p => (host0, p)) <$> ports))
      as [e ->]; [| cbn; eauto].
    apply Exists_fmap. exact Hbad.
Qed.

Lemma scanHostPorts_open_ports_witness :
  (∃ results,
     scanHostPorts (untyped lan25) 0 "192.168.1.40" [19813; 19814] 500
     = Some (Normal results)
     ∧ port <$> results `sublist_of` [JNumber 19813; JNumber 19814])
  ∧ ∃ e,
      scanHostPorts (untyped lan25) 0 "192.168.1.40" [19813; 70000] 500
      = Some (Throw e).
Proof.
  split.
  - destruct (scanHostPorts_open_ports (untyped lan25) 0 "192.168.1.40"
                [19813; 19814] 500) as [Hvalid _].
    destruct Hvalid as (results & Hresults & Hports & _);
      [lia | repeat constructor; unfold valid_port; lia | eauto].
  - destruct (scanHostPorts_open_ports (untyped lan25) 0 "192.168.1.40"
                [19813; 70000] 500) as [_ Hrefused].
    apply Hrefused. apply Exists_cons_tl, Exists_cons_hd. right.
    unfold valid_port. lia.
Defined.

(** ** The batch loop of [scanSubnet] *)

Section RuntimeScanSubnet.
Context (env : Platform) (ports : list Z) (timeout : Z).
Context (batchSize : Z) (onProgress : bool) (ips : list string).
Hypothesis batchSize_pos : 1 <= batchSize.

Lemma rt_scanSubnet_batch_spec (k : nat) :
  Forall (accepted timeout) ports →
  Z.of_nat k * batchSize < Z.of_nat (length ips) →
  scanSubnet_batch env ports timeout batchSize onProgress ips
    (Z.of_nat k * batchSize)
    (state_after env ports timeout batchSize onProgress ips k)
  = Some (state_after env ports timeout batchSize onProgress ips (S k)).
Proof.
  intros Hvalid Hk. unfold scanSubnet_batch.
  rewrite (batch_index batchSize batchSize_pos) in *.
  rewrite (slice_batch batchSize ips batchSize_pos) by lia.
  rewrite probes_of_numbered.
  set (next := state_after env ports timeout batchSize onProgress ips (S k)).
  unfold state_after. cbn [calls progress allResults thrown].
  rewrite length_numbered, checkPorts_valid by (by apply valid_targets).
  cbn [mbind option_bind]. f_equal.
  unfold next, state_after.
  replace (S k * Z.to_nat batchSize)%nat
    with (k * Z.to_nat batchSize + Z.to_nat batchSize)%nat by lia.
  rewrite <- (take_take_drop ips (k * Z.to_nat batchSize)).
  rewrite targets_of_app, numbered_app, rt_results_of_app.
  f_equal.
  destruct onProgress; [| reflexivity].
  rewrite seq_S, fmap_app. cbn [fmap list_fmap Nat.add]. f_equal.
  unfold expected_report.
  rewrite <- (batch_index batchSize batchSize_pos).
  replace ((k + 1) * Z.to_nat batchSize)%nat
    with (k * Z.to_nat batchSize + Z.to_nat batchSize)%nat by lia.
  rewrite <- (take_take_drop ips (k * Z.to_nat batchSize)), rt_results_of_app.
  do 3 f_equal. lia.
Qed.

Lemma rt_scanSubnet_loop_spec (fuel : nat) : ∀ k : nat,
  Forall (accepted timeout) ports →
  Z.of_nat (length ips) - Z.of_nat k * batchSize <= Z.of_nat fuel →
  (Z.of_nat k - 1) * batchSize < Z.of_nat (length ips) →
  scanSubnet_loop env ports timeout batchSize onProgress ips fuel
    (Z.of_nat k * batchSize)
    (state_after env ports timeout batchSize onProgress ips k)
  = Some (state_after env ports timeout batchSize onProgress ips
            (batch_count (length ips) batchSize)).
Proof.
  induction fuel as [|fuel IH]; intros k Hvalid Hfuel Hlast;
    cbn [scanSubnet_loop state_after thrown];
    destruct (Z.ltb_spec (Z.of_nat k * batchSize) (Z.of_nat (length ips)))
      as [Hmore | Hdone];
    try (rewrite (batch_count_unique batchSize ips k) by lia; reflexivity).
  - lia.
  - fold (state_after env ports timeout batchSize onProgress ips k).
    rewrite rt_scanSubnet_batch_spec by (done || lia).
    cbn [mbind option_bind].
    replace (Z.of_nat k * batchSize + batchSize)
      with (Z.of_nat (S k) * batchSize) by lia.
    apply IH; (done || lia).
Qed.

Lemma rt_state_after_0 :
  state_after env ports timeout batchSize onProgress ips 0
  = {| calls := []; progress := []; allResults := []; thrown := None |}.
Proof. unfold state_after. destruct onProgress; reflexivity. Qed.

(** With accepted arguments the loop ends, and in closed form. *)
Lemma rt_scanSubnet_loop_total :
  Forall (accepted timeout) ports →
  scanSubnet_loop env ports timeout batchSize onProgress ips (length ips) 0
    {| calls := []; progress := []; allResults := []; thrown := None |}
  = Some {| calls := numbered (targets_of ips ports);
            progress :=
              if onProgress
              then expected_report env ports timeout batchSize ips
                     <$> seq 0 (batch_count (length ips) batchSize)
              else [];
            allResults := results_of env ports timeout ips;
            thrown := None |}.
Proof.
  intros Hvalid. rewrite <- rt_state_after_0.
  pose proof (rt_scanSubnet_loop_spec (length ips) 0%nat Hvalid) as Hloop.
  change (Z.of_nat 0 * batchSize) with 0 in Hloop.
  rewrite Hloop by lia.
  unfold state_after.
  rewrite (take_all_batches batchSize ips batchSize_pos). reflexivity.
Qed.

(** With a refused argument the scan ends in its first batch, whose
    probes were all made, before any progress is reported. *)
Lemma rt_scanSubnet_loop_rejects :
  ips ≠ [] → Exists (refused timeout) ports →
  ∃ e,
    scanSubnet_loop env ports timeout batchSize onProgress ips (length ips) 0
      {| calls := []; progress := []; allResults := []; thrown := None |}
    = Some {| calls :=
                numbered (targets_of (take (Z.to_nat batchSize) ips) ports);
              progress := []; allResults := []; thrown := Some e |}.
Proof.
  intros Hips Hbad.
  assert (Hlen : (0 < length ips)%nat) by (destruct ips; [done | cbn; lia]).
  assert (Hbatch : take (Z.to_nat batchSize) ips ≠ []).
  { destruct ips; [done |]. destruct (Z.to_nat batchSize) eqn:Ebs; [lia | done]. }
  destruct (checkPorts_rejects env timeout 0
              (targets_of (take (Z.to_nat batchSize) ips) ports)
              (invalid_targets ports timeout _ Hbatch Hbad)) as [e He].
  exists e.
  pose proof (slice_batch batchSize ips batchSize_pos 0 ltac:(lia)) as Hslice.
  change (Z.of_nat 0) with 0 in Hslice. rewrite drop_0 in Hslice.
  destruct (length ips) as [|fuel] eqn:Efuel at 1; [lia |].
  cbn [scanSubnet_loop thrown].
  destruct (Z.ltb_spec 0 (Z.of_nat (length ips))); [| lia].
  unfold scanSubnet_batch. cbn [calls progress allResults length].
  rewrite Hslice, probes_of_numbered, He.
  cbn [mbind option_bind app]. destruct fuel; reflexivity.
Qed.

End RuntimeScanSubnet.

(** ** Progress reports of [scanSubnet] *)






(** ** The loop of [scanHosts] *)

Section RuntimeScanHosts.
Context (env : Platform) (ports : list Z) (timeout : Z) (onProgress : bool).
Context (hosts : list string).

Lemma rt_targets_of_one h : targets_of [h] ports = (fun p => (h, p)) <$> ports.
Proof. rewrite targets_of_cons. apply app_nil_r. Qed.

Lemma rt_scanHostPorts_valid n h :
  Forall (accepted timeout) ports →
  scanHostPorts env n h ports timeout
  = Some (Normal (open_only (probe_all env n timeout (targets_of [h] ports)))).
Proof.
  intros Hvalid. unfold scanHostPorts.
  rewrite on_host_numbered, <- rt_targets_of_one.
  by rewrite checkPorts_valid by (by apply valid_targets).
Qed.

Lemma rt_scanHostPorts_rejects n h :
  Exists (refused timeout) ports →
  ∃ e, scanHostPorts env n h ports timeout = Some (Throw e).
Proof.
  intros Hbad. unfold scanHostPorts.
  rewrite on_host_numbered, <- rt_targets_of_one.
  destruct (checkPorts_rejects env timeout n (targets_of [h] ports)) as [e ->];
    [by apply invalid_targets | cbn; eauto].
Qed.

Lemma rt_scanHosts_step_spec scanned h todo :
  Forall (accepted timeout) ports →
  hosts = scanned ++ h :: todo →
  scanHosts_step env ports timeout onProgress hosts
    (hosts_state env ports timeout onProgress hosts scanned)
    (length scanned) h
  = Some (hosts_state env ports timeout onProgress hosts (scanned ++ [h])).
Proof.
  intros Hvalid Hhosts. unfold scanHosts_step, hosts_state.
  cbn [calls progress allResults thrown].
  rewrite length_numbered, rt_scanHostPorts_valid by assumption.
  cbn [mbind option_bind].
  rewrite targets_of_app, numbered_app, rt_results_of_app.
  rewrite on_host_numbered, <- rt_targets_of_one.
  f_equal. f_equal. destruct onProgress; [| reflexivity].
  rewrite length_app. cbn [length]. rewrite Nat.add_1_r, seq_S, fmap_app.
  cbn [fmap list_fmap Nat.add]. do 2 f_equal. unfold hosts_report.
  do 2 f_equal. rewrite Hhosts.
  replace (scanned ++ h :: todo) with ((scanned ++ [h]) ++ todo)
    by (rewrite <- app_assoc; reflexivity).
  rewrite take_app_length' by (rewrite length_app; cbn; lia).
  rewrite rt_results_of_app. reflexivity.
Qed.

Lemma rt_scanHosts_loop_progress todo : ∀ scanned,
  Forall (accepted timeout) ports →
  hosts = scanned ++ todo →
  scanHosts_loop env ports timeout onProgress hosts (length scanned) todo
    (hosts_state env ports timeout onProgress hosts scanned)
  = Some (hosts_state env ports timeout onProgress hosts hosts).
Proof.
  induction todo as [|h todo IH]; intros scanned Hvalid Hhosts.
  - rewrite app_nil_r in Hhosts. subst scanned. reflexivity.
  - cbn [scanHosts_loop hosts_state thrown].
    fold (hosts_state env ports timeout onProgress hosts scanned).
    rewrite (rt_scanHosts_step_spec scanned h todo Hvalid Hhosts).
    cbn [mbind option_bind].
    replace (S (length scanned)) with (length (scanned ++ [h]))
      by (rewrite length_app; cbn; lia).
    apply IH; [exact Hvalid |]. rewrite <- app_assoc. exact Hhosts.
Qed.

Lemma rt_hosts_state_nil :
  hosts_state env ports timeout onProgress hosts []
  = {| calls := []; progress := []; allResults := []; thrown := None |}.
Proof. unfold hosts_state. destruct onProgress; reflexivity. Qed.

End RuntimeScanHosts.



(** * The discovery scan as it runs on Node *)

(** ** Values as ports *)

Lemma reads_connects v z :
  reads v z → 1 <= z <= 65535 → connect_port v = Some (Normal z).
Proof.
  unfold reads, to_number, connect_port. destruct v as [n | s |]; [| | done].
  - intros [= ->] Hz.
    destruct (Z.leb_spec 0 z); [| lia]. destruct (Z.leb_spec z 65535); [| lia].
    reflexivity.
  - destruct (Number s) as [p|] eqn:Hs;
      [| destruct (digits_then_dash s); discriminate].
    intros [= ->] Hz. destruct (Z.ltb_spec z 0); [lia |].
    assert (Hne : String.eqb s "" = false).
    { apply String.eqb_neq. intros ->. cbn in Hs. injection Hs as <-. lia. }
    rewrite Hne. destruct (Z.ltb_spec 65535 z); [lia | reflexivity].
Qed.

Lemma related_candidates_elem v candidates c :
  related_candidates v = Some candidates → c ∈ candidates →
  ∃ offset z,
    -2 <= offset <= 2 ∧ plus v offset = Some c ∧ reads c z ∧ 1 <= z <= 65535.
Proof.
  unfold related_candidates. intros Hcs Hc.
  destruct (mapM _ _) as [chosen|] eqn:Hchosen; [| done].
  cbn in Hcs. injection Hcs as <-.
  apply list_elem_of_join in Hc as (l & Hc & Hl).
  apply mapM_Some_1 in Hchosen.
  apply list_elem_of_lookup_1 in Hl as [i Hi].
  destruct (Forall2_lookup_r _ _ _ _ _ Hchosen Hi) as (offset & Hoffset & Hf).
  apply list_elem_of_lookup_2 in Hoffset. unfold for_range in Hoffset.
  apply elem_of_seqZ in Hoffset.
  destruct (plus v offset) as [relatedPort|] eqn:Hplus; [| done].
  cbn in Hf. destruct (to_number relatedPort) as [n|] eqn:Hn; [| done].
  cbn in Hf. injection Hf as <-.
  destruct n as [z|]; cbn in Hc; [| by apply elem_of_nil in Hc].
  destruct (Z.ltb_spec 0 z); cbn in Hc; [| by apply elem_of_nil in Hc].
  destruct (Z.leb_spec z 65535); cbn in Hc; [| by apply elem_of_nil in Hc].
  apply list_elem_of_singleton in Hc as ->.
  exists offset, z. unfold reads. split; [lia |]. split; [exact Hplus |].
  split; [exact Hn | lia].
Qed.

Lemma candidate_connects v candidates c :
  related_candidates v = Some candidates → c ∈ candidates →
  ∃ z, reads c z ∧ 1 <= z <= 65535 ∧ connect_port c = Some (Normal z).
Proof.
  intros Hcs Hc.
  destruct (related_candidates_elem v candidates c Hcs Hc)
    as (_ & z & _ & _ & Hz & Hrange).
  exists z. split; [exact Hz |]. split; [exact Hrange |].
  by apply reads_connects.
Qed.

Lemma supported_text v : supported v → is_Some (to_text v).
Proof.
  destruct v; cbn; [eauto | eauto |]. intros [cs Hcs]. vm_compute in Hcs.
  discriminate.
Qed.

Lemma number_supported p : supported (JNumber p).
Proof.
  unfold supported, related_candidates. apply fmap_is_Some.
  apply mapM_is_Some_2, Forall_forall. intros offset _. cbn. eauto.
Qed.

(** ** TCP checks of values *)

Section RuntimeValueChecks.
Context (env : Platform) (timeout : Z).

Lemma rt_checkPorts_cons n target targets :
  checkPorts env n timeout (target :: targets)
  = first ← checkPort env n target.1 target.2 timeout;
    rest ← checkPorts env (S n) timeout targets;
    Some match first, rest with
         | Throw e, _ => Throw e
         | Normal a, Normal values => Normal (a :: values)
         | Normal _, Throw e => Throw e
         end.
Proof.
  unfold checkPorts. cbn [imap]. rewrite Nat.add_0_r.
  rewrite (imap_ext _ (fun k target0 =>
             checkPort env (S n + k) target0.1 target0.2 timeout))
    by (intros; cbn; f_equal; lia).
  cbn [mapM]. unfold id at 1.
  destruct (checkPort env n target.1 target.2 timeout) as [first|];
    [| reflexivity].
  cbn [mbind option_bind].
  destruct (mapM id _) as [promises|]; [| reflexivity].
  cbn. destruct first; reflexivity.
Qed.

Lemma rt_checkPorts_normal targets : ∀ n results,
  checkPorts env n timeout targets = Some (Normal results) →
  port <$> results = targets.*2
  ∧ ∀ k r,
      results !! k = Some r → isOpen r = true →
      ∃ target z ms,
        targets !! k = Some target
        ∧ port r = target.2
        ∧ connect_port target.2 = Some (Normal z)
        ∧ tcp_socket env (n + k) target.1 z timeout = Connected ms.
Proof.
  induction targets as [|target targets IH]; intros n results.
  - intros [= <-]. split; [reflexivity |]. by intros k r ?.
  - rewrite rt_checkPorts_cons.
    destruct (checkPort env n target.1 target.2 timeout) as [first|] eqn:Hfirst;
      [| done].
    cbn [mbind option_bind].
    destruct (checkPorts env (S n) timeout targets) as [rest|] eqn:Hrest;
      [| done].
    cbn [mbind option_bind].
    destruct first as [a | e]; [| done]. destruct rest as [values | e]; [| done].
    intros [= <-]. destruct (IH (S n) values Hrest) as [Hports Hopen].
    unfold checkPort in Hfirst.
    destruct (timeout <? 0); [done |].
    destruct (connect_port target.2) as [[z | e] |] eqn:Hconnect; [| done..].
    cbn in Hfirst. injection Hfirst as <-.
    split.
    + cbn [fmap list_fmap]. rewrite Hports. f_equal.
      by destruct (tcp_socket env n target.1 z timeout).
    + intros [|k] r.
      * cbn. intros [= <-] Hr.
        exists target, z. rewrite Nat.add_0_r.
        destruct (tcp_socket env n target.1 z timeout) as [ms | |];
          [| done..].
        by exists ms.
      * cbn. intros Hk Hr.
        destruct (Hopen k r Hk Hr) as (target0 & z0 & ms & ? & ? & ? & Hms).
        exists target0, z0, ms. replace (n + S k)%nat with (S n + k)%nat by lia.
        done.
Qed.

Lemma rt_checkPorts_total targets : ∀ n,
  Forall (fun target => ∃ z, connect_port target.2 = Some (Normal z)) targets →
  ∃ settled,
    checkPorts env n timeout targets = Some settled
    ∧ (0 <= timeout → ∃ results, settled = Normal results).
Proof.
  induction targets as [|target targets IH]; intros n Hall.
  - exists (Normal []). split; [reflexivity | eauto].
  - apply Forall_cons in Hall as [[z Hz] Hall].
    destruct (IH (S n) Hall) as (rest & Hrest & Hnormal).
    rewrite rt_checkPorts_cons, Hrest. unfold checkPort. rewrite Hz.
    destruct (Z.ltb_spec timeout 0) as [Hneg | Hpos]; cbn [mbind option_bind].
    + eexists. split; [reflexivity | lia].
    + eexists. split; [reflexivity |]. intros _.
      destruct (Hnormal Hpos) as [values ->]. eauto.
Qed.

Lemma rt_checkPorts_candidates n ip v candidates :
  related_candidates v = Some candidates →
  ∃ settled,
    checkPorts env n timeout ((fun c => (ip, c)) <$> candidates) = Some settled
    ∧ (0 <= timeout → ∃ results, settled = Normal results).
Proof.
  intros Hcs. apply rt_checkPorts_total.
  apply Forall_fmap, Forall_forall. intros c Hc. cbn.
  destruct (candidate_connects v candidates c Hcs Hc) as (z & _ & _ & Hz).
  eauto.
Qed.

End RuntimeValueChecks.

(** ** The sort of the related ports *)

Lemma key_le_trans : Transitive key_le.
Proof. unfold key_le. intros a b c. lia. Qed.

Lemma key_le_total : Total key_le.
Proof. unfold key_le. intros a b. lia. Qed.

Lemma sort_ports_spec l sorted :
  sort_ports l = Some sorted → sorted ≡ₚ l ∧ ascending sorted.
Proof.
  unfold sort_ports. destruct (mapM _ l) as [keyed|] eqn:Hkeyed; [| done].
  cbn. intros [= <-]. apply mapM_Some_1 in Hkeyed.
  assert (Hpairs : Forall (fun kv => reads kv.2 kv.1) keyed
                   ∧ keyed.*2 = l).
  { induction Hkeyed as [|v kv l keyed Hv _ [IH1 IH2]]; [by split |].
    unfold reads.
    destruct (to_number v) as [[z|]|] eqn:Hz; cbn in Hv; [| done..].
    injection Hv as <-. split; [by constructor |].
    cbn. by rewrite IH2. }
  destruct Hpairs as [Hreads <-]. split.
  - by rewrite merge_sort_Permutation.
  - exists (merge_sort key_le keyed).*1. split.
    + apply Forall2_fmap, Forall_Forall2_diag.
      eapply Forall_impl; [| by intros kv Hkv; exact Hkv].
      by rewrite merge_sort_Permutation.
    + eapply StronglySorted_fmap;
        [| apply StronglySorted_merge_sort;
           [apply key_le_trans | apply key_le_total]].
      by intros a b.
Qed.

Lemma sort_ports_total l :
  Forall (fun v => ∃ z, reads v z) l → is_Some (sort_ports l).
Proof.
  intros Hall. unfold sort_ports.
  destruct (mapM_is_Some_2
              (fun v => n ← to_number v; z ← n; Some (z, v)) l)
    as [keyed Hkeyed].
  { eapply Forall_impl; [exact Hall |]. intros v [z Hz]. cbn.
    unfold reads in Hz. rewrite Hz. cbn. eauto. }
  rewrite Hkeyed. cbn. eauto.
Qed.

(** ** Discovery calls *)

Section RuntimeDiscovery.
Context (env : Platform) (timeout : Z).

Lemma rt_discover_parsed n h p info :
  discover4DServer env n h p timeout = Normal (Some info) →
  ∃ s, JSON_parse env s = Normal (Some info).
Proof.
  unfold discover4DServer. destruct (_ || _); [done |].
  destruct (udp_socket env n _ h p timeout) as [msgStr | | |]; [| done..].
  unfold on_message, message_try. destruct (_ || _); [done |].
  destruct (JSON_parse env _) as [reply | e] eqn:Hparse; [| done].
  intros [= ->]. eauto.
Qed.

Lemma rt_discover_valid n h p :
  valid_udp_port p → ∃ reply, discover4DServer env n h p timeout = Normal reply.
Proof.
  intros [Hlo Hhi]. unfold discover4DServer.
  destruct (Z.ltb_spec p 1); [lia |]. destruct (Z.ltb_spec 65535 p); [lia |].
  cbn [orb].
  destruct (udp_socket env n _ h p timeout) as [msgStr | | |]; eauto.
  unfold on_message. destruct (message_try env msgStr); eauto.
Qed.

Lemma rt_discover_invalid n h p :
  ¬ valid_udp_port p →
  discover4DServer env n h p timeout = Throw ERR_SOCKET_BAD_PORT.
Proof.
  intros Hbad. unfold discover4DServer, valid_udp_port in *.
  destruct (Z.ltb_spec p 1); [reflexivity |].
  destruct (Z.ltb_spec 65535 p); [reflexivity | lia].
Qed.

Lemma rt_start_tasks_lookup n targets k t :
  start_tasks env n timeout targets !! k = Some t →
  ∃ target,
    targets !! k = Some target
    ∧ t = {| task_ip := target.1; task_port := target.2;
             task_reply :=
               discover4DServer env (n + k) target.1 target.2 timeout;
             task_phase := AwaitingReply |}.
Proof.
  unfold start_tasks. rewrite list_lookup_imap.
  destruct (targets !! k) as [target|]; [| done].
  intros [= <-]. eauto.
Qed.

Lemma rt_start_tasks_settle n targets :
  Forall (fun target => valid_udp_port target.2) targets →
  ∃ replies,
    Promise_all (task_reply <$> start_tasks env n timeout targets)
    = Normal replies.
Proof.
  unfold start_tasks. revert n.
  induction targets as [|target targets IH]; intros n Hvalid; [by eexists |].
  apply Forall_cons in Hvalid as [Hp Hvalid].
  cbn [imap fmap list_fmap task_reply Promise_all].
  destruct (rt_discover_valid (n + 0) target.1 target.2 Hp) as [reply ->].
  rewrite (imap_ext _ (fun k target0 =>
             {| task_ip := target0.1; task_port := target0.2;
                task_reply :=
                  discover4DServer env (S n + k) target0.1 target0.2 timeout;
                task_phase := AwaitingReply |}))
    by (intros; cbn; do 2 f_equal; lia).
  destruct (IH (S n) Hvalid) as [replies ->]. eauto.
Qed.

Lemma rt_start_tasks_reject n targets :
  Exists (fun target => ¬ valid_udp_port target.2) targets →
  Promise_all (task_reply <$> start_tasks env n timeout targets)
  = Throw ERR_SOCKET_BAD_PORT.
Proof.
  unfold start_tasks. revert n.
  induction targets as [|target targets IH]; intros n Hbad;
    [by apply Exists_nil in Hbad |].
  cbn [imap fmap list_fmap task_reply Promise_all].
  rewrite (imap_ext (fun k target0 => _) (fun k target0 =>
             {| task_ip := target0.1; task_port := target0.2;
                task_reply :=
                  discover4DServer env (S n + k) target0.1 target0.2 timeout;
                task_phase := AwaitingReply |}))
    by (intros; cbn; do 2 f_equal; lia).
  destruct (decide (valid_udp_port target.2)) as [Hp | Hp].
  - destruct (rt_discover_valid (n + 0) target.1 target.2 Hp) as [reply ->].
    apply Exists_cons in Hbad as [? | Hbad]; [done |].
    by rewrite (IH (S n) Hbad).
  - by rewrite (rt_discover_invalid (n + 0) target.1 target.2 Hp).
Qed.

(** A rejection of [Promise.all(batchPromises)] before any reply comes
    is the doing of a port [socket.send] refuses. *)
Lemma rt_start_tasks_rejected n targets e :
  Promise_all (task_reply <$> start_tasks env n timeout targets) = Throw e →
  Exists (fun target => ¬ valid_udp_port target.2) targets.
Proof.
  intros Hthrow.
  destruct (decide (Forall (fun target => valid_udp_port target.2) targets))
    as [Hvalid | Hbad].
  - destruct (rt_start_tasks_settle n targets Hvalid) as [replies Hreplies].
    congruence.
  - by apply not_Forall_Exists in Hbad; [| intros target; apply _].
Qed.

End RuntimeDiscovery.

(** ** One discovery callback *)

Section RuntimeCallbacks.
Context (env : Platform) (ports : list Z) (timeout : Z) (ips : list string).

Lemma rt_connected_mono log log' h v :
  log `prefix_of` log' →
  connected env timeout log h v → connected env timeout log' h v.
Proof.
  intros [extra ->] (n & z & ms & Hn & Hz & Hms). exists n, z, ms.
  split; [apply lookup_app_l_Some, Hn | done].
Qed.

Lemma rt_result_ok_mono log log' r :
  log `prefix_of` log' →
  result_ok env ports timeout ips log r → result_ok env ports timeout ips log' r.
Proof.
  intros Hlog (info & candidates & related & H). exists info, candidates, related.
  destruct H as (? & ? & ? & ? & ? & ? & ? & ? & ? & ? & Hconn).
  do 10 (split; [assumption |]).
  intros v Hv. eapply rt_connected_mono; eauto.
Qed.

Lemma rt_task_ok_mono log log' t :
  log `prefix_of` log' →
  task_ok env ports timeout ips log t → task_ok env ports timeout ips log' t.
Proof.
  intros Hlog (Hip & Hreply & Hphase). split; [exact Hip |].
  split; [exact Hreply |].
  destruct (task_phase t) as [| info tcpResults |]; [done | | done].
  destruct Hphase as (? & ? & Hconn). do 2 (split; [assumption |]).
  intros r Hr Hopen. eapply rt_connected_mono; eauto.
Qed.

Lemma rt_udp_inv_same st st' :
  probes st' = probes st → foundServers st' = foundServers st →
  rejected st' = rejected st →
  udp_inv env ports timeout ips st → udp_inv env ports timeout ips st'.
Proof. unfold udp_inv. by intros -> -> ->. Qed.

Lemma rt_task_settled log t :
  task_ok env ports timeout ips log t →
  task_ok env ports timeout ips log (with_phase t Settled).
Proof. intros (Hip & Hreply & _). by split. Qed.

Lemma rt_udp_inv_probing tcpChecks st :
  Forall (probe_ok env ports timeout) tcpChecks →
  udp_inv env ports timeout ips st →
  udp_inv env ports timeout ips (probing tcpChecks st).
Proof.
  intros Hnew (Hprobes & Hentries & Hrejected). unfold udp_inv.
  cbn [probing probes foundServers rejected].
  split; [by apply Forall_app |]. split.
  - eapply Forall_impl; [exact Hentries |].
    intros entry. apply rt_result_ok_mono. by apply prefix_app_r.
  - intros Hsome. destruct (Hrejected Hsome) as [? | Hne]; [by left | right].
    destruct (probes st); [done | discriminate].
Qed.

Lemma rt_on_reply_inv t st :
  udp_inv env ports timeout ips st →
  task_ok env ports timeout ips (probes st) t →
  udp_inv env ports timeout ips (on_reply env timeout t st).2
  ∧ task_ok env ports timeout ips (probes (on_reply env timeout t st).2)
      (on_reply env timeout t st).1
  ∧ probes st `prefix_of` probes (on_reply env timeout t st).2.
Proof.
  intros Hst Ht.
  assert (Hcounted : udp_inv env ports timeout ips (counted st))
    by (by apply (rt_udp_inv_same st)).
  pose proof (rt_task_settled _ t Ht) as Hsettled.
  assert (Hquiet : ∀ st',
            probes st' = probes st → foundServers st' = foundServers st →
            rejected st' = rejected st →
            udp_inv env ports timeout ips st'
            ∧ task_ok env ports timeout ips (probes st') (with_phase t Settled)
            ∧ probes st `prefix_of` probes st').
  { intros st' Hp Hf Hr. rewrite Hp.
    split; [by apply (rt_udp_inv_same st) | done]. }
  unfold on_reply.
  destruct (task_reply t) as [[info|] | e] eqn:Ereply;
    [| by apply Hquiet..].
  cbv zeta.
  destruct (server_key (task_ip t) (info_port info)) as [key|];
    [| by apply Hquiet].
  destruct (Map_has key _); [by apply Hquiet |].
  destruct (related_candidates (info_port info)) as [candidates|] eqn:Hcs;
    [| by apply Hquiet].
  set (tcpChecks := (fun relatedPort => (task_ip t, relatedPort)) <$> candidates).
  assert (Hnew : Forall (probe_ok env ports timeout) tcpChecks).
  { apply Forall_fmap, Forall_forall. intros c Hc. exists info, candidates.
    destruct Ht as (_ & Hreply & _). cbn. auto. }
  destruct (checkPorts env _ timeout tcpChecks) as [[tcpResults | e] |] eqn:Hcheck;
    [| | by apply Hquiet].
  - (* the TCP checks are under way *)
    cbn [fst snd]. split; [by apply rt_udp_inv_probing |].
    split; [| by apply prefix_app_r].
    destruct Ht as (Hip & Hreply & _). split; [exact Hip |].
    split; [exact Hreply |]. cbn [task_phase with_phase task_reply task_ip].
    apply rt_checkPorts_normal in Hcheck as [Hports Hopen].
    split; [exact Ereply |]. split.
    + rewrite Hports. unfold tcpChecks. rewrite <- list_fmap_compose.
      by rewrite list_fmap_id.
    + intros r Hr Hisopen. apply list_elem_of_lookup_1 in Hr as [k Hk].
      destruct (Hopen k r Hk Hisopen) as (target & z & ms & Htarget & Hport & Hz & Hms).
      unfold tcpChecks in Htarget. rewrite list_lookup_fmap in Htarget.
      destruct (candidates !! k) as [c|] eqn:Hc; [| done].
      injection Htarget as <-. cbn [fst snd] in *.
      exists (length (probes st) + k)%nat, z, ms. rewrite Hport.
      split; [| done]. cbn [probing probes counted].
      rewrite lookup_app_r by lia.
      replace (length (probes st) + k - length (probes st))%nat with k by lia.
      unfold tcpChecks. by rewrite list_lookup_fmap, Hc.
  - (* a TCP check is refused *)
    cbn [fst snd]. split; [| split].
    + destruct (rt_udp_inv_probing tcpChecks (counted st) Hnew Hcounted)
        as (Hprobes & Hentries & _).
      split; [exact Hprobes |]. split; [exact Hentries |].
      intros _. right. cbn [rejecting probing probes counted].
      destruct tcpChecks; [done |]. by destruct (probes st).
    + eapply rt_task_ok_mono; [| exact Hsettled].
      cbn [rejecting probing probes counted]. by apply prefix_app_r.
    + cbn [rejecting probing probes counted]. by apply prefix_app_r.
Qed.

Lemma rt_on_tcp_done_inv t info tcpResults st :
  udp_inv env ports timeout ips st →
  task_ok env ports timeout ips (probes st) t →
  task_phase t = AwaitingTcp info tcpResults →
  udp_inv env ports timeout ips (on_tcp_done t info tcpResults st).2
  ∧ task_ok env ports timeout ips (probes (on_tcp_done t info tcpResults st).2)
      (on_tcp_done t info tcpResults st).1
  ∧ probes st `prefix_of` probes (on_tcp_done t info tcpResults st).2.
Proof.
  intros Hst Ht Ephase. pose proof (rt_task_settled _ t Ht) as Hsettled.
  destruct Ht as (Hip & Hreply & Hphase). rewrite Ephase in Hphase.
  destruct Hphase as (Ereply & Hcs & Hconn).
  unfold on_tcp_done.
  destruct (server_key (task_ip t) (info_port info)) as [key|];
    [| by split; [apply (rt_udp_inv_same st) |]].
  destruct (sort_ports _) as [sorted|] eqn:Hsort;
    [| by split; [apply (rt_udp_inv_same st) |]].
  cbn [fst snd recording probes]. split; [| done].
  destruct Hst as (Hprobes & Hentries & Hrejected).
  split; [exact Hprobes |]. split; [| exact Hrejected].
  cbn [recording foundServers probes].
  apply Map_set_Forall; [| exact Hentries]. cbn [snd].
  apply sort_ports_spec in Hsort as [Hperm Hsorted].
  exists info, (port <$> tcpResults), sorted.
  cbn [base host port isOpen responseTime discoveryInfo relatedPorts].
  do 5 (split; [done |]). split; [by apply Hreply |].
  do 2 (split; [done |]). split; [| split; [exact Hsorted |]].
  - intros v Hv. rewrite Hperm in Hv.
    apply list_elem_of_fmap in Hv as (r & -> & Hr).
    apply list_elem_of_filter in Hr as [_ Hr]. by apply list_elem_of_fmap_2.
  - intros v Hv. rewrite Hperm in Hv.
    apply list_elem_of_fmap in Hv as (r & -> & Hr).
    apply list_elem_of_filter in Hr as [Hopen Hr]. by apply Hconn.
Qed.

Lemma rt_fires_inv t st :
  udp_inv env ports timeout ips st →
  task_ok env ports timeout ips (probes st) t →
  udp_inv env ports timeout ips (fires env timeout t st).2
  ∧ task_ok env ports timeout ips (probes (fires env timeout t st).2)
      (fires env timeout t st).1
  ∧ probes st `prefix_of` probes (fires env timeout t st).2.
Proof.
  intros Hst Ht. unfold fires.
  destruct (task_phase t) as [| info tcpResults |] eqn:Ephase.
  - by apply rt_on_reply_inv.
  - by apply rt_on_tcp_done_inv.
  - done.
Qed.

End RuntimeCallbacks.

(** ** Callbacks on supported replies *)

Section RuntimeSupported.
Context (env : Platform) (ports : list Z) (timeout : Z) (ips : list string).
Hypothesis env_supported : replies_supported env.

Lemma rt_replied_supported ip info :
  replied env ports timeout ip info → supported (info_port info).
Proof.
  intros (n & port0 & _ & Hreply).
  apply rt_discover_parsed in Hreply as [s Hs]. eapply env_supported, Hs.
Qed.

Lemma rt_server_key_supported ip v :
  supported v → ∃ key, server_key ip v = Some key.
Proof.
  intros Hv. unfold server_key.
  destruct (supported_text v Hv) as [text ->]. cbn. eauto.
Qed.

(** On supported replies a callback stays within the fragment, and with
    a delay that is not negative none of its TCP checks is refused. *)
Lemma rt_fires_clean t st :
  task_ok env ports timeout ips (probes st) t →
  beyond (fires env timeout t st).2 = beyond st
  ∧ (0 <= timeout → rejected (fires env timeout t st).2 = rejected st).
Proof.
  intros (Hip & Hreply & Hphase). unfold fires.
  destruct (task_phase t) as [| info tcpResults |] eqn:Ephase; [| | done].
  - unfold on_reply.
    destruct (task_reply t) as [[info|] | e] eqn:Ereply; [| done..].
    cbv zeta.
    pose proof (rt_replied_supported _ _ (Hreply info eq_refl)) as Hinfo.
    destruct (rt_server_key_supported (task_ip t) _ Hinfo) as [key ->].
    destruct (Map_has key _); [done |].
    destruct Hinfo as [candidates Hcs]. rewrite Hcs.
    destruct (rt_checkPorts_candidates env timeout
                (length (probes (counted st))) (task_ip t) _ _ Hcs)
      as (settled & -> & Hnormal).
    destruct settled as [tcpResults | e]; [done |].
    split; [done |]. intros Ht. by destruct (Hnormal Ht).
  - destruct Hphase as (Ereply & Hcs & _). unfold on_tcp_done.
    assert (Hinfo : supported (info_port info)) by (by eexists).
    destruct (rt_server_key_supported (task_ip t) _ Hinfo) as [key ->].
    destruct (sort_ports_total (port <$> open_only tcpResults)) as [sorted ->];
      [| done].
    apply Forall_fmap, Forall_forall. intros r Hr.
    apply list_elem_of_filter in Hr as [_ Hr].
    destruct (candidate_connects _ _ (port r) Hcs) as (z & Hz & _);
      [by apply list_elem_of_fmap_2 | by exists z].
Qed.

End RuntimeSupported.

(** ** The events of a batch *)

Section RuntimeBatchEvents.
Context (env : Platform) (ports : list Z) (timeout : Z) (ips : list string).

Lemma rt_fires_rank t st :
  task_ip (fires env timeout t st).1 = task_ip t
  ∧ task_reply (fires env timeout t st).1 = task_reply t
  ∧ (rank (fires env timeout t st).1 <= pred (rank t))%nat.
Proof.
  unfold fires, rank.
  destruct (task_phase t) as [| info tcpResults |] eqn:Ephase.
  - unfold on_reply.
    destruct (task_reply t) as [[info|] | e] eqn:Ereply;
      [| cbn; repeat split; auto with lia..].
    cbv zeta.
    destruct (server_key _ _); [| cbn; repeat split; auto with lia].
    destruct (Map_has _ _); [cbn; repeat split; auto with lia |].
    destruct (related_candidates _); [| cbn; repeat split; auto with lia].
    destruct (checkPorts _ _ _ _) as [[? | ?] |];
      cbn; repeat split; auto with lia.
  - unfold on_tcp_done.
    destruct (server_key _ _); [destruct (sort_ports _) |];
      cbn; repeat split; auto with lia.
  - cbn. rewrite Ephase. repeat split; auto with lia.
Qed.

Lemma rt_fires_count t st :
  completedChecks (fires env timeout t st).2
  + Z.of_nat (if is_awaiting (fires env timeout t st).1 then 1 else 0)
  = completedChecks st + Z.of_nat (if is_awaiting t then 1 else 0)
  ∧ discoveries (fires env timeout t st).2 = discoveries st
  ∧ notified (fires env timeout t st).2 = notified st.
Proof.
  unfold fires, is_awaiting.
  destruct (task_phase t) as [| info tcpResults |] eqn:Ephase.
  - unfold on_reply.
    destruct (task_reply t) as [[info|] | e] eqn:Ereply;
      [| cbn; repeat split; lia..].
    cbv zeta.
    destruct (server_key _ _); [| cbn; repeat split; lia].
    destruct (Map_has _ _); [cbn; repeat split; lia |].
    destruct (related_candidates _); [| cbn; repeat split; lia].
    destruct (checkPorts _ _ _ _) as [[? | ?] |]; cbn; repeat split; lia.
  - unfold on_tcp_done.
    destruct (server_key _ _); [destruct (sort_ports _) |];
      cbn; repeat split; lia.
  - cbn. rewrite Ephase. repeat split; lia.
Qed.

(** The first rejection is the one the scan ends with. *)
Lemma rt_fires_rejected_kept t st e :
  rejected st = Some e → rejected (fires env timeout t st).2 = Some e.
Proof.
  intros Hrejected. unfold fires.
  destruct (task_phase t) as [| info tcpResults |]; [| | done].
  - unfold on_reply. destruct (task_reply t) as [[info|] | e']; [| done..].
    cbv zeta.
    destruct (server_key _ _); [| done].
    destruct (Map_has _ _); [done |].
    destruct (related_candidates _); [| done].
    destruct (checkPorts _ _ _ _) as [[? | ?] |]; [done | | done].
    cbn. by rewrite Hrejected.
  - unfold on_tcp_done.
    by destruct (server_key _ _); [destruct (sort_ports _) |].
Qed.

Lemma rt_advance_inv k cfg :
  cfg_inv env ports timeout ips cfg →
  cfg_inv env ports timeout ips (advance env timeout k cfg).
Proof.
  intros [Hst Htasks]. unfold advance.
  destruct (cfg.1 !! k) as [t|] eqn:Ek; [| by split].
  pose proof (Forall_lookup_1 _ _ _ _ Htasks Ek) as Ht.
  destruct (rt_fires_inv env ports timeout ips t cfg.2 Hst Ht)
    as (Hst' & Ht' & Hprefix).
  destruct (fires env timeout t cfg.2) as [t' st']. cbn [fst snd] in *.
  split; [exact Hst' |]. cbn [fst snd].
  apply Forall_insert; [| exact Ht'].
  eapply Forall_impl; [exact Htasks |].
  intros t0. apply rt_task_ok_mono, Hprefix.
Qed.

Lemma rt_advance_clean k cfg :
  replies_supported env →
  cfg_inv env ports timeout ips cfg →
  beyond (advance env timeout k cfg).2 = beyond cfg.2
  ∧ (0 <= timeout → rejected (advance env timeout k cfg).2 = rejected cfg.2).
Proof.
  intros Henv [Hst Htasks]. unfold advance.
  destruct (cfg.1 !! k) as [t|] eqn:Ek; [| done].
  pose proof (Forall_lookup_1 _ _ _ _ Htasks Ek) as Ht.
  pose proof (rt_fires_clean env ports timeout ips Henv t cfg.2 Ht) as Hclean.
  by destruct (fires env timeout t cfg.2) as [t' st'].
Qed.

Lemma rt_advance_rejected_kept k cfg e :
  rejected cfg.2 = Some e → rejected (advance env timeout k cfg).2 = Some e.
Proof.
  intros Hrejected. unfold advance.
  destruct (cfg.1 !! k) as [t|]; [| done].
  pose proof (rt_fires_rejected_kept t cfg.2 e Hrejected).
  by destruct (fires env timeout t cfg.2) as [t' st'].
Qed.

Lemma rt_advance_length k cfg :
  length (advance env timeout k cfg).1 = length cfg.1.
Proof.
  unfold advance. destruct (cfg.1 !! k); [| reflexivity].
  destruct (fires _ _ _ _). cbn. apply length_insert.
Qed.

Lemma rt_advance_tasks k cfg i t' :
  (advance env timeout k cfg).1 !! i = Some t' →
  ∃ t, cfg.1 !! i = Some t
       ∧ task_ip t' = task_ip t ∧ task_reply t' = task_reply t
       ∧ (rank t' <= rank t)%nat
       ∧ (i = k → (rank t' <= pred (rank t))%nat).
Proof.
  unfold advance. destruct (cfg.1 !! k) as [t|] eqn:Ek.
  - pose proof (rt_fires_rank t cfg.2) as (Hip & Hreply & Hrank).
    destruct (fires env timeout t cfg.2) as [t1 st1]. cbn [fst snd] in *.
    destruct (decide (i = k)) as [-> | Hne].
    + rewrite list_lookup_insert_eq by (eapply lookup_lt_Some, Ek).
      intros [= <-]. exists t. repeat split; auto with lia.
    + rewrite list_lookup_insert_ne by congruence.
      intros Hi. exists t'. repeat split; auto with lia.
  - intros Hi. exists t'. repeat split; auto. intros ->. congruence.
Qed.

Lemma rt_advance_count k cfg :
  completedChecks (advance env timeout k cfg).2
  + Z.of_nat (awaiting (advance env timeout k cfg).1)
  = completedChecks cfg.2 + Z.of_nat (awaiting cfg.1)
  ∧ discoveries (advance env timeout k cfg).2 = discoveries cfg.2
  ∧ notified (advance env timeout k cfg).2 = notified cfg.2.
Proof.
  unfold advance.
  destruct (cfg.1 !! k) as [t|] eqn:Ek; [| done].
  destruct (rt_fires_count t cfg.2) as (Hcount & Hd & Hn).
  destruct (fires env timeout t cfg.2) as [t' st']. cbn [fst snd] in *.
  split; [| done].
  assert (Hins : (awaiting (<[k:=t']> cfg.1) + (if is_awaiting t then 1 else 0)
                  = awaiting cfg.1 + (if is_awaiting t' then 1 else 0))%nat).
  { unfold awaiting.
    rewrite insert_take_drop by (eapply lookup_lt_Some, Ek).
    rewrite <- (take_drop_middle cfg.1 k t Ek) at 3.
    rewrite !filter_app, !filter_cons, !length_app.
    destruct (is_awaiting t), (is_awaiting t');
      repeat case_decide; try done; cbn [length]; lia. }
  destruct (is_awaiting t), (is_awaiting t'); lia.
Qed.

Lemma rt_run_events_app order1 order2 cfg :
  run_events env timeout (order1 ++ order2) cfg
  = run_events env timeout order2 (run_events env timeout order1 cfg).
Proof. unfold run_events. apply foldl_app. Qed.

Lemma rt_run_events_inv order : ∀ cfg,
  cfg_inv env ports timeout ips cfg →
  cfg_inv env ports timeout ips (run_events env timeout order cfg).
Proof.
  induction order as [|k order IH]; intros cfg Hcfg; [exact Hcfg |].
  cbn. by apply IH, rt_advance_inv.
Qed.

Lemma rt_run_events_clean order : ∀ cfg,
  replies_supported env →
  cfg_inv env ports timeout ips cfg →
  beyond (run_events env timeout order cfg).2 = beyond cfg.2
  ∧ (0 <= timeout →
     rejected (run_events env timeout order cfg).2 = rejected cfg.2).
Proof.
  induction order as [|k order IH]; intros cfg Henv Hcfg; [done |].
  change (run_events env timeout (k :: order) cfg)
    with (run_events env timeout order (advance env timeout k cfg)).
  destruct (IH (advance env timeout k cfg) Henv (rt_advance_inv k cfg Hcfg))
    as [-> Hrejected].
  destruct (rt_advance_clean k cfg Henv Hcfg) as [-> Hrejected'].
  split; [done |]. intros Ht. by rewrite Hrejected, Hrejected'.
Qed.

Lemma rt_run_events_length order : ∀ cfg,
  length (run_events env timeout order cfg).1 = length cfg.1.
Proof.
  induction order as [|k order IH]; intros cfg; [reflexivity |].
  cbn. etrans; [apply IH | apply rt_advance_length].
Qed.

Lemma rt_run_events_tasks order : ∀ cfg i t',
  (run_events env timeout order cfg).1 !! i = Some t' →
  ∃ t, cfg.1 !! i = Some t
       ∧ task_ip t' = task_ip t ∧ task_reply t' = task_reply t.
Proof.
  induction order as [|k order IH]; intros cfg i t' Hi; [by exists t' |].
  apply IH in Hi as (t1 & Hi & Hip1 & Hreply1).
  apply rt_advance_tasks in Hi as (t & Hi & Hip & Hreply & _).
  exists t. split; [exact Hi |]. split; congruence.
Qed.

Lemma rt_run_events_count order : ∀ cfg,
  completedChecks (run_events env timeout order cfg).2
  + Z.of_nat (awaiting (run_events env timeout order cfg).1)
  = completedChecks cfg.2 + Z.of_nat (awaiting cfg.1)
  ∧ discoveries (run_events env timeout order cfg).2 = discoveries cfg.2
  ∧ notified (run_events env timeout order cfg).2 = notified cfg.2.
Proof.
  induction order as [|k order IH]; intros cfg; [done |].
  change (run_events env timeout (k :: order) cfg)
    with (run_events env timeout order (advance env timeout k cfg)).
  destruct (IH (advance env timeout k cfg)) as (-> & -> & ->).
  apply rt_advance_count.
Qed.

Lemma rt_run_events_rejected_kept order : ∀ cfg e,
  rejected cfg.2 = Some e →
  rejected (run_events env timeout order cfg).2 = Some e.
Proof.
  induction order as [|k order IH]; intros cfg e Hrejected; [exact Hrejected |].
  cbn. by apply IH, rt_advance_rejected_kept.
Qed.

(** A pass over all the tasks takes one event off each. *)
Lemma rt_run_events_pass (bound : nat) len : ∀ start cfg,
  (start + len)%nat = length cfg.1 →
  (∀ i t, cfg.1 !! i = Some t →
          (rank t <= if decide (i < start)%nat then pred bound else bound)%nat) →
  ∀ i t', (run_events env timeout (seq start len) cfg).1 !! i = Some t' →
          (rank t' <= pred bound)%nat.
Proof.
  induction len as [|len IH]; intros start cfg Hlen Hranks i t' Hi.
  - cbn in Hi. specialize (Hranks i t' Hi).
    apply lookup_lt_Some in Hi. rewrite decide_True in Hranks by lia. exact Hranks.
  - cbn in Hi. eapply (IH (S start)); [| | exact Hi].
    + rewrite rt_advance_length. lia.
    + intros j t1 Hj.
      apply rt_advance_tasks in Hj as (t0 & Hj & _ & _ & Hrank & Hk).
      specialize (Hranks j t0 Hj).
      destruct (decide (j = start)) as [-> | Hne].
      * specialize (Hk eq_refl). rewrite decide_False in Hranks by lia.
        rewrite decide_True by lia. lia.
      * repeat case_decide; lia.
Qed.

Lemma rt_rank_le_2 t : (rank t <= 2)%nat.
Proof. unfold rank. destruct (task_phase t); lia. Qed.

(** At the end of a batch every callback has returned. *)
Lemma rt_batch_settles order cfg i t' :
  let rest := seq 0 (length cfg.1) ++ seq 0 (length cfg.1) in
  (run_events env timeout (order ++ rest) cfg).1 !! i = Some t' →
  task_phase t' = Settled.
Proof.
  cbv zeta. rewrite !rt_run_events_app. intros Hi.
  set (cfg1 := run_events env timeout order cfg) in *.
  assert (Hlen1 : length cfg1.1 = length cfg.1) by apply rt_run_events_length.
  rewrite <- Hlen1 in Hi.
  set (cfg2 := run_events env timeout (seq 0 (length cfg1.1)) cfg1) in *.
  assert (Hlen2 : length cfg2.1 = length cfg1.1) by apply rt_run_events_length.
  assert (Hrank : (rank t' <= pred 1)%nat).
  { rewrite <- Hlen2 in Hi.
    eapply (rt_run_events_pass 1 (length cfg2.1) 0 cfg2); [done | | exact Hi].
    intros j t Hj. rewrite decide_False by lia.
    eapply (rt_run_events_pass 2 (length cfg1.1) 0 cfg1); [done | | exact Hj].
    intros j' t0 _. rewrite decide_False by lia. apply rt_rank_le_2. }
  unfold rank in Hrank. destruct (task_phase t'); cbn in Hrank; [lia | lia | done].
Qed.

Lemma rt_awaiting_settled tasks :
  (∀ i t, tasks !! i = Some t → task_phase t = Settled) → awaiting tasks = 0%nat.
Proof.
  unfold awaiting. induction tasks as [|t tasks IH]; intros Hall; [reflexivity |].
  rewrite filter_cons_False.
  - apply IH. intros i t' Hi. apply (Hall (S i)). exact Hi.
  - unfold is_awaiting. rewrite (Hall 0%nat t eq_refl). discriminate.
Qed.

Lemma rt_awaiting_start n targets :
  Forall (fun target => valid_udp_port target.2) targets →
  awaiting (start_tasks env n timeout targets) = length targets.
Proof.
  unfold awaiting, start_tasks. revert n.
  induction targets as [|target targets IH]; intros n Hvalid; [reflexivity |].
  apply Forall_cons in Hvalid as [Hp Hvalid].
  cbn [imap]. rewrite filter_cons_True.
  - cbn [length]. f_equal. rewrite <- (IH (S n) Hvalid). do 2 f_equal.
    apply imap_ext. intros k x _. cbn. do 2 f_equal. lia.
  - unfold is_awaiting. cbn.
    by destruct (rt_discover_valid env timeout (n + 0) target.1 target.2 Hp)
      as [reply ->].
Qed.

Lemma rt_start_tasks_ok n hosts log :
  hosts ⊆ ips →
  Forall (task_ok env ports timeout ips log)
         (start_tasks env n timeout (targets_of hosts ports)).
Proof.
  intros Hhosts. apply Forall_lookup. intros k t Hk.
  apply rt_start_tasks_lookup in Hk as (target & Htarget & ->).
  apply list_elem_of_lookup_2 in Htarget.
  split; [| split; [| done]]; cbn.
  - eapply Hhosts, targets_of_host, Htarget.
  - intros info Hinfo. exists (n + k)%nat, target.2.
    split; [eapply targets_of_port, Htarget | exact Hinfo].
Qed.

End RuntimeBatchEvents.

(** ** The batch loop of [scanSubnetUDP] *)

Lemma slice_subseteq {A} (l : list A) start stop : slice l start stop ⊆ l.
Proof. unfold slice. etrans; [apply subseteq_take | apply subseteq_drop]. Qed.

Lemma rt_length_targets_of hosts (ports : list Z) :
  length (targets_of hosts ports) = (length hosts * length ports)%nat.
Proof.
  induction hosts as [|h hosts IH]; [reflexivity |].
  rewrite targets_of_cons, length_app, length_fmap, IH. cbn. lia.
Qed.

Lemma rt_udp_inv_init env ports timeout ips :
  udp_inv env ports timeout ips
    {| foundServers := []; completedChecks := 0; discoveries := [];
       probes := []; notified := []; rejected := None; beyond := false |}.
Proof.
  split; [constructor |]. split; [constructor |]. cbn. by intros [? [=]].
Qed.

Section RuntimeScanSubnetUDP.
Context (env : Platform) (ports : list Z) (timeout : Z).
Context (batchSize : Z) (onProgress : bool) (ips : list string).
Hypothesis batchSize_pos : 1 <= batchSize.

(** What a batch leaves satisfies the invariant of the scan, however the
    batch ends. *)
Lemma rt_scanSubnetUDP_batch_inv b ipIdx st :
  udp_inv env ports timeout ips st →
  let st' := scanSubnetUDP_batch env ports timeout batchSize onProgress ips
               b ipIdx st in
  udp_inv env ports timeout ips st'
  ∧ (replies_supported env → beyond st' = beyond st).
Proof.
  intros Hst. cbv zeta. unfold scanSubnetUDP_batch.
  set (hosts := slice ips ipIdx (ipIdx + batchSize)).
  set (tasks := start_tasks env _ timeout (targets_of hosts ports)).
  set (st0 := {| foundServers := foundServers st;
                 completedChecks := completedChecks st;
                 discoveries := discoveries st ++ targets_of hosts ports;
                 probes := probes st; notified := notified st;
                 rejected := rejected st; beyond := beyond st |}).
  set (order := arrival_order env b ++ _).
  assert (Hst0 : udp_inv env ports timeout ips st0) by exact Hst.
  set (st1 := match Promise_all (task_reply <$> tasks) with
              | Normal _ => st0
              | Throw e => rejecting e st0
              end).
  assert (Hst1 : udp_inv env ports timeout ips st1 ∧ beyond st1 = beyond st).
  { unfold st1.
    destruct (Promise_all (task_reply <$> tasks)) as [replies | e] eqn:Hall;
      [by split |].
    split; [| done]. destruct Hst0 as (Hprobes & Hentries & _).
    split; [exact Hprobes |]. split; [exact Hentries |].
    intros _. left.
    apply rt_start_tasks_rejected, Exists_exists in Hall
      as (target & Htarget & Hbad).
    apply Exists_exists. exists target.2.
    split; [eapply targets_of_port, Htarget | exact Hbad]. }
  destruct Hst1 as [Hst1 Hbeyond1].
  assert (Hcfg : cfg_inv env ports timeout ips (tasks, st1)).
  { split; [exact Hst1 |]. apply rt_start_tasks_ok, slice_subseteq. }
  pose proof (rt_run_events_inv env ports timeout ips order _ Hcfg)
    as [Hst2 _].
  pose proof (fun Henv =>
                proj1 (rt_run_events_clean env ports timeout ips order _
                         Henv Hcfg)) as Hbeyond.
  destruct (run_events env timeout order (tasks, st1)) as [tasks' st2].
  cbn [fst snd] in *. rewrite Hbeyond1 in Hbeyond.
  destruct (rejected st2) as [e|] eqn:Hrejected; [by split |].
  split; [| exact Hbeyond].
  destruct Hst2 as (Hprobes & Hentries & _).
  split; [exact Hprobes |]. split; [exact Hentries |].
  cbn. by intros [? [=]].
Qed.

Lemma rt_scanSubnetUDP_loop_inv (fuel : nat) : ∀ (b i : nat) st,
  (length ips - i <= fuel)%nat →
  udp_inv env ports timeout ips st →
  ∃ st',
    scanSubnetUDP_loop env ports timeout batchSize onProgress ips fuel b
      (Z.of_nat i) st = Some st'
    ∧ udp_inv env ports timeout ips st'
    ∧ (replies_supported env → beyond st' = beyond st).
Proof.
  induction fuel as [|fuel IH]; intros b i st Hfuel Hst;
    cbn [scanSubnetUDP_loop];
    (destruct (rejected st); [by exists st |]);
    destruct (Z.ltb_spec (Z.of_nat i) (Z.of_nat (length ips))) as [Hmore | Hdone];
    try lia; try (by exists st).
  destruct (rt_scanSubnetUDP_batch_inv b (Z.of_nat i) st Hst) as [Hst1 Hbeyond1].
  set (st1 := scanSubnetUDP_batch _ _ _ _ _ _ _ _ _) in *.
  replace (Z.of_nat i + batchSize)
    with (Z.of_nat (i + Z.to_nat batchSize)) by lia.
  destruct (IH (S b) (i + Z.to_nat batchSize)%nat st1) as
    (st' & Hloop & Hst' & Hbeyond); [lia | exact Hst1 |].
  exists st'. split; [exact Hloop |]. split; [exact Hst' |].
  intros Henv. by rewrite Hbeyond, Hbeyond1.
Qed.

(** *** Accepted ports, a delay that is not negative, supported replies *)

Hypothesis ports_valid : Forall valid_udp_port ports.
Hypothesis timeout_valid : 0 <= timeout.
Hypothesis env_supported : replies_supported env.

Lemma rt_udp_boundary_init :
  udp_boundary env ports timeout batchSize onProgress ips 0
    {| foundServers := []; completedChecks := 0; discoveries := [];
       probes := []; notified := []; rejected := None; beyond := false |}.
Proof.
  split; [apply rt_udp_inv_init |]. do 2 (split; [reflexivity |]).
  cbn. destruct onProgress; done.
Qed.

Lemma rt_scanSubnetUDP_batch_boundary (k : nat) st :
  Z.of_nat k * batchSize < Z.of_nat (length ips) →
  udp_boundary env ports timeout batchSize onProgress ips k st →
  udp_boundary env ports timeout batchSize onProgress ips (S k)
    (scanSubnetUDP_batch env ports timeout batchSize onProgress ips
       k (Z.of_nat k * batchSize) st).
Proof.
  intros Hk (Hst & Hrejected & Hbeyond & Hdisc & Hcount & Hnotified).
  unfold scanSubnetUDP_batch.
  rewrite (batch_index batchSize batchSize_pos) in *.
  rewrite (slice_batch batchSize ips batchSize_pos) by lia.
  set (hosts := take (Z.to_nat batchSize) (drop (k * Z.to_nat batchSize) ips)).
  set (tasks := start_tasks env _ timeout (targets_of hosts ports)).
  set (st0 := {| foundServers := foundServers st;
                 completedChecks := completedChecks st;
                 discoveries := discoveries st ++ targets_of hosts ports;
                 probes := probes st; notified := notified st;
                 rejected := rejected st; beyond := beyond st |}).
  set (order := arrival_order env k ++ _).
  assert (Hhosts : hosts ⊆ ips).
  { unfold hosts. etrans; [apply subseteq_take | apply subseteq_drop]. }
  assert (Htargets : Forall (fun target => valid_udp_port target.2)
                       (targets_of hosts ports)).
  { apply Forall_forall. intros target Htarget.
    apply targets_of_port in Htarget. rewrite Forall_forall in ports_valid.
    auto. }
  destruct (rt_start_tasks_settle env timeout (length (discoveries st))
              (targets_of hosts ports) Htargets) as [replies Hreplies].
  fold tasks in Hreplies. rewrite Hreplies.
  assert (Hcfg : cfg_inv env ports timeout ips (tasks, st0)).
  { split; [exact Hst | by apply rt_start_tasks_ok]. }
  remember (run_events env timeout order (tasks, st0)) as cfg' eqn:Ecfg.
  assert (Hinv : cfg_inv env ports timeout ips cfg')
    by (subst cfg'; by apply rt_run_events_inv).
  assert (Hclean : beyond cfg'.2 = false ∧ rejected cfg'.2 = None).
  { subst cfg'.
    destruct (rt_run_events_clean env ports timeout ips order _
                env_supported Hcfg) as [-> Hr].
    rewrite Hr by exact timeout_valid. done. }
  destruct Hclean as [Hbeyond' Hrejected'].
  assert (Hsettled : ∀ i t', cfg'.1 !! i = Some t' → task_phase t' = Settled).
  { subst cfg'. intros i t'.
    by apply (rt_batch_settles env timeout _ (tasks, st0)). }
  assert (Hcounts :
            completedChecks cfg'.2 + Z.of_nat (awaiting cfg'.1)
            = completedChecks st + Z.of_nat (length (targets_of hosts ports))
            ∧ discoveries cfg'.2 = discoveries st ++ targets_of hosts ports
            ∧ notified cfg'.2 = notified st).
  { subst cfg'.
    destruct (rt_run_events_count env timeout order (tasks, st0))
      as (-> & -> & ->).
    cbn [fst snd completedChecks discoveries notified].
    unfold tasks. rewrite rt_awaiting_start by exact Htargets. done. }
  rewrite (rt_awaiting_settled _ Hsettled) in Hcounts.
  clear Ecfg. destruct cfg' as [tasks' st1]. cbn [fst snd] in *.
  rewrite Hrejected'.
  destruct Hcounts as (Hcc & Hd & Hn). destruct Hinv as [Hst1 _].
  assert (Hdisc' : discoveries st1
                   = targets_of (take (S k * Z.to_nat batchSize) ips) ports).
  { rewrite Hd, Hdisc.
    replace (S k * Z.to_nat batchSize)%nat
      with (k * Z.to_nat batchSize + Z.to_nat batchSize)%nat by lia.
    rewrite <- (take_take_drop ips (k * Z.to_nat batchSize)).
    rewrite targets_of_app. reflexivity. }
  assert (Hcc' : completedChecks st1 = Z.of_nat (length (discoveries st1))).
  { rewrite Hd, length_app. lia. }
  split; [| split; [reflexivity | split; [exact Hbeyond' |]]].
  { destruct Hst1 as (Hprobes & Hentries & _).
    split; [exact Hprobes |]. split; [exact Hentries |].
    cbn. by intros [? [=]]. }
  cbn [discoveries completedChecks notified].
  split; [exact Hdisc' |]. split; [exact Hcc' |].
  rewrite Hn, fmap_app, Hnotified.
  destruct onProgress; [| reflexivity].
  rewrite seq_S, fmap_app. cbn [fmap list_fmap Nat.add fst]. do 2 f_equal.
  unfold expected_counts.
  rewrite Hcc', Hdisc', rt_length_targets_of, length_take.
  f_equal. rewrite Nat2Z.inj_mul, Nat2Z.inj_min, Nat2Z.inj_mul.
  rewrite Z2Nat.id by lia.
  replace (Z.of_nat (S k)) with (Z.of_nat k + 1) by lia.
  pose proof (Z.le_min_r ((Z.of_nat k + 1) * batchSize) (Z.of_nat (length ips))).
  pose proof (Z.le_min_l ((Z.of_nat k + 1) * batchSize) (Z.of_nat (length ips))).
  assert (0 <= Z.min ((Z.of_nat k + 1) * batchSize) (Z.of_nat (length ips)))
    by (apply Z.min_glb; nia).
  rewrite Z.min_l by nia. lia.
Qed.

Lemma rt_scanSubnetUDP_loop_boundary (fuel : nat) : ∀ (k : nat) st,
  Z.of_nat (length ips) - Z.of_nat k * batchSize <= Z.of_nat fuel →
  (Z.of_nat k - 1) * batchSize < Z.of_nat (length ips) →
  udp_boundary env ports timeout batchSize onProgress ips k st →
  ∃ st',
    scanSubnetUDP_loop env ports timeout batchSize onProgress ips fuel k
      (Z.of_nat k * batchSize) st = Some st'
    ∧ udp_boundary env ports timeout batchSize onProgress ips
        (batch_count (length ips) batchSize) st'.
Proof.
  induction fuel as [|fuel IH]; intros k st Hfuel Hlast Hst;
    cbn [scanSubnetUDP_loop];
    rewrite (proj1 (proj2 Hst));
    destruct (Z.ltb_spec (Z.of_nat k * batchSize) (Z.of_nat (length ips)))
      as [Hmore | Hdone];
    try (rewrite (batch_count_unique batchSize ips k) by lia; eauto).
  - lia.
  - replace (Z.of_nat k * batchSize + batchSize)
      with (Z.of_nat (S k) * batchSize) by lia.
    apply IH; [lia | lia |].
    apply rt_scanSubnetUDP_batch_boundary; assumption.
Qed.

Lemma rt_scanSubnetUDP_boundary_total subnetInfo :
  getLocalNetworkInfo env = Some (Some subnetInfo) →
  generateSubnetIPs subnetInfo = Some ips →
  ∃ st,
    scanSubnetUDP env ports timeout batchSize onProgress
    = Some {| outcome := Normal (Map_values (foundServers st));
              udp_calls := discoveries st; tcp_calls := probes st;
              reports := notified st |}
    ∧ udp_boundary env ports timeout batchSize onProgress ips
        (batch_count (length ips) batchSize) st.
Proof.
  intros Hnet Hips. unfold scanSubnetUDP.
  rewrite Hnet. cbn [mbind option_bind]. rewrite Hips. cbn [mbind option_bind].
  destruct (rt_scanSubnetUDP_loop_boundary (length ips) 0 _ ltac:(lia) ltac:(lia)
              rt_udp_boundary_init) as (st & Hloop & Hst).
  change (Z.of_nat 0 * batchSize) with 0 in Hloop.
  rewrite Hloop. cbn [mbind option_bind].
  destruct Hst as (Hinv & Hrejected & Hbeyond & Hrest).
  rewrite Hbeyond. unfold udp_run. rewrite Hrejected.
  exists st. split; [reflexivity |].
  exact (conj Hinv (conj Hrejected (conj Hbeyond Hrest))).
Qed.

End RuntimeScanSubnetUDP.

(** ** The results of [scanSubnetUDP] *)

(** [scanSubnetUDP] ends, with a result or with a rejection, and what it
    leaves satisfies the invariant of the scan; on supported replies it
    stays within the fragment. *)
Lemma rt_scanSubnetUDP_total
    env ports timeout batchSize onProgress subnetInfo ips :
  getLocalNetworkInfo env = Some (Some subnetInfo) →
  generateSubnetIPs subnetInfo = Some ips →
  1 <= batchSize ∨ ips = [] →
  ∃ st,
    scanSubnetUDP env ports timeout batchSize onProgress
    = (if beyond st then None else Some (udp_run st))
    ∧ udp_inv env ports timeout ips st
    ∧ (replies_supported env → beyond st = false).
Proof.
  intros Hnet Hips Hbs. unfold scanSubnetUDP.
  rewrite Hnet. cbn [mbind option_bind]. rewrite Hips. cbn [mbind option_bind].
  destruct Hbs as [Hbs | ->].
  - destruct (rt_scanSubnetUDP_loop_inv env ports timeout batchSize onProgress
                ips Hbs (length ips) 0 0 _ ltac:(lia)
                (rt_udp_inv_init env ports timeout ips))
      as (st & Hloop & Hst & Hbeyond).
    change (Z.of_nat 0) with 0 in Hloop. rewrite Hloop. cbn [mbind option_bind].
    exists st. split; [reflexivity |]. split; [exact Hst | exact Hbeyond].
  - cbn.
    exists {| foundServers := []; completedChecks := 0; discoveries := [];
              probes := []; notified := []; rejected := None;
              beyond := false |}.
    split; [reflexivity |]. split; [apply rt_udp_inv_init | done].
Qed.

(** A port [socket.send] refuses ends the scan in its first batch, whose
    discoveries were all made: the scan is rejected before any reply is
    awaited, and reports no progress. *)
Lemma rt_scanSubnetUDP_rejects
    env ports timeout batchSize onProgress subnetInfo ips run :
  getLocalNetworkInfo env = Some (Some subnetInfo) →
  generateSubnetIPs subnetInfo = Some ips →
  1 <= batchSize →
  ips ≠ [] → Exists (fun p => ¬ valid_udp_port p) ports →
  scanSubnetUDP env ports timeout batchSize onProgress = Some run →
  outcome run = Throw ERR_SOCKET_BAD_PORT
  ∧ udp_calls run = targets_of (take (Z.to_nat batchSize) ips) ports
  ∧ reports run = [].
Proof.
  intros Hnet Hips Hbs Hnonempty Hbad. unfold scanSubnetUDP.
  rewrite Hnet. cbn [mbind option_bind]. rewrite Hips. cbn [mbind option_bind].
  assert (Hlen : (0 < length ips)%nat) by (destruct ips; [done | cbn; lia]).
  pose proof (slice_batch batchSize ips Hbs 0 ltac:(lia)) as Hslice.
  change (Z.of_nat 0) with 0 in Hslice. rewrite drop_0 in Hslice.
  set (targets := targets_of (take (Z.to_nat batchSize) ips) ports).
  assert (Hthrow :
            Promise_all (task_reply <$> start_tasks env 0 timeout targets)
            = Throw ERR_SOCKET_BAD_PORT).
  { apply rt_start_tasks_reject.
    apply Exists_exists in Hbad as (p & Hp & Hbad).
    destruct ips as [|h rest]; [done |]. unfold targets.
    destruct (Z.to_nat batchSize) as [|size] eqn:Esize; [lia |].
    apply Exists_exists. exists (h, p). split; [| exact Hbad].
    apply targets_of_elem; [left | exact Hp]. }
  destruct (length ips) as [|fuel] eqn:Efuel at 1; [lia |].
  cbn [scanSubnetUDP_loop rejected].
  destruct (Z.ltb_spec 0 (Z.of_nat (length ips))); [| lia].
  unfold scanSubnetUDP_batch. cbn [discoveries length].
  rewrite Hslice. fold targets. rewrite Hthrow.
  set (order := arrival_order env 0 ++ _).
  set (st0 := rejecting _ _).
  pose proof (rt_run_events_rejected_kept env timeout order
                (start_tasks env 0 timeout targets, st0)
                ERR_SOCKET_BAD_PORT eq_refl) as Hrejected.
  destruct (rt_run_events_count env timeout order
              (start_tasks env 0 timeout targets, st0)) as (_ & Hd & Hn).
  destruct (run_events env timeout order _) as [tasks' st1].
  cbn [fst snd] in *. rewrite Hrejected.
  assert (Hloop : ∀ b i,
            scanSubnetUDP_loop env ports timeout batchSize onProgress ips
              fuel b i st1 = Some st1).
  { intros b i. destruct fuel; cbn [scanSubnetUDP_loop]; by rewrite Hrejected. }
  rewrite Hloop. cbn [mbind option_bind].
  destruct (beyond st1); [done |]. intros [= <-].
  unfold udp_run. cbn [outcome udp_calls reports]. by rewrite Hrejected, Hd, Hn.
Qed.

Lemma untyped_supported env : replies_supported (untyped env).
Proof.
  intros s info. cbn. destruct (ServerScanner.JSON_parse env s) as [[reply|]|];
    [| done..].
  intros [= <-]. apply number_supported.
Qed.

Lemma rt_found_result env ports timeout ips st r :
  udp_inv env ports timeout ips st → r ∈ Map_values (foundServers st) →
  result_ok env ports timeout ips (probes st) r.
Proof.
  intros (_ & Hentries & _) Hr. unfold Map_values in Hr.
  apply list_elem_of_fmap in Hr as ([key r'] & -> & Hin).
  rewrite Forall_forall in Hentries. apply (Hentries _ Hin).
Qed.

Lemma reads_numbers related numbers :
  Forall2 reads related numbers →
  Forall (fun v => ∃ q, v = JNumber q) related →
  related = JNumber <$> numbers.
Proof.
  induction 1 as [|v z related numbers Hz _ IH]; [done |].
  intros [[q ->] Hrest]%Forall_cons. cbn. f_equal; [| by apply IH].
  unfold reads in Hz. cbn in Hz. congruence.
Qed.





(** ** Coverage, progress and probes of [scanSubnetUDP] *)






